(** * SvxReflector core and the signal level squelch: a shallow embedding

    The development follows [src/svxlink/reflector/Reflector.cpp] and
    [src/svxlink/trx/SquelchSigLev.h].

    - Unsigned machine integers are [Z] with the wrap-around written out
      ([wrap16], [wrap32]).
    - [ReflectorClient] objects live in a heap ([gmap] from addresses to
      objects); the reflector's maps and the talkgroup handler hold
      addresses, so aliasing and object lifetime are explicit.  Reading
      through an address that is not allocated is undefined behaviour in
      C++ and makes a handler return [None] here, as does a failed
      [assert].
    - Everything a handler does to its collaborators (messages handed to a
      client session, calls into the talkgroup handler, log lines) is
      recorded, in program order, in a trace of [Event]s.
    - The classes whose code is not part of the two files (the talkgroup
      handler, the message codec, the talkgroup atoms of the filter
      algebra, the squelch base class and the signal level detector) are
      interfaces here; concrete instances that follow the design document
      are given at the end of the definitions and are used to run the
      handlers on examples. *)

From stdpp Require Import gmap strings list sorting.

Open Scope Z_scope.

#[global] Set Warnings "-clear-no-such-hyp".

(* ===================================================================== *)
(** ** Machine integers *)

Definition wrap16 (x : Z) : Z := x mod 65536.
Definition wrap32 (x : Z) : Z := x mod 4294967296.

(* ===================================================================== *)
(** ** Data model *)

(** Address of a [ReflectorClient] object ([ReflectorClient*]). *)
Definition ClientPtr := nat.
(** Address of a control connection ([Async::FramedTcpConnection*]). *)
Definition ConPtr := nat.
(** [Async::IpAddress], compared with [!=] only. *)
Definition IpAddress := Z.

Record ProtoVer := mkProtoVer { majorVer : Z; minorVer : Z }.

(** Modelled from the spec: the ordering of [ProtoVer] values, used by
    [ProtoVerRangeFilter] (the class is declared in a header that is not
    part of the sources).  Versions are ordered by major number, then by
    minor number. *)
Definition ProtoVer_leb (a b : ProtoVer) : bool :=
  (majorVer a <? majorVer b) ||
  ((majorVer a =? majorVer b) && (minorVer a <=? minorVer b)).

(** Modelled from the spec: the connection states of a client session
    (section 4.D).  [Reflector.cpp] names only [STATE_CONNECTED]. *)
Inductive ConState :=
| STATE_CONNECTING
| STATE_HANDSHAKING
| STATE_AWAIT_AUTH_RESP
| STATE_CONNECTED
| STATE_DESTROYING.

#[global] Instance ConState_eq_dec : EqDecision ConState.
Proof. solve_decision. Defined.

(** The part of a [ReflectorClient] object that [Reflector.cpp] reads or
    writes through its accessors. *)
Record ReflectorClient := mkReflectorClient {
  clientId : Z;                 (* uint32_t clientId() *)
  remoteHost : IpAddress;       (* remoteHost(): peer of the control channel *)
  remoteUdpPort : Z;            (* uint16_t remoteUdpPort(), 0 until learned *)
  nextUdpRxSeq : Z;             (* uint16_t nextUdpRxSeq() *)
  conState : ConState;          (* conState() *)
  callsign : string;            (* callsign(), empty until authenticated *)
  protoVer : ProtoVer;          (* protoVer() *)
  monitoredTGs : gset Z;        (* monitoredTGs() *)
  isBlocked : bool              (* isBlocked() *)
}.

(** [client->setRemoteUdpPort(port)]: the setter of [remoteUdpPort()]. *)
Definition setRemoteUdpPort (port : Z) (c : ReflectorClient) : ReflectorClient :=
  mkReflectorClient (clientId c) (remoteHost c) port (nextUdpRxSeq c)
    (conState c) (callsign c) (protoVer c) (monitoredTGs c) (isBlocked c).

(* ===================================================================== *)
(** ** Messages *)

(** Control channel messages built by [Reflector.cpp]. *)
Inductive ReflectorMsg :=
| MsgTalkerStart (tg : Z) (cs : string)
| MsgTalkerStop (tg : Z) (cs : string)
| MsgTalkerStartV1 (cs : string)
| MsgTalkerStopV1 (cs : string)
| MsgNodeLeft (cs : string)
| MsgRequestQsy (tg : Z).

(** Datagram messages.  [MsgUdpAudio] carries the audio payload. *)
Inductive UdpMsg :=
| MsgUdpHeartbeat
| MsgUdpAudio (audioData : list Z)
| MsgUdpFlushSamples
| MsgUdpAllSamplesFlushed.

(** The [TYPE] tag of a datagram as the [switch] of
    [udpDatagramReceived] distinguishes it: the four known message
    classes, and every other tag. *)
Inductive UdpType :=
| TYPE_MsgUdpHeartbeat
| TYPE_MsgUdpAudio
| TYPE_MsgUdpFlushSamples
| TYPE_MsgUdpAllSamplesFlushed
| TYPE_unknown (tag : Z).

(** The datagram header, class [ReflectorUdpMsg]. *)
Record ReflectorUdpMsg := mkUdpHeader {
  hdr_type : UdpType;           (* type() *)
  hdr_clientId : Z;             (* clientId() *)
  hdr_sequenceNum : Z           (* uint16_t sequenceNum() *)
}.

(** The message codec is not part of the sources: [unpack_header] stands
    for [ReflectorUdpMsg::unpack] on the received buffer and returns the
    header with the rest of the stream, [unpack_audio] stands for
    [MsgUdpAudio::unpack] on that rest and returns [audioData()]. *)
Class UdpCodec := {
  unpack_header : list Z → option (ReflectorUdpMsg * list Z);
  unpack_audio : list Z → option (list Z)
}.

(* ===================================================================== *)
(** ** The filter algebra ([ReflectorClient::Filter]) *)

Inductive ClientFilter :=
| TgFilter (tg : Z)
| TgMonitorFilter (tg : Z)
| ExceptFilter (client : ClientPtr)
| ProtoVerRangeFilter (lo hi : ProtoVer)
| mkAndFilter (a b : ClientFilter)
| mkOrFilter (a b : ClientFilter).

Definition v1_client_filter : ClientFilter :=
  ProtoVerRangeFilter (mkProtoVer 1 0) (mkProtoVer 1 999).
Definition v2_client_filter : ClientFilter :=
  ProtoVerRangeFilter (mkProtoVer 2 0) (mkProtoVer 2 999).

(* ===================================================================== *)
(** ** The talkgroup handler interface ([TGHandler::instance()]) *)

(** The [talkerUpdated(tg, old_talker, new_talker)] signal. *)
Record TalkerUpdated := mkTalkerUpdated {
  tu_tg : Z;
  tu_old : option ClientPtr;
  tu_new : option ClientPtr
}.

(** The operations of the singleton that [Reflector.cpp] calls, over the
    handler's state [T].  The two mutators return the new state and the
    [talkerUpdated] signals they emitted, each with the state the
    handler was in when it emitted the signal.  [tgFilter] and
    [tgMonitorFilter] are the predicates behind [TgFilter(tg)] and
    [TgMonitorFilter(tg)], whose code is in [ReflectorClient.h]. *)
Class TGHandler (T : Type) := {
  TGForClient : T → ClientPtr → Z;
  clientsForTG : T → Z → gset ClientPtr;
  talkerForTG : T → Z → option ClientPtr;
  setTalkerForTG : T → Z → option ClientPtr → T * list (T * TalkerUpdated);
  removeClient : T → ClientPtr → T * list (T * TalkerUpdated);
  tgFilter : T → Z → ClientPtr → ReflectorClient → bool;
  tgMonitorFilter : T → Z → ClientPtr → ReflectorClient → bool;
  (* the return type of TGForClient is uint32_t *)
  TGForClient_unsigned : ∀ h c, 0 ≤ TGForClient h c
}.

(* ===================================================================== *)
(** ** Traces *)

(** Lines written to [cout] and [cerr]. *)
Inductive LogLine :=
| LogUnpackHeaderFailed
| LogInvalidClientId
| LogWrongSourceIp
| LogWrongSourcePort
| LogOutOfSequence (seq expected : Z)
| LogFramesLost (expected seq : Z)
| LogUnpackAudioFailed
| LogTalkerStop (tg : Z) (cs : string)
| LogTalkerStart (tg : Z) (cs : string)
| LogRandomQsyRangeEmpty
| LogNoRandomTG
| LogRequestingQsy (current_tg tg : Z)
| LogDisconnected (cs : string).

Inductive Event :=
| SendMsg (to : ClientPtr) (msg : ReflectorMsg)       (* to->sendMsg(msg) *)
| SendUdpMsg (to : ClientPtr) (msg : UdpMsg)          (* to->sendUdpMsg(msg) *)
| UdpMsgReceived (c : ClientPtr) (h : ReflectorUdpMsg) (* c->udpMsgReceived(h) *)
| CallSetTalkerForTG (tg : Z) (c : option ClientPtr)
| CallRemoveClient (c : ClientPtr)
| Log (l : LogLine).

(** A task handed to [Application::app().runTask]. *)
Inductive Task :=
| delete_client (client : ClientPtr).

(* ===================================================================== *)
(** ** Program state *)

(** The data members of class [Reflector] that the modelled member
    functions use. *)
Record Reflector := mkReflector {
  m_client_map : gmap Z ClientPtr;          (* std::map<uint32_t, ReflectorClient*> *)
  m_client_con_map : gmap ConPtr ClientPtr; (* std::map<FramedTcpConnection*, ReflectorClient*> *)
  m_tg_for_v1_clients : Z;                  (* uint32_t *)
  m_random_qsy_lo : Z;                      (* uint32_t *)
  m_random_qsy_hi : Z;                      (* uint32_t *)
  m_random_qsy_tg : Z                       (* uint32_t *)
}.

(** [Reflector::Reflector]: the member initialisers. *)
Definition Reflector_new : Reflector := mkReflector ∅ ∅ 1 0 0 0.

(** The reflector object together with what it shares with the rest of
    the process: the talkgroup handler singleton, the heap of client
    objects, and the tasks queued in the application's event loop. *)
Record World (T : Type) := mkWorld {
  reflector : Reflector;
  tg_handler : T;
  heap : gmap ClientPtr ReflectorClient;
  tasks : list Task
}.
Arguments mkWorld {T}.
Arguments reflector {T}.
Arguments tg_handler {T}.
Arguments heap {T}.
Arguments tasks {T}.

Definition set_reflector {T} (r : Reflector) (w : World T) : World T :=
  mkWorld r (tg_handler w) (heap w) (tasks w).
Definition set_tg_handler {T} (h : T) (w : World T) : World T :=
  mkWorld (reflector w) h (heap w) (tasks w).
Definition set_heap {T} (hp : gmap ClientPtr ReflectorClient) (w : World T) : World T :=
  mkWorld (reflector w) (tg_handler w) hp (tasks w).
Definition set_tasks {T} (ts : list Task) (w : World T) : World T :=
  mkWorld (reflector w) (tg_handler w) (heap w) ts.

Definition set_random_qsy_tg (tg : Z) (r : Reflector) : Reflector :=
  mkReflector (m_client_map r) (m_client_con_map r) (m_tg_for_v1_clients r)
    (m_random_qsy_lo r) (m_random_qsy_hi r) tg.
Definition set_random_qsy (lo hi tg : Z) (r : Reflector) : Reflector :=
  mkReflector (m_client_map r) (m_client_con_map r) (m_tg_for_v1_clients r)
    lo hi tg.
Definition set_client_maps (cm : gmap Z ClientPtr) (ccm : gmap ConPtr ClientPtr)
    (r : Reflector) : Reflector :=
  mkReflector cm ccm (m_tg_for_v1_clients r)
    (m_random_qsy_lo r) (m_random_qsy_hi r) (m_random_qsy_tg r).

(** The order of the keys of [m_client_map]. *)
Definition entry_le (a b : Z * ClientPtr) : Prop := a.1 ≤ b.1.

#[global] Instance entry_le_dec : RelDecision entry_le.
Proof. intros a b. unfold entry_le. apply _. Defined.

(** Iteration over [m_client_map] from [begin()] to [end()]: a
    [std::map] is traversed in ascending key order. *)
Definition client_map_entries (m : gmap Z ClientPtr) : list (Z * ClientPtr) :=
  merge_sort entry_le (map_to_list m).

(** Modelled from the spec: [Application::app().runTask(task)], whose
    code is not part of the sources (sections 4.E and 5): the task is
    queued and runs in a later iteration of the event loop, when the
    loop is idle again. *)
Definition runTask {T} (t : Task) (w : World T) : World T :=
  set_tasks (tasks w ++ [t]) w.

(** The body of a queued task.  [delete_client] is the function of that
    name at the end of [Reflector.cpp], [delete client]: the object is
    freed. *)
Definition run_task {T} (t : Task) (w : World T) : World T :=
  match t with
  | delete_client client => set_heap (delete client (heap w)) w
  end.

(** Modelled from the spec: one idle iteration of the event loop, in
    which every queued task runs, in the order of queueing. *)
Definition run_pending_tasks {T} (w : World T) : World T :=
  fold_left (λ w' t, run_task t w') (tasks w) (set_tasks [] w).

Section ReflectorCode.
Context {T : Type} `{!TGHandler T} `{!UdpCodec}.

(* --------------------------------------------------------------------- *)
(** *** Filters *)

(** Modelled from the spec: the meaning of the filter classes of
    [ReflectorClient.h] (section 4.C): [ExceptFilter] excludes one client
    by identity, [ProtoVerRangeFilter] holds when [lo ≤ protoVer ≤ hi],
    the combinators are conjunction and disjunction.  The two talkgroup
    atoms are those of the handler interface. *)
Fixpoint filter_holds (h : T) (f : ClientFilter) (p : ClientPtr)
    (c : ReflectorClient) : bool :=
  match f with
  | TgFilter tg => tgFilter h tg p c
  | TgMonitorFilter tg => tgMonitorFilter h tg p c
  | ExceptFilter q => bool_decide (p ≠ q)
  | ProtoVerRangeFilter lo hi =>
      ProtoVer_leb lo (protoVer c) && ProtoVer_leb (protoVer c) hi
  | mkAndFilter a b => filter_holds h a p c && filter_holds h b p c
  | mkOrFilter a b => filter_holds h a p c || filter_holds h b p c
  end.

(* --------------------------------------------------------------------- *)
(** *** [Reflector::broadcastMsg] and [Reflector::broadcastUdpMsg] *)

(** The loop shared by the two broadcast functions: for every entry of
    the client map, in order, the client is sent to when the filter
    accepts it and its connection state is [STATE_CONNECTED]. *)
Fixpoint broadcast_loop (w : World T) (filter : ClientFilter)
    (send : ClientPtr → Event) (entries : list (Z * ClientPtr))
    : option (list Event) :=
  match entries with
  | [] => Some []
  | (_, client) :: rest =>
      c ← heap w !! client;
      evs ← broadcast_loop w filter send rest;
      Some (if filter_holds (tg_handler w) filter client c &&
               bool_decide (conState c = STATE_CONNECTED)
            then send client :: evs
            else evs)
  end.

Definition broadcastMsg (w : World T) (msg : ReflectorMsg)
    (filter : ClientFilter) : option (list Event) :=
  broadcast_loop w filter (λ client, SendMsg client msg)
    (client_map_entries (m_client_map (reflector w))).

Definition broadcastUdpMsg (w : World T) (msg : UdpMsg)
    (filter : ClientFilter) : option (list Event) :=
  broadcast_loop w filter (λ client, SendUdpMsg client msg)
    (client_map_entries (m_client_map (reflector w))).

(* --------------------------------------------------------------------- *)
(** *** [Reflector::onTalkerUpdated] *)

Definition tgForV1Clients (w : World T) : Z :=
  m_tg_for_v1_clients (reflector w).

Definition talker_filter (tg : Z) : ClientFilter :=
  mkAndFilter v2_client_filter
    (mkOrFilter (TgFilter tg) (TgMonitorFilter tg)).

(** The [if (old_talker != 0)] block. *)
Definition talker_stop (w : World T) (tg : Z) (old_talker : ClientPtr)
    : option (list Event) :=
  oc ← heap w !! old_talker;
  e1 ← broadcastMsg w (MsgTalkerStop tg (callsign oc)) (talker_filter tg);
  e2 ← (if bool_decide (tg = tgForV1Clients w)
        then broadcastMsg w (MsgTalkerStopV1 (callsign oc)) v1_client_filter
        else Some []);
  e3 ← broadcastUdpMsg w MsgUdpFlushSamples
         (mkAndFilter (TgFilter tg) (ExceptFilter old_talker));
  Some (Log (LogTalkerStop tg (callsign oc)) :: e1 ++ e2 ++ e3).

(** The [if (new_talker != 0)] block. *)
Definition talker_start (w : World T) (tg : Z) (new_talker : ClientPtr)
    : option (list Event) :=
  nc ← heap w !! new_talker;
  e1 ← broadcastMsg w (MsgTalkerStart tg (callsign nc)) (talker_filter tg);
  e2 ← (if bool_decide (tg = tgForV1Clients w)
        then broadcastMsg w (MsgTalkerStartV1 (callsign nc)) v1_client_filter
        else Some []);
  Some (Log (LogTalkerStart tg (callsign nc)) :: e1 ++ e2).

Definition onTalkerUpdated (w : World T) (tg : Z)
    (old_talker new_talker : option ClientPtr) : option (list Event) :=
  stop ← match old_talker with
         | Some old => talker_stop w tg old
         | None => Some []
         end;
  start ← match new_talker with
          | Some new => talker_start w tg new
          | None => Some []
          end;
  Some (stop ++ start).

(** The [talkerUpdated] signal is connected to [onTalkerUpdated] in the
    constructor and is delivered synchronously: the slot runs at the
    point of emission, with the talkgroup handler in the state it has
    there. *)
Fixpoint deliver_signals (w : World T) (sigs : list (T * TalkerUpdated))
    : option (list Event) :=
  match sigs with
  | [] => Some []
  | (h, s) :: rest =>
      e ← onTalkerUpdated (set_tg_handler h w) (tu_tg s) (tu_old s) (tu_new s);
      es ← deliver_signals w rest;
      Some (e ++ es)
  end.

(** [TGHandler::instance()->setTalkerForTG(tg, c)] as seen from the
    reflector: the call, then the slots. *)
Definition call_setTalkerForTG (w : World T) (tg : Z) (c : option ClientPtr)
    : option (World T * list Event) :=
  let '(h', sigs) := setTalkerForTG (tg_handler w) tg c in
  evs ← deliver_signals w sigs;
  Some (set_tg_handler h' w, CallSetTalkerForTG tg c :: evs).

(** [TGHandler::instance()->removeClient(client)], likewise. *)
Definition call_removeClient (w : World T) (client : ClientPtr)
    : option (World T * list Event) :=
  let '(h', sigs) := removeClient (tg_handler w) client in
  evs ← deliver_signals w sigs;
  Some (set_tg_handler h' w, CallRemoveClient client :: evs).

(* --------------------------------------------------------------------- *)
(** *** [Reflector::initialize]: the [RANDOM_QSY_RANGE] block *)

(** [range] is the result of reading [RANDOM_QSY_RANGE] as a pair of
    [uint32_t]: [None] when the variable is not set. *)
Definition initialize_random_qsy (range : option (Z * Z)) (r : Reflector)
    : Reflector :=
  match range with
  | None => r
  | Some (first, second) =>
      let lo := first in
      let hi := wrap32 (lo + second - 1) in
      if (lo <? 1) || (hi <? lo)
      then set_random_qsy 0 0 0 r
      else set_random_qsy lo hi hi r
  end.

(* --------------------------------------------------------------------- *)
(** *** [Reflector::requestQsy] *)

(** One step of the cursor. *)
Definition random_qsy_next (lo hi cursor : Z) : Z :=
  if cursor <? hi then wrap32 (cursor + 1) else lo.

(** The [for] loop: [n] iterations are left; the result is the cursor
    and the talkgroup found, if any. *)
Fixpoint random_qsy_scan (h : T) (lo hi : Z) (n : nat) (cursor : Z)
    : Z * option Z :=
  match n with
  | O => (cursor, None)
  | S n' =>
      let cursor' := random_qsy_next lo hi cursor in
      if bool_decide (clientsForTG h cursor' = ∅)
      then (cursor', Some cursor')
      else random_qsy_scan h lo hi n' cursor'
  end.

(** The tail of the function, after the talkgroup is known. *)
Definition qsy_announce (w : World T) (client : ClientPtr) (tg : Z)
    : option (World T * list Event) :=
  _ ← heap w !! client;
  let current_tg := TGForClient (tg_handler w) client in
  evs ← broadcastMsg w (MsgRequestQsy tg)
          (mkAndFilter v2_client_filter (TgFilter current_tg));
  Some (w, Log (LogRequestingQsy current_tg tg) :: evs).

Definition requestQsy (w : World T) (client : ClientPtr) (tg : Z)
    : option (World T * list Event) :=
  let r := reflector w in
  if tg =? 0 then
    if m_random_qsy_tg r =? 0 then
      _ ← heap w !! client;
      Some (w, [Log LogRandomQsyRangeEmpty])
    else
      let range_size := wrap32 (m_random_qsy_hi r - m_random_qsy_lo r + 1) in
      let '(cursor, found) :=
        random_qsy_scan (tg_handler w) (m_random_qsy_lo r) (m_random_qsy_hi r)
          (Z.to_nat range_size) (m_random_qsy_tg r) in
      let w' := set_reflector (set_random_qsy_tg cursor r) w in
      match found with
      | Some tg' => qsy_announce w' client tg'
      | None => Some (w', [Log LogNoRandomTG])
      end
  else qsy_announce w client tg.

(* --------------------------------------------------------------------- *)
(** *** [Reflector::clientDisconnected] *)

Definition clientDisconnected (w : World T) (con : ConPtr)
    : option (World T * list Event) :=
  client ← m_client_con_map (reflector w) !! con;      (* the assert *)
  '(w1, evs1) ← call_removeClient w client;
  c ← heap w1 !! client;
  let r := reflector w1 in
  let w2 := set_reflector
              (set_client_maps (delete (clientId c) (m_client_map r))
                               (delete con (m_client_con_map r)) r) w1 in
  evs2 ← (if bool_decide (callsign c ≠ "")
          then broadcastMsg w2 (MsgNodeLeft (callsign c)) (ExceptFilter client)
          else Some []);
  Some (runTask (delete_client client) w2,
        evs1 ++ Log (LogDisconnected (callsign c)) :: evs2).

(* --------------------------------------------------------------------- *)
(** *** [Reflector::udpDatagramReceived] *)

(** Modelled from the spec: [ReflectorClient::udpMsgReceived], whose code
    is not part of the sources.  The session records the header and
    expects the sequence number after the received one next
    (section 4.D, "Update expected = s + 1 after acceptance"). *)
Definition udpMsgReceived (header : ReflectorUdpMsg) (c : ReflectorClient)
    : ReflectorClient :=
  mkReflectorClient (clientId c) (remoteHost c) (remoteUdpPort c)
    (wrap16 (hdr_sequenceNum header + 1))
    (conState c) (callsign c) (protoVer c) (monitoredTGs c) (isBlocked c).

Definition store_client (client : ClientPtr) (c : ReflectorClient)
    (w : World T) : World T :=
  set_heap (<[client := c]> (heap w)) w.

(** [case MsgUdpAudio::TYPE] *)
Definition udp_audio (w : World T) (client : ClientPtr) (ss : list Z)
    : option (World T * list Event) :=
  c ← heap w !! client;
  if isBlocked c then Some (w, [])
  else
    match unpack_audio ss with
    | None => Some (w, [Log LogUnpackAudioFailed])
    | Some audioData =>
        let tg := TGForClient (tg_handler w) client in
        if negb (bool_decide (audioData = [])) && (0 <? tg) then
          let talker := talkerForTG (tg_handler w) tg in
          '(w1, evs1) ← match talker with
                        | None => call_setTalkerForTG w tg (Some client)
                        | Some _ => Some (w, [])
                        end;
          let talker1 := match talker with
                         | None => talkerForTG (tg_handler w1) tg
                         | Some _ => talker
                         end in
          if bool_decide (talker1 = Some client) then
            '(w2, evs2) ← call_setTalkerForTG w1 tg (Some client);
            evs3 ← broadcastUdpMsg w2 (MsgUdpAudio audioData)
                     (mkAndFilter (ExceptFilter client) (TgFilter tg));
            Some (w2, evs1 ++ evs2 ++ evs3)
          else Some (w1, evs1)
        else Some (w, [])
    end.

(** [case MsgUdpFlushSamples::TYPE] *)
Definition udp_flush_samples (w : World T) (client : ClientPtr)
    : option (World T * list Event) :=
  let tg := TGForClient (tg_handler w) client in
  let talker := talkerForTG (tg_handler w) tg in
  '(w1, evs1) ← (if (0 <? tg) && bool_decide (Some client = talker)
                 then call_setTalkerForTG w tg None
                 else Some (w, []));
  Some (w1, evs1 ++ [SendUdpMsg client MsgUdpAllSamplesFlushed]).

(** The [switch (header.type())]. *)
Definition udp_dispatch (w : World T) (client : ClientPtr)
    (header : ReflectorUdpMsg) (ss : list Z) : option (World T * list Event) :=
  match hdr_type header with
  | TYPE_MsgUdpHeartbeat => Some (w, [])
  | TYPE_MsgUdpAudio => udp_audio w client ss
  | TYPE_MsgUdpFlushSamples => udp_flush_samples w client
  | TYPE_MsgUdpAllSamplesFlushed => Some (w, [])
  | TYPE_unknown _ => Some (w, [])
  end.

(** From the sequence number check to the end of the function. *)
Definition udp_sequenced (w : World T) (client : ClientPtr)
    (header : ReflectorUdpMsg) (ss : list Z) : option (World T * list Event) :=
  c ← heap w !! client;
  let udp_rx_seq_diff := wrap16 (hdr_sequenceNum header - nextUdpRxSeq c) in
  if 0x7fff <? udp_rx_seq_diff then
    Some (w, [Log (LogOutOfSequence (hdr_sequenceNum header) (nextUdpRxSeq c))])
  else
    let lost := if 0 <? udp_rx_seq_diff
                then [Log (LogFramesLost (nextUdpRxSeq c) (hdr_sequenceNum header))]
                else [] in
    let w1 := store_client client (udpMsgReceived header c) w in
    '(w2, evs) ← udp_dispatch w1 client header ss;
    Some (w2, lost ++ UdpMsgReceived client header :: evs).

Definition udpDatagramReceived (w : World T) (addr : IpAddress) (port : Z)
    (buf : list Z) : option (World T * list Event) :=
  match unpack_header buf with
  | None => Some (w, [Log LogUnpackHeaderFailed])
  | Some (header, ss) =>
      match m_client_map (reflector w) !! hdr_clientId header with
      | None => Some (w, [Log LogInvalidClientId])
      | Some client =>
          c ← heap w !! client;
          if bool_decide (addr ≠ remoteHost c) then
            Some (w, [Log LogWrongSourceIp])
          else if remoteUdpPort c =? 0 then
            let w1 := store_client client (setRemoteUdpPort port c) w in
            '(w2, evs) ← udp_sequenced w1 client header ss;
            Some (w2, SendUdpMsg client MsgUdpHeartbeat :: evs)
          else if bool_decide (port ≠ remoteUdpPort c) then
            Some (w, [Log LogWrongSourcePort])
          else udp_sequenced w client header ss
      end
  end.

End ReflectorCode.

(* ===================================================================== *)
(** ** [SquelchSigLev] *)

Module SquelchSigLev.
Section SquelchCode.

(** The base class [Squelch] and the detector [SigLevDet] are declared in
    headers that are not part of the sources.  [Squelch] is the state of
    the base class sub-object with its two member functions used here;
    [SigLev] is the type of [lastSiglev()], of which the code only uses
    the two comparisons with an [int] threshold; [Sample] is the type of
    the samples in the buffer, which the function does not read. *)
Context {Squelch SigLev Sample : Type}.
Variable Squelch_reset : Squelch → Squelch.        (* Squelch::reset() *)
Variable setOpen : bool → Squelch → Squelch.       (* Squelch::setOpen(bool) *)
Variable siglev_ge : SigLev → Z → bool.            (* lastSiglev() >= thresh *)
Variable siglev_lt : SigLev → Z → bool.            (* lastSiglev() < thresh *)

Record t := mk {
  base : Squelch;
  open_thresh : Z;              (* int *)
  close_thresh : Z;             (* int *)
  is_open : bool
}.

(** [SquelchSigLev(SigLevDet *det)]: [is_open(false)].  The thresholds
    are set by [initialize]. *)
Definition create (b : Squelch) (open_thresh close_thresh : Z) : t :=
  mk b open_thresh close_thresh false.

Definition reset (sq : t) : t :=
  mk (Squelch_reset (base sq)) (open_thresh sq) (close_thresh sq) false.

(** [lastSiglev] is the value [sig_lev_det->lastSiglev()] has during the
    call.  The result is the new state and the returned [int]. *)
Definition processSamples (sq : t) (lastSiglev : SigLev)
    (samples : list Sample) (count : Z) : t * Z :=
  if negb (is_open sq) && siglev_ge lastSiglev (open_thresh sq) then
    (mk (setOpen true (base sq)) (open_thresh sq) (close_thresh sq) true, count)
  else if is_open sq && siglev_lt lastSiglev (close_thresh sq) then
    (mk (setOpen false (base sq)) (open_thresh sq) (close_thresh sq) false, count)
  else (sq, count).

End SquelchCode.
Arguments t : clear implicits.
Arguments mk {Squelch}.
Arguments base {Squelch}.
Arguments open_thresh {Squelch}.
Arguments close_thresh {Squelch}.
Arguments is_open {Squelch}.
End SquelchSigLev.

(* ===================================================================== *)
(** ** Instances that follow the design document

    These instances stand in for the classes that are not part of the
    sources when the handlers are run on concrete states. *)

Module SpecModel.

(** Modelled from the spec: the state of the talkgroup handler
    (sections 3 and 4.B): the partial map from clients to their
    talkgroup, the talker of each talkgroup with the time of its last
    activity, the block list with expiry times, and the clock. *)
Record TG := mkTG {
  tg_of_client : gmap ClientPtr Z;
  talker_of_tg : gmap Z (ClientPtr * Z);
  block_list : gmap ClientPtr Z;
  clock : Z
}.

Definition TG_empty : TG := mkTG ∅ ∅ ∅ 0.

Definition TGForClient (h : TG) (c : ClientPtr) : Z :=
  wrap32 (default 0 (tg_of_client h !! c)).

Definition clientsForTG (h : TG) (tg : Z) : gset ClientPtr :=
  dom (filter (λ kv : ClientPtr * Z, wrap32 kv.2 = tg) (tg_of_client h)).

Definition talkerForTG (h : TG) (tg : Z) : option ClientPtr :=
  fst <$> talker_of_tg h !! tg.

(** Modelled from the spec: the arbitration rules 1 to 4 of
    [setTalkerForTG] (section 4.B). *)
Definition setTalkerForTG (h : TG) (tg : Z) (client : option ClientPtr)
    : TG * list (TG * TalkerUpdated) :=
  match client, talkerForTG h tg with
  | Some c, Some cur =>
      if bool_decide (c = cur)
      then (* rule 1: refresh the activity timestamp, no event *)
        (mkTG (tg_of_client h) (<[tg := (c, clock h)]> (talker_of_tg h))
              (block_list h) (clock h), [])
      else (* rule 4: preemption is refused *)
        (h, [])
  | Some c, None =>
      (* rule 2: install the talker *)
      let h' := mkTG (tg_of_client h) (<[tg := (c, clock h)]> (talker_of_tg h))
                     (block_list h) (clock h) in
      (h', [(h', mkTalkerUpdated tg None (Some c))])
  | None, Some cur =>
      (* rule 3: clear the talker *)
      let h' := mkTG (tg_of_client h) (delete tg (talker_of_tg h))
                     (block_list h) (clock h) in
      (h', [(h', mkTalkerUpdated tg (Some cur) None)])
  | None, None => (h, [])
  end.

(** Modelled from the spec: [join(client, tg)] (section 4.B): the client
    leaves its talkgroup, giving up the talker role, and enters [tg];
    [tg = 0] only leaves. *)
Definition leave (h : TG) (client : ClientPtr)
    : TG * list (TG * TalkerUpdated) :=
  let tg := TGForClient h client in
  let '(h1, sigs) :=
    if bool_decide (talkerForTG h tg = Some client)
    then setTalkerForTG h tg None
    else (h, []) in
  (mkTG (delete client (tg_of_client h1)) (talker_of_tg h1)
        (block_list h1) (clock h1), sigs).

Definition join (h : TG) (client : ClientPtr) (tg : Z)
    : TG * list (TG * TalkerUpdated) :=
  let '(h1, sigs) := leave h client in
  (if tg =? 0 then h1
   else mkTG (<[client := tg]> (tg_of_client h1)) (talker_of_tg h1)
             (block_list h1) (clock h1),
   sigs).

(** Modelled from the spec: [removeClient] is a full withdrawal including
    the purge of the block list. *)
Definition removeClient (h : TG) (client : ClientPtr)
    : TG * list (TG * TalkerUpdated) :=
  let '(h1, sigs) := leave h client in
  (mkTG (tg_of_client h1) (talker_of_tg h1)
        (delete client (block_list h1)) (clock h1), sigs).

(** Modelled from the spec: the talkgroup atoms of the filter algebra
    (section 4.C): [TgFilter(tg)] holds when the client's current
    talkgroup equals [tg] or [tg] is in the client's monitored set;
    [TgMonitorFilter(tg)] holds when [tg] is monitored. *)
Definition tgFilter (h : TG) (tg : Z) (p : ClientPtr) (c : ReflectorClient)
    : bool :=
  bool_decide (TGForClient h p = tg) || bool_decide (tg ∈ monitoredTGs c).

Definition tgMonitorFilter (h : TG) (tg : Z) (p : ClientPtr)
    (c : ReflectorClient) : bool :=
  bool_decide (tg ∈ monitoredTGs c).

#[global] Instance handler : TGHandler TG :=
  Build_TGHandler TG TGForClient clientsForTG talkerForTG setTalkerForTG
    removeClient tgFilter tgMonitorFilter
    (λ h c, proj1 (Z.mod_pos_bound _ 4294967296 eq_refl)).

(** Modelled from the spec: the datagram layout of section 4.A, little
    endian: [u16 type, u16 sequenceNum, u32 clientId, payload].  The
    sources do not give the numeric tags; this codec uses 1 for the
    heartbeat and 101, 102, 103 for audio, flush and flush
    acknowledgement.  The audio payload is a [u16] length followed by
    that many bytes. *)
Definition u16le (b0 b1 : Z) : Z := b0 mod 256 + 256 * (b1 mod 256).
Definition u32le (b0 b1 b2 b3 : Z) : Z := u16le b0 b1 + 65536 * u16le b2 b3.

Definition type_of_tag (tag : Z) : UdpType :=
  if tag =? 1 then TYPE_MsgUdpHeartbeat
  else if tag =? 101 then TYPE_MsgUdpAudio
  else if tag =? 102 then TYPE_MsgUdpFlushSamples
  else if tag =? 103 then TYPE_MsgUdpAllSamplesFlushed
  else TYPE_unknown tag.

Definition unpack_header (buf : list Z) : option (ReflectorUdpMsg * list Z) :=
  match buf with
  | t0 :: t1 :: s0 :: s1 :: i0 :: i1 :: i2 :: i3 :: rest =>
      Some (mkUdpHeader (type_of_tag (u16le t0 t1)) (u32le i0 i1 i2 i3)
                        (u16le s0 s1), rest)
  | _ => None
  end.

Definition unpack_audio (ss : list Z) : option (list Z) :=
  match ss with
  | l0 :: l1 :: data =>
      if bool_decide (length data = Z.to_nat (u16le l0 l1))
      then Some data else None
  | _ => None
  end.

Definition codec : UdpCodec := Build_UdpCodec unpack_header unpack_audio.

End SpecModel.

(* ===================================================================== *)
(** ** Notions used in the statements *)

Section Notions.
Context {T : Type} `{!TGHandler T} `{!UdpCodec}.

(** Every client registered in [m_client_map] is an allocated object. *)
Definition clients_live (w : World T) : Prop :=
  map_Forall (λ (_ : Z) (p : ClientPtr), is_Some (heap w !! p))
    (m_client_map (reflector w)).

#[global] Instance clients_live_dec (w : World T) : Decision (clients_live w).
Proof. unfold clients_live. apply _. Defined.

(** Client [to] is registered, accepted by [filter], and connected. *)
Definition receives (w : World T) (filter : ClientFilter) (to : ClientPtr)
    : Prop :=
  ∃ id c, m_client_map (reflector w) !! id = Some to ∧
          heap w !! to = Some c ∧
          filter_holds (tg_handler w) filter to c = true ∧
          conState c = STATE_CONNECTED.

(** The checks of [udpDatagramReceived] that come before the sequence
    number check: the header decodes, the client id is registered, the
    source address is the client's, and the source port is the client's
    once a port has been learned. *)
Definition source_checks (w : World T) (addr : IpAddress) (port : Z)
    (buf : list Z) : bool :=
  match unpack_header buf with
  | None => false
  | Some (header, _) =>
      match m_client_map (reflector w) !! hdr_clientId header with
      | None => false
      | Some client =>
          match heap w !! client with
          | None => false
          | Some c =>
              bool_decide (addr = remoteHost c) &&
              ((remoteUdpPort c =? 0) || bool_decide (port = remoteUdpPort c))
          end
      end
  end.

(** The difference the sequence number check looks at. *)
Definition udp_rx_seq_diff (header : ReflectorUdpMsg) (c : ReflectorClient)
    : Z :=
  wrap16 (hdr_sequenceNum header - nextUdpRxSeq c).

(** The same checks with the header, the client and its object named:
    the datagram from [(addr, port)] decodes to [header] and the rest
    [ss], names the registered client [client], whose object is [c], and
    comes from that client's address and, once learned, port. *)
Definition source_checked (w : World T) (addr : IpAddress) (port : Z)
    (buf : list Z) (client : ClientPtr) (c : ReflectorClient)
    (header : ReflectorUdpMsg) (ss : list Z) : Prop :=
  unpack_header buf = Some (header, ss) ∧
  m_client_map (reflector w) !! hdr_clientId header = Some client ∧
  heap w !! client = Some c ∧
  addr = remoteHost c ∧
  (remoteUdpPort c = 0 ∨ port = remoteUdpPort c).

(** A datagram is validated when it passes the source checks and the
    sequence number check. *)
Definition validated (w : World T) (addr : IpAddress) (port : Z)
    (buf : list Z) (client : ClientPtr) (c : ReflectorClient)
    (header : ReflectorUdpMsg) (ss : list Z) : Prop :=
  source_checked w addr port buf client c header ss ∧
  udp_rx_seq_diff header c ≤ 0x7fff.

(** What [udpDatagramReceived] has done with a validated datagram when
    it reaches the [switch]: the client object with the port it had or
    has just learned and with the next expected sequence number, and the
    events so far. *)
Definition accepted_client (c : ReflectorClient) (port : Z)
    (header : ReflectorUdpMsg) : ReflectorClient :=
  udpMsgReceived header
    (if remoteUdpPort c =? 0 then setRemoteUdpPort port c else c).

Definition accepted_world (w : World T) (client : ClientPtr)
    (c : ReflectorClient) (port : Z) (header : ReflectorUdpMsg) : World T :=
  store_client client (accepted_client c port header) w.

Definition accepted_events (client : ClientPtr) (c : ReflectorClient)
    (header : ReflectorUdpMsg) : list Event :=
  (if remoteUdpPort c =? 0 then [SendUdpMsg client MsgUdpHeartbeat] else []) ++
  (if 0 <? udp_rx_seq_diff header c
   then [Log (LogFramesLost (nextUdpRxSeq c) (hdr_sequenceNum header))]
   else []) ++
  [UdpMsgReceived client header].

(** The cursor after [k] steps of the rotation. *)
Definition random_qsy_rotate (lo hi : Z) (k : nat) (cursor : Z) : Z :=
  Nat.iter k (random_qsy_next lo hi) cursor.

(** The random QSY allocator is configured: the range is legal and the
    cursor is inside it. *)
Definition random_qsy_ready (r : Reflector) : Prop :=
  1 ≤ m_random_qsy_lo r ∧
  m_random_qsy_lo r ≤ m_random_qsy_tg r ∧
  m_random_qsy_tg r ≤ m_random_qsy_hi r ∧
  m_random_qsy_hi r < 2 ^ 32.

(** Events that hand a message to a client session. *)
Definition is_send (e : Event) : bool :=
  match e with
  | SendMsg _ _ | SendUdpMsg _ _ => true
  | _ => false
  end.

(** Events that call into the talkgroup handler. *)
Definition is_handler_call (e : Event) : bool :=
  match e with
  | CallSetTalkerForTG _ _ | CallRemoveClient _ => true
  | _ => false
  end.

(** Events a [talkerUpdated] slot can produce: talker messages, the
    flush datagram, and the two talker log lines. *)
Definition is_talker_event (e : Event) : bool :=
  match e with
  | SendMsg _ (MsgTalkerStart _ _) | SendMsg _ (MsgTalkerStop _ _)
  | SendMsg _ (MsgTalkerStartV1 _) | SendMsg _ (MsgTalkerStopV1 _)
  | SendUdpMsg _ MsgUdpFlushSamples
  | Log (LogTalkerStart _ _) | Log (LogTalkerStop _ _) => true
  | _ => false
  end.

(** Events the [switch] of [udpDatagramReceived] can produce. *)
Definition is_dispatch_event (e : Event) : bool :=
  is_send e || is_handler_call e ||
  match e with
  | Log (LogTalkerStart _ _) | Log (LogTalkerStop _ _)
  | Log LogUnpackAudioFailed => true
  | _ => false
  end.

(** The talker named by a [talkerUpdated] signal, if any, is an allocated
    object. *)
Definition talker_live (w : World T) (talker : option ClientPtr) : Prop :=
  match talker with
  | Some p => is_Some (heap w !! p)
  | None => True
  end.

End Notions.

(* ===================================================================== *)
(** ** Example states *)

Module Examples.
Import SpecModel.

#[export] Existing Instance codec.

Definition pv1 : ProtoVer := mkProtoVer 1 0.
Definition pv2 : ProtoVer := mkProtoVer 2 0.

(** Three connected nodes and one connection that is still in the
    handshake and has not sent a datagram yet. *)
Definition alice : ReflectorClient :=
  mkReflectorClient 10 1001 5301 0 STATE_CONNECTED "A" pv2 ∅ false.
Definition bob : ReflectorClient :=
  mkReflectorClient 11 1002 5302 0 STATE_CONNECTED "B" pv2 ∅ false.
Definition vera : ReflectorClient :=
  mkReflectorClient 12 1003 5303 0 STATE_CONNECTED "V" pv1 ∅ false.
Definition hank : ReflectorClient :=
  mkReflectorClient 13 1004 0 0 STATE_HANDSHAKING "" pv2 ∅ false.

Definition p_alice : ClientPtr := 1%nat.
Definition p_bob : ClientPtr := 2%nat.
Definition p_vera : ClientPtr := 3%nat.
Definition p_hank : ClientPtr := 4%nat.

Definition refl0 : Reflector :=
  mkReflector
    (list_to_map [(10, p_alice); (11, p_bob); (12, p_vera); (13, p_hank)])
    (list_to_map [(101%nat, p_alice); (102%nat, p_bob);
                  (103%nat, p_vera); (104%nat, p_hank)])
    1 0 0 0.

Definition heap0 : gmap ClientPtr ReflectorClient :=
  list_to_map [(p_alice, alice); (p_bob, bob); (p_vera, vera); (p_hank, hank)].

(** Alice and Bob are on talkgroup 42, Vera on talkgroup 1. *)
Definition members0 : gmap ClientPtr Z :=
  list_to_map [(p_alice, 42); (p_bob, 42); (p_vera, 1)].

(** Nobody talks. *)
Definition tg_idle : TG := mkTG members0 ∅ ∅ 0.
(** Alice is the talker of talkgroup 42. *)
Definition tg_alice_talks : TG := mkTG members0 {[ 42 := (p_alice, 0) ]} ∅ 0.

Definition w_idle : World TG := mkWorld refl0 tg_idle heap0 [].
Definition w_alice_talks : World TG := mkWorld refl0 tg_alice_talks heap0 [].

(** Datagrams in the layout of [SpecModel.codec]. *)
Definition header_bytes (tag seq id : Z) : list Z :=
  [tag; 0; seq mod 256; seq / 256; id; 0; 0; 0].
Definition audio_datagram (seq id : Z) : list Z :=
  header_bytes 101 seq id ++ [3; 0; 7; 8; 9].
Definition flush_datagram (seq id : Z) : list Z := header_bytes 102 seq id.
Definition heartbeat_datagram (seq id : Z) : list Z := header_bytes 1 seq id.

(** The random QSY range 100, 101, 102 with talkgroups 100 and 102
    occupied. *)
Definition refl_qsy : Reflector :=
  initialize_random_qsy (Some (100, 3)) refl0.
Definition tg_qsy : TG :=
  mkTG (list_to_map [(p_alice, 100); (p_bob, 102); (p_vera, 1)]) ∅ ∅ 0.
Definition w_qsy : World TG := mkWorld refl_qsy tg_qsy heap0 [].

(** A squelch over integer signal levels with thresholds 10 and 5; the
    base class state is the list of [setOpen] calls and resets, newest
    first. *)
Definition squelch_reset_log (b : list (option bool)) : list (option bool) :=
  None :: b.
Definition squelch_setOpen_log (o : bool) (b : list (option bool))
    : list (option bool) :=
  Some o :: b.
Definition squelch_closed : SquelchSigLev.t (list (option bool)) :=
  SquelchSigLev.create [] 10 5.
Definition squelch_step (sq : SquelchSigLev.t (list (option bool)))
    (lastSiglev : Z) : SquelchSigLev.t (list (option bool)) * Z :=
  SquelchSigLev.processSamples squelch_setOpen_log Z.geb Z.ltb sq lastSiglev
    ([] : list Z) 160.

End Examples.

(* ===================================================================== *)
(** ** A reading of the audio rule that the code does not follow *)

(** The audio rule in the wording of the design document (section 4.E,
    step 7): for a validated audio datagram from an unblocked client
    with a talkgroup and non-empty audio, [setTalkerForTG(tg, client)]
    is called, and the audio is broadcast with
    and(TgFilter(tg), ExceptFilter(client)) exactly when the client is
    the talker afterwards.  The talkgroup handler and the codec are
    those of [SpecModel]. *)
Definition audio_rule_as_stated : Prop :=
  ∀ (w w' : World SpecModel.TG) addr port buf client c header ss evs audioData,
    @validated SpecModel.TG SpecModel.codec w addr port buf client c header ss →
    hdr_type header = TYPE_MsgUdpAudio →
    @udpDatagramReceived SpecModel.TG SpecModel.handler SpecModel.codec
      w addr port buf = Some (w', evs) →
    SpecModel.unpack_audio ss = Some audioData →
    let tg := SpecModel.TGForClient (tg_handler w) client in
    (isBlocked c = true ∨ tg = 0 ∨ audioData = [] →
       ∀ to d, SendUdpMsg to (MsgUdpAudio d) ∉ evs) ∧
    (isBlocked c = false → tg ≠ 0 → audioData ≠ [] →
       CallSetTalkerForTG tg (Some client) ∈ evs ∧
       ∀ to d, SendUdpMsg to (MsgUdpAudio d) ∈ evs ↔
         SpecModel.talkerForTG (tg_handler w') tg = Some client ∧
         d = audioData ∧
         receives w' (mkAndFilter (TgFilter tg) (ExceptFilter client)) to).

(* ===================================================================== *)
(** ** More of [Reflector.cpp] *)

(** The line [clientConnected] writes to [cout]. *)
Inductive ConnectionLog :=
| LogClientConnected (con : ConPtr).

#[global] Instance Task_eq_dec : EqDecision Task.
Proof. solve_decision. Defined.

(** What the event loop can hand to the reflector: a new control
    connection, the end of one, a datagram, a QSY request that a client
    session passes on, and an idle iteration in which the queued tasks
    run. *)
Inductive LoopEvent :=
| OnClientConnected (con : ConPtr) (rc_ptr : ClientPtr) (rc : ReflectorClient)
| OnClientDisconnected (con : ConPtr)
| OnUdpDatagram (addr : IpAddress) (port : Z) (buf : list Z)
| OnRequestQsy (client : ClientPtr) (tg : Z)
| OnIdle.

(** What a datagram leaves alone in the object of a client: everything
    but the next expected sequence number, and the UDP port as long as
    none has been learned. *)
Definition session_kept (c c' : ReflectorClient) : Prop :=
  clientId c' = clientId c ∧ remoteHost c' = remoteHost c ∧
  conState c' = conState c ∧ callsign c' = callsign c ∧
  protoVer c' = protoVer c ∧ monitoredTGs c' = monitoredTGs c ∧
  isBlocked c' = isBlocked c ∧
  (remoteUdpPort c ≠ 0 → remoteUdpPort c' = remoteUdpPort c).

Section MoreReflectorCode.
Context {T : Type} `{!TGHandler T} `{!UdpCodec}.

(* --------------------------------------------------------------------- *)
(** *** [Reflector::clientConnected] *)

(** The constructor of [ReflectorClient] is not part of the sources:
    [rc] is the object that [new ReflectorClient(this, con, m_cfg)]
    builds and [rc_ptr] the address at which it is allocated.  The two
    assignments through [operator[]] replace an entry that is there. *)
Definition clientConnected (w : World T) (con : ConPtr) (rc_ptr : ClientPtr)
    (rc : ReflectorClient) : World T * list ConnectionLog :=
  let w1 := store_client rc_ptr rc w in
  let r := reflector w1 in
  (set_reflector
     (set_client_maps (<[clientId rc := rc_ptr]> (m_client_map r))
                      (<[con := rc_ptr]> (m_client_con_map r)) r) w1,
   [LogClientConnected con]).

(* --------------------------------------------------------------------- *)
(** *** [Reflector::nodeList] *)

(** The loop: [nodes] is cleared first and receives the callsign of
    every registered client that has one, in the order of the map. *)
Fixpoint nodeList_loop (w : World T) (entries : list (Z * ClientPtr))
    : option (list string) :=
  match entries with
  | [] => Some []
  | (_, client) :: rest =>
      c ← heap w !! client;
      nodes ← nodeList_loop w rest;
      Some (if bool_decide (callsign c ≠ "")
            then callsign c :: nodes
            else nodes)
  end.

Definition nodeList (w : World T) : option (list string) :=
  nodeList_loop w (client_map_entries (m_client_map (reflector w))).

(* --------------------------------------------------------------------- *)
(** *** [Reflector::sendUdpDatagram] *)

(** The result is the destination and the bytes handed to
    [m_udp_sock->write]; what the socket answers is not modelled. *)
Definition sendUdpDatagram (w : World T) (client : ClientPtr) (buf : list Z)
    : option (IpAddress * Z * list Z) :=
  c ← heap w !! client;
  Some (remoteHost c, remoteUdpPort c, buf).

(* --------------------------------------------------------------------- *)
(** *** Queued tasks, with the check that [delete] needs *)

(** [delete client] on an address that is not allocated, as in a second
    [delete] of the same object, is undefined behaviour: [None]. *)
Definition run_task_checked (t : Task) (w : World T) : option (World T) :=
  match t with
  | delete_client client => _ ← heap w !! client; Some (run_task t w)
  end.

Fixpoint run_tasks_checked (ts : list Task) (w : World T)
    : option (World T) :=
  match ts with
  | [] => Some w
  | t :: rest => w' ← run_task_checked t w; run_tasks_checked rest w'
  end.

Definition run_pending_tasks_checked (w : World T) : option (World T) :=
  run_tasks_checked (tasks w) (set_tasks [] w).

(* --------------------------------------------------------------------- *)
(** *** One turn of the event loop *)

Definition loop_step (w : World T) (ev : LoopEvent) : option (World T) :=
  match ev with
  | OnClientConnected con rc_ptr rc => Some (clientConnected w con rc_ptr rc).1
  | OnClientDisconnected con => fst <$> clientDisconnected w con
  | OnUdpDatagram addr port buf => fst <$> udpDatagramReceived w addr port buf
  | OnRequestQsy client tg => fst <$> requestQsy w client tg
  | OnIdle => run_pending_tasks_checked w
  end.

Fixpoint loop_run (w : World T) (evs : list LoopEvent) : option (World T) :=
  match evs with
  | [] => Some w
  | ev :: rest => w' ← loop_step w ev; loop_run w' rest
  end.

(* --------------------------------------------------------------------- *)
(** *** The registry invariant *)

(** The state that the handlers rely on when they read through the
    pointers of the two maps and of the queued tasks:
    - a client registered under an id is an allocated object with that
      id;
    - a client registered under a connection is also registered under
      its id;
    - no two connections share a client;
    - a client queued for deletion is allocated and registered nowhere;
    - no client is queued for deletion twice. *)
Definition registry_wf (w : World T) : Prop :=
  map_Forall (λ (id : Z) (p : ClientPtr),
                clientId <$> heap w !! p = Some id)
    (m_client_map (reflector w)) ∧
  map_Forall (λ (_ : ConPtr) (p : ClientPtr),
                heap w !! p ≫= (λ c, m_client_map (reflector w) !! clientId c)
                = Some p)
    (m_client_con_map (reflector w)) ∧
  NoDup (map_to_list (m_client_con_map (reflector w))).*2 ∧
  Forall (λ t, match t with
               | delete_client p =>
                   is_Some (heap w !! p) ∧
                   map_Forall (λ (_ : Z) (q : ClientPtr), q ≠ p)
                     (m_client_map (reflector w)) ∧
                   map_Forall (λ (_ : ConPtr) (q : ClientPtr), q ≠ p)
                     (m_client_con_map (reflector w))
               end) (tasks w) ∧
  NoDup (tasks w).

#[global] Instance registry_wf_dec (w : World T) : Decision (registry_wf w).
Proof.
  unfold registry_wf.
  assert (∀ t : Task, Decision
    match t with
    | delete_client p =>
        is_Some (heap w !! p) ∧
        map_Forall (λ (_ : Z) (q : ClientPtr), q ≠ p)
          (m_client_map (reflector w)) ∧
        map_Forall (λ (_ : ConPtr) (q : ClientPtr), q ≠ p)
          (m_client_con_map (reflector w))
    end) by (intros [p]; apply _).
  apply _.
Defined.

(** What the environment guarantees for an event: [new] returns an
    address that is not in use, a new client has an id and a connection
    that are not registered, a disconnect signal names a registered
    connection, and a QSY request comes from a registered client. *)
Definition loop_event_ok (w : World T) (ev : LoopEvent) : Prop :=
  match ev with
  | OnClientConnected con rc_ptr rc =>
      heap w !! rc_ptr = None ∧
      m_client_map (reflector w) !! clientId rc = None ∧
      m_client_con_map (reflector w) !! con = None
  | OnClientDisconnected con =>
      is_Some (m_client_con_map (reflector w) !! con)
  | OnRequestQsy client _ =>
      ∃ id, m_client_map (reflector w) !! id = Some client
  | OnUdpDatagram _ _ _ | OnIdle => True
  end.

Fixpoint loop_events_ok (w : World T) (evs : list LoopEvent) : Prop :=
  match evs with
  | [] => True
  | ev :: rest =>
      loop_event_ok w ev ∧
      match loop_step w ev with
      | Some w' => loop_events_ok w' rest
      | None => True
      end
  end.

#[global] Instance loop_event_ok_dec (w : World T) (ev : LoopEvent)
  : Decision (loop_event_ok w ev).
Proof.
  destruct ev as [con rc_ptr rc | con | addr port buf | client tg |]; simpl;
    try apply _.
  refine (cast_if
            (decide (client ∈ (map_to_list (m_client_map (reflector w))).*2))).
  - apply list_elem_of_fmap in e as ([id p] & -> & Hin).
    exists id. by apply elem_of_map_to_list.
  - intros [id Hid]. apply n, list_elem_of_fmap. exists (id, client).
    split; [done|]. by apply elem_of_map_to_list.
Defined.

#[global] Instance loop_events_ok_dec (evs : list LoopEvent) (w : World T)
  : Decision (loop_events_ok w evs).
Proof.
  revert w. induction evs as [|ev evs IH]; intros w; simpl; [apply _|].
  destruct (loop_step w ev); apply _.
Defined.

(** The contract of the talkgroup handler that keeps the slots of
    [talkerUpdated] away from freed clients: the signals of
    [setTalkerForTG(tg, c)] name no client but [c] and the talker of
    [tg], those of [removeClient(c)] name no client but [c]. *)
Definition handler_signals_ok : Prop :=
  (∀ (h h' : T) tg c sigs,
     setTalkerForTG h tg c = (h', sigs) →
     Forall (λ hs : T * TalkerUpdated,
               (tu_old hs.2 = None ∨ tu_old hs.2 = talkerForTG h tg) ∧
               (tu_new hs.2 = None ∨ tu_new hs.2 = c)) sigs) ∧
  (∀ (h h' : T) c sigs,
     removeClient h c = (h', sigs) →
     Forall (λ hs : T * TalkerUpdated,
               (tu_old hs.2 = None ∨ tu_old hs.2 = Some c) ∧
               tu_new hs.2 = None) sigs).

(** The clients a broadcast with [filter] reaches, in the order of the
    loop, each with the id it is registered under. *)
Definition broadcast_recipients (w : World T) (filter : ClientFilter)
    : list (Z * ClientPtr) :=
  List.filter
    (λ e : Z * ClientPtr,
       match heap w !! e.2 with
       | Some c => filter_holds (tg_handler w) filter e.2 c &&
                   bool_decide (conState c = STATE_CONNECTED)
       | None => false
       end)
    (client_map_entries (m_client_map (reflector w))).

End MoreReflectorCode.

(* ===================================================================== *)
(** ** More of [SquelchSigLev.h] *)

Module SquelchSigLevMore.

(** What [initialize] writes to [cerr]. *)
Inductive InitLog :=
| LogOpenThreshNotSet
| LogCloseThreshNotSet.

(** A call of one of the two member functions that change the state. *)
Inductive Call (SigLev : Type) :=
| CallProcessSamples (lastSiglev : SigLev) (count : Z)
| CallReset.
Arguments CallProcessSamples {SigLev}.
Arguments CallReset {SigLev}.

(** The calls that reach the base class, newest first: [Some o] for
    [setOpen(o)], [None] for [Squelch::reset()]. *)
Definition BaseLog := list (option bool).

(** A log in which, after construction and after every reset, the
    [setOpen] calls alternate and begin with [setOpen(true)]; the second
    argument is the state the base class was told last. *)
Inductive alternating : BaseLog → bool → Prop :=
| alternating_nil : alternating [] false
| alternating_reset log o : alternating log o → alternating (None :: log) false
| alternating_open log : alternating log false → alternating (Some true :: log) true
| alternating_close log : alternating log true → alternating (Some false :: log) false.

Section Code.
Context {Squelch SigLev Config : Type}.
(** [Squelch::initialize(cfg, rx_name)]: the base class after the call
    and the result. *)
Variable Squelch_initialize : Squelch → Config → string → Squelch * bool.
(** [cfg.getValue(section, tag, value)]: the value of the variable, if
    it is set. *)
Variable getValue : Config → string → string → option string.
(** [atoi] of the C library. *)
Variable atoi : string → Z.
Variable Squelch_reset : Squelch → Squelch.
Variable setOpen : bool → Squelch → Squelch.
Variable siglev_ge : SigLev → Z → bool.
Variable siglev_lt : SigLev → Z → bool.

(** [SquelchSigLev::initialize]: the object after the call, the result
    and the lines written to [cerr]. *)
Definition initialize (sq : SquelchSigLev.t Squelch) (cfg : Config)
    (rx_name : string) : SquelchSigLev.t Squelch * bool * list InitLog :=
  let '(b, ok) := Squelch_initialize (SquelchSigLev.base sq) cfg rx_name in
  let sq0 := SquelchSigLev.mk b (SquelchSigLev.open_thresh sq)
               (SquelchSigLev.close_thresh sq) (SquelchSigLev.is_open sq) in
  if negb ok then (sq0, false, [])
  else
    match getValue cfg rx_name "SIGLEV_OPEN_THRESH" with
    | None => (sq0, false, [LogOpenThreshNotSet])
    | Some value =>
        let sq1 := SquelchSigLev.mk b (atoi value)
                     (SquelchSigLev.close_thresh sq)
                     (SquelchSigLev.is_open sq) in
        match getValue cfg rx_name "SIGLEV_CLOSE_THRESH" with
        | None => (sq1, false, [LogCloseThreshNotSet])
        | Some value' =>
            (SquelchSigLev.mk b (atoi value) (atoi value')
               (SquelchSigLev.is_open sq), true, [])
        end
    end.

(** A sequence of calls on one object, oldest first. *)
Definition call (sq : SquelchSigLev.t Squelch) (c : Call SigLev)
    : SquelchSigLev.t Squelch :=
  match c with
  | CallProcessSamples lastSiglev count =>
      (SquelchSigLev.processSamples setOpen siglev_ge siglev_lt sq lastSiglev
         ([] : list Z) count).1
  | CallReset => SquelchSigLev.reset Squelch_reset sq
  end.

Definition calls (sq : SquelchSigLev.t Squelch) (cs : list (Call SigLev))
    : SquelchSigLev.t Squelch :=
  fold_left call cs sq.

End Code.
End SquelchSigLevMore.

(* ===================================================================== *)
(** ** More example states *)

Module MoreExamples.
Import SpecModel Examples.

(** A node that connects: its session has not learned a UDP port and has
    no callsign yet. *)
Definition carol : ReflectorClient :=
  mkReflectorClient 14 1005 0 0 STATE_CONNECTING "" pv2 ∅ false.
Definition p_carol : ClientPtr := 5%nat.

(** A node that speaks a protocol version outside both ranges. *)
Definition zoe : ReflectorClient :=
  mkReflectorClient 15 1006 5306 0 STATE_CONNECTED "Z" (mkProtoVer 3 0) ∅ false.
Definition p_zoe : ClientPtr := 6%nat.
Definition w_zoe : World TG :=
  mkWorld
    (mkReflector (<[15 := p_zoe]> (m_client_map refl0))
                 (<[106%nat := p_zoe]> (m_client_con_map refl0)) 1 0 0 0)
    (mkTG (<[p_zoe := 42]> members0) ∅ ∅ 0)
    (<[p_zoe := zoe]> heap0) [].

(** The configuration of a receiver, as the variables of its section. *)
Definition cfg_rx : gmap (string * string) string :=
  {[ ("Rx1", "SIGLEV_OPEN_THRESH") := "10";
     ("Rx1", "SIGLEV_CLOSE_THRESH") := "5";
     ("Rx2", "SIGLEV_OPEN_THRESH") := "20" ]}.
(** A squelch as the constructor leaves it, before [initialize]. *)
Definition squelch_new : SquelchSigLev.t SquelchSigLevMore.BaseLog :=
  SquelchSigLev.create [] 0 0.
Definition cfg_getValue (cfg : gmap (string * string) string)
    (section tag : string) : option string :=
  cfg !! (section, tag).
(** The digits of a non-negative decimal number, which is all the
    examples use of [atoi]. *)
Definition digits_value (s : string) : Z :=
  fold_left (λ acc a, 10 * acc + (Z.of_nat (Ascii.nat_of_ascii a) - 48))
    (String.list_ascii_of_string s) 0.
Definition base_initialize_ok (b : SquelchSigLevMore.BaseLog)
    (cfg : gmap (string * string) string) (rx_name : string)
    : SquelchSigLevMore.BaseLog * bool :=
  (b, true).

(** Alice has disconnected: her object is queued for deletion. *)
Definition w_alice_left : World TG :=
  match clientDisconnected w_idle 101%nat with
  | Some (w, _) => w
  | None => w_idle
  end.

(** A morning at the reflector: Carol connects and sends her first
    heartbeat, Bob asks his talkgroup to move to talkgroup 99, Alice
    disconnects, the event loop runs idle, Carol disconnects, and the
    loop runs idle again. *)
Definition morning : list LoopEvent :=
  [OnClientConnected 105%nat p_carol carol;
   OnUdpDatagram 1005 7000 (heartbeat_datagram 0 14);
   OnRequestQsy p_bob 99;
   OnClientDisconnected 101%nat;
   OnIdle;
   OnClientDisconnected 105%nat;
   OnIdle].

(** The allocator of [w_qsy] after one request. *)
Definition w_qsy_next : World TG :=
  match requestQsy w_qsy p_alice 0 with
  | Some (w, _) => w
  | None => w_qsy
  end.

(** A squelch whose closing threshold is above the opening one. *)
Definition squelch_inverted : SquelchSigLev.t SquelchSigLevMore.BaseLog :=
  SquelchSigLev.create [] 5 10.

(** The squelch over a base class that records its calls. *)
Definition logged_call {SigLev} (siglev_ge siglev_lt : SigLev → Z → bool)
    (sq : SquelchSigLev.t SquelchSigLevMore.BaseLog)
    (c : SquelchSigLevMore.Call SigLev)
    : SquelchSigLev.t SquelchSigLevMore.BaseLog :=
  SquelchSigLevMore.call squelch_reset_log squelch_setOpen_log
    siglev_ge siglev_lt sq c.
Definition logged_calls {SigLev} (siglev_ge siglev_lt : SigLev → Z → bool)
    (sq : SquelchSigLev.t SquelchSigLevMore.BaseLog)
    (cs : list (SquelchSigLevMore.Call SigLev))
    : SquelchSigLev.t SquelchSigLevMore.BaseLog :=
  SquelchSigLevMore.calls squelch_reset_log squelch_setOpen_log
    siglev_ge siglev_lt sq cs.

End MoreExamples.

(* ===================================================================== *)
(** * Properties *)

(** Case analysis on a hypothesis that lists the events of a trace,
    followed by proof search. *)
Ltac break_trace_hyps :=
  repeat match goal with
         | H : _ ∨ _ |- _ => destruct H
         | H : _ ∧ _ |- _ => destruct H
         | H : ∃ _, _ |- _ => destruct H
         end;
  simplify_eq.

Ltac trace_cases :=
  split; intros; break_trace_hyps; try done; eauto 15.

Section ReflectorProperties.
Context {T : Type} `{!TGHandler T} `{!UdpCodec}.
Implicit Types (w : World T) (client to : ClientPtr) (c : ReflectorClient).
Implicit Types (filter : ClientFilter) (evs : list Event).

(* --------------------------------------------------------------------- *)
(** ** The broadcast loop *)

Lemma elem_of_client_map_entries (m : gmap Z ClientPtr) id p :
  (id, p) ∈ client_map_entries m ↔ m !! id = Some p.
Proof.
  unfold client_map_entries.
  rewrite merge_sort_Permutation. apply elem_of_map_to_list.
Qed.

Lemma broadcast_loop_elem w filter send entries evs e :
  broadcast_loop w filter send entries = Some evs →
  e ∈ evs ↔
  ∃ id p c, (id, p) ∈ entries ∧ e = send p ∧ heap w !! p = Some c ∧
            filter_holds (tg_handler w) filter p c = true ∧
            conState c = STATE_CONNECTED.
Proof.
  revert evs. induction entries as [|[id p] rest IH]; intros evs Hrun.
  - simpl in Hrun. injection Hrun as <-. split.
    + intros Hin. by apply elem_of_nil in Hin.
    + intros (? & ? & ? & Hin & _). by apply elem_of_nil in Hin.
  - simpl in Hrun.
    destruct (heap w !! p) as [c|] eqn:Hp; [|done]. simpl in Hrun.
    destruct (broadcast_loop w filter send rest) as [evs'|] eqn:Hrest; [|done].
    simpl in Hrun. injection Hrun as <-.
    specialize (IH evs' eq_refl).
    destruct (filter_holds (tg_handler w) filter p c) eqn:Hf; simpl.
    + destruct (bool_decide (conState c = STATE_CONNECTED)) eqn:Hc.
      * apply bool_decide_eq_true in Hc. rewrite elem_of_cons, IH. split.
        -- intros [-> | (id' & p' & c' & Hin & Hrestc)].
           ++ exists id, p, c. rewrite elem_of_cons. eauto 10.
           ++ exists id', p', c'. rewrite elem_of_cons. eauto 10.
        -- intros (id' & p' & c' & Hin & -> & Hrestc).
           apply elem_of_cons in Hin as [[= -> ->] | Hin]; [by left|].
           right. eauto 10.
      * apply bool_decide_eq_false in Hc. rewrite IH. split.
        -- intros (id' & p' & c' & Hin & Hrestc).
           exists id', p', c'. rewrite elem_of_cons. eauto 10.
        -- intros (id' & p' & c' & Hin & -> & Hp' & Hf' & Hc').
           apply elem_of_cons in Hin as [[= -> ->] | Hin].
           ++ congruence.
           ++ eauto 10.
    + rewrite IH. split.
      * intros (id' & p' & c' & Hin & Hrestc).
        exists id', p', c'. rewrite elem_of_cons. eauto 10.
      * intros (id' & p' & c' & Hin & -> & Hp' & Hf' & Hc').
        apply elem_of_cons in Hin as [[= -> ->] | Hin].
        -- congruence.
        -- eauto 10.
Qed.

Lemma broadcast_loop_total w filter send entries :
  Forall (λ e : Z * ClientPtr, is_Some (heap w !! e.2)) entries →
  is_Some (broadcast_loop w filter send entries).
Proof.
  induction 1 as [|[id p] rest [c Hp] _ [evs IH]]; simpl; [by eexists|].
  simpl in Hp. rewrite Hp, IH. simpl. by eexists.
Qed.

Lemma clients_live_entries w :
  clients_live w →
  Forall (λ e : Z * ClientPtr, is_Some (heap w !! e.2))
    (client_map_entries (m_client_map (reflector w))).
Proof.
  intros Hlive. apply Forall_forall. intros [id p] Hin.
  apply elem_of_client_map_entries in Hin. by apply (Hlive id p).
Qed.

Lemma broadcastMsg_total w msg filter :
  clients_live w → is_Some (broadcastMsg w msg filter).
Proof. intros. by apply broadcast_loop_total, clients_live_entries. Qed.

Lemma broadcastUdpMsg_total w msg filter :
  clients_live w → is_Some (broadcastUdpMsg w msg filter).
Proof. intros. by apply broadcast_loop_total, clients_live_entries. Qed.

Lemma broadcastMsg_elem w msg filter evs e :
  broadcastMsg w msg filter = Some evs →
  e ∈ evs ↔ ∃ to, e = SendMsg to msg ∧ receives w filter to.
Proof.
  intros Hrun. unfold broadcastMsg in Hrun.
  rewrite (broadcast_loop_elem _ _ _ _ _ e Hrun). unfold receives. split.
  - intros (id & p & c & Hin & -> & Hrest).
    apply elem_of_client_map_entries in Hin. eauto 10.
  - intros (to & -> & id & c & Hin & Hrest).
    apply elem_of_client_map_entries in Hin. eauto 10.
Qed.

Lemma broadcastUdpMsg_elem w msg filter evs e :
  broadcastUdpMsg w msg filter = Some evs →
  e ∈ evs ↔ ∃ to, e = SendUdpMsg to msg ∧ receives w filter to.
Proof.
  intros Hrun. unfold broadcastUdpMsg in Hrun.
  rewrite (broadcast_loop_elem _ _ _ _ _ e Hrun). unfold receives. split.
  - intros (id & p & c & Hin & -> & Hrest).
    apply elem_of_client_map_entries in Hin. eauto 10.
  - intros (to & -> & id & c & Hin & Hrest).
    apply elem_of_client_map_entries in Hin. eauto 10.
Qed.

(** C6: a broadcast, on either channel and with any filter, hands the
    message only to clients whose connection state is [STATE_CONNECTED];
    a client in an earlier state receives neither the control message
    nor the datagram. *)
Theorem broadcast_reaches_only_connected w filter msg umsg :
  clients_live w →
  ∃ evs uevs,
    broadcastMsg w msg filter = Some evs ∧
    broadcastUdpMsg w umsg filter = Some uevs ∧
    (∀ e, e ∈ evs →
       ∃ to c, e = SendMsg to msg ∧ heap w !! to = Some c ∧
               conState c = STATE_CONNECTED) ∧
    (∀ e, e ∈ uevs →
       ∃ to c, e = SendUdpMsg to umsg ∧ heap w !! to = Some c ∧
               conState c = STATE_CONNECTED) ∧
    (∀ to c m um, heap w !! to = Some c → conState c ≠ STATE_CONNECTED →
       (SendMsg to m ∉ evs) ∧ (SendUdpMsg to um ∉ uevs)).
Proof.
  intros Hlive.
  destruct (broadcastMsg_total w msg filter Hlive) as [evs Hevs].
  destruct (broadcastUdpMsg_total w umsg filter Hlive) as [uevs Huevs].
  exists evs, uevs. split_and!; [done | done | | | ].
  - intros e He. apply (broadcastMsg_elem _ _ _ _ _ Hevs) in He
      as (to & -> & id & c & _ & Hc & _ & Hcon). eauto.
  - intros e He. apply (broadcastUdpMsg_elem _ _ _ _ _ Huevs) in He
      as (to & -> & id & c & _ & Hc & _ & Hcon). eauto.
  - intros to c m um Hc Hcon. split; intros He.
    + apply (broadcastMsg_elem _ _ _ _ _ Hevs) in He
        as (to' & [= <- _] & id & c' & _ & Hc' & _ & Hcon'). congruence.
    + apply (broadcastUdpMsg_elem _ _ _ _ _ Huevs) in He
        as (to' & [= <- _] & id & c' & _ & Hc' & _ & Hcon'). congruence.
Qed.

(* --------------------------------------------------------------------- *)
(** ** The talker callback *)

Lemma talker_stop_total w tg old :
  clients_live w → is_Some (heap w !! old) → is_Some (talker_stop w tg old).
Proof.
  intros Hlive [oc Hold]. unfold talker_stop. rewrite Hold. simpl.
  destruct (broadcastMsg_total w (MsgTalkerStop tg (callsign oc))
              (talker_filter tg) Hlive) as [e1 ->]. simpl.
  destruct (broadcastMsg_total w (MsgTalkerStopV1 (callsign oc))
              v1_client_filter Hlive) as [e2 He2].
  destruct (broadcastUdpMsg_total w MsgUdpFlushSamples
              (mkAndFilter (TgFilter tg) (ExceptFilter old)) Hlive) as [e3 He3].
  case_bool_decide; [rewrite He2|]; simpl; rewrite He3; simpl; by eexists.
Qed.

Lemma talker_start_total w tg new :
  clients_live w → is_Some (heap w !! new) → is_Some (talker_start w tg new).
Proof.
  intros Hlive [nc Hnew]. unfold talker_start. rewrite Hnew. simpl.
  destruct (broadcastMsg_total w (MsgTalkerStart tg (callsign nc))
              (talker_filter tg) Hlive) as [e1 ->]. simpl.
  destruct (broadcastMsg_total w (MsgTalkerStartV1 (callsign nc))
              v1_client_filter Hlive) as [e2 He2].
  case_bool_decide; [rewrite He2|]; simpl; by eexists.
Qed.

Lemma onTalkerUpdated_total w tg old_talker new_talker :
  clients_live w → talker_live w old_talker → talker_live w new_talker →
  is_Some (onTalkerUpdated w tg old_talker new_talker).
Proof.
  intros Hlive Hold Hnew. unfold onTalkerUpdated.
  destruct old_talker as [old|]; simpl in *.
  - destruct (talker_stop_total w tg old Hlive Hold) as [stop ->]. simpl.
    destruct new_talker as [new|]; simpl in *; [|by eexists].
    destruct (talker_start_total w tg new Hlive Hnew) as [start ->].
    simpl. by eexists.
  - destruct new_talker as [new|]; simpl in *; [|by eexists].
    destruct (talker_start_total w tg new Hlive Hnew) as [start ->].
    simpl. by eexists.
Qed.

(** What the stop block sends. *)
Lemma talker_stop_elem w tg old evs e :
  talker_stop w tg old = Some evs →
  e ∈ evs ↔
  ∃ oc, heap w !! old = Some oc ∧
    (e = Log (LogTalkerStop tg (callsign oc)) ∨
     (∃ to, e = SendMsg to (MsgTalkerStop tg (callsign oc)) ∧
            receives w (talker_filter tg) to) ∨
     (∃ to, e = SendMsg to (MsgTalkerStopV1 (callsign oc)) ∧
            tg = tgForV1Clients w ∧ receives w v1_client_filter to) ∨
     (∃ to, e = SendUdpMsg to MsgUdpFlushSamples ∧
            receives w (mkAndFilter (TgFilter tg) (ExceptFilter old)) to)).
Proof.
  unfold talker_stop. intros Hrun.
  destruct (heap w !! old) as [oc|] eqn:Hold; [|done]. simpl in Hrun.
  destruct (broadcastMsg w (MsgTalkerStop tg (callsign oc)) (talker_filter tg))
    as [e1|] eqn:H1; [|done]. simpl in Hrun.
  pose proof (λ e, broadcastMsg_elem _ _ _ _ e H1) as I1.
  destruct (bool_decide (tg = tgForV1Clients w)) eqn:Hv1.
  - apply bool_decide_eq_true in Hv1.
    destruct (broadcastMsg w (MsgTalkerStopV1 (callsign oc)) v1_client_filter)
      as [e2|] eqn:H2; [|done]. simpl in Hrun.
    pose proof (λ e, broadcastMsg_elem _ _ _ _ e H2) as I2.
    destruct (broadcastUdpMsg w MsgUdpFlushSamples _) as [e3|] eqn:H3; [|done].
    pose proof (λ e, broadcastUdpMsg_elem _ _ _ _ e H3) as I3.
    simpl in Hrun. injection Hrun as <-.
    rewrite elem_of_cons, !elem_of_app, I1, I2, I3. naive_solver.
  - apply bool_decide_eq_false in Hv1. simpl in Hrun.
    destruct (broadcastUdpMsg w MsgUdpFlushSamples _) as [e3|] eqn:H3; [|done].
    pose proof (λ e, broadcastUdpMsg_elem _ _ _ _ e H3) as I3.
    simpl in Hrun. injection Hrun as <-.
    rewrite elem_of_cons, !elem_of_app, I1, I3, ?elem_of_nil. naive_solver.
Qed.

(** What the start block sends. *)
Lemma talker_start_elem w tg new evs e :
  talker_start w tg new = Some evs →
  e ∈ evs ↔
  ∃ nc, heap w !! new = Some nc ∧
    (e = Log (LogTalkerStart tg (callsign nc)) ∨
     (∃ to, e = SendMsg to (MsgTalkerStart tg (callsign nc)) ∧
            receives w (talker_filter tg) to) ∨
     (∃ to, e = SendMsg to (MsgTalkerStartV1 (callsign nc)) ∧
            tg = tgForV1Clients w ∧ receives w v1_client_filter to)).
Proof.
  unfold talker_start. intros Hrun.
  destruct (heap w !! new) as [nc|] eqn:Hnew; [|done]. simpl in Hrun.
  destruct (broadcastMsg w (MsgTalkerStart tg (callsign nc)) (talker_filter tg))
    as [e1|] eqn:H1; [|done]. simpl in Hrun.
  pose proof (λ e, broadcastMsg_elem _ _ _ _ e H1) as I1.
  destruct (bool_decide (tg = tgForV1Clients w)) eqn:Hv1.
  - apply bool_decide_eq_true in Hv1.
    destruct (broadcastMsg w (MsgTalkerStartV1 (callsign nc)) v1_client_filter)
      as [e2|] eqn:H2; [|done]. simpl in Hrun.
    pose proof (λ e, broadcastMsg_elem _ _ _ _ e H2) as I2.
    injection Hrun as <-.
    rewrite elem_of_cons, !elem_of_app, I1, I2. naive_solver.
  - apply bool_decide_eq_false in Hv1. simpl in Hrun. injection Hrun as <-.
    rewrite elem_of_cons, !elem_of_app, I1, ?elem_of_nil. naive_solver.
Qed.

Lemma onTalkerUpdated_elem w tg old_talker new_talker evs e :
  onTalkerUpdated w tg old_talker new_talker = Some evs →
  e ∈ evs ↔
  (∃ old stop, old_talker = Some old ∧ talker_stop w tg old = Some stop ∧
               e ∈ stop) ∨
  (∃ new start, new_talker = Some new ∧ talker_start w tg new = Some start ∧
                e ∈ start).
Proof.
  unfold onTalkerUpdated. intros Hrun.
  destruct old_talker as [old|], new_talker as [new|]; simpl in Hrun.
  - destruct (talker_stop w tg old) as [stop|] eqn:Hs; [|done].
    simpl in Hrun.
    destruct (talker_start w tg new) as [start|] eqn:Ht; [|done].
    simpl in Hrun. injection Hrun as <-. rewrite elem_of_app. split.
    + intros [He | He]; [left | right]; eauto 10.
    + intros [(? & ? & [= <-] & Hs' & He) | (? & ? & [= <-] & Ht' & He)].
      * left. congruence.
      * right. congruence.
  - destruct (talker_stop w tg old) as [stop|] eqn:Hs; [|done].
    simpl in Hrun. injection Hrun as <-.
    rewrite elem_of_app, elem_of_nil. split.
    + intros [He | []]. left. eauto 10.
    + intros [(? & ? & [= <-] & Hs' & He) | (? & ? & [=] & _)].
      left. congruence.
  - destruct (talker_start w tg new) as [start|] eqn:Ht; [|done].
    simpl in Hrun. injection Hrun as <-. split.
    + intros He. right. eauto 10.
    + intros [(? & ? & [=] & _) | (? & ? & [= <-] & Ht' & He)]. congruence.
  - injection Hrun as <-. rewrite elem_of_nil. split; [done|].
    intros [(? & ? & [=] & _) | (? & ? & [=] & _)].
Qed.

Lemma v1_v2_disjoint (h : T) to c :
  filter_holds h v2_client_filter to c = true →
  filter_holds h v1_client_filter to c = false.
Proof.
  unfold v1_client_filter, v2_client_filter. cbn [filter_holds].
  unfold ProtoVer_leb. cbn [majorVer minorVer].
  destruct (Z.ltb_spec 2 (majorVer (protoVer c)));
    destruct (Z.eqb_spec 2 (majorVer (protoVer c)));
    destruct (Z.ltb_spec (majorVer (protoVer c)) 1);
    destruct (Z.eqb_spec (majorVer (protoVer c)) 1);
    cbn [andb orb]; intros; try done; try lia;
    by rewrite ?andb_false_r.
Qed.

Lemma receives_talker_filter_v2 w tg to :
  receives w (talker_filter tg) to →
  ∃ c, heap w !! to = Some c ∧
       filter_holds (tg_handler w) v1_client_filter to c = false.
Proof.
  intros (id & c & _ & Hc & Hf & _). exists c. split; [done|].
  unfold talker_filter in Hf. cbn [filter_holds] in Hf.
  apply andb_true_iff in Hf as [Hv2 _]. by apply (v1_v2_disjoint _ to c).
Qed.

(** C3: when [talkerUpdated(tg, old, new)] fires, the reflector sends
    [MsgTalkerStop(tg, old.callsign)] exactly to the connected clients
    accepted by and(v2, or(TgFilter(tg), TgMonitorFilter(tg))) when
    [old] is set, [MsgTalkerStopV1(old.callsign)] exactly to the
    connected v1 clients when moreover [tg] is the talkgroup configured
    for v1 clients, and the datagram [MsgUdpFlushSamples] exactly to the
    connected clients accepted by and(TgFilter(tg), ExceptFilter(old));
    when [new] is set it sends [MsgTalkerStart(tg, new.callsign)] and
    [MsgTalkerStartV1(new.callsign)] in the same way; and no
    [MsgTalkerStart] or [MsgTalkerStop] is handed to a v1 client. *)
Theorem talker_update_broadcasts w tg old_talker new_talker :
  clients_live w → talker_live w old_talker → talker_live w new_talker →
  ∃ evs, onTalkerUpdated w tg old_talker new_talker = Some evs ∧
    (∀ to g cs, SendMsg to (MsgTalkerStop g cs) ∈ evs ↔
       ∃ old oc, old_talker = Some old ∧ heap w !! old = Some oc ∧
         g = tg ∧ cs = callsign oc ∧
         receives w (mkAndFilter v2_client_filter
                       (mkOrFilter (TgFilter tg) (TgMonitorFilter tg))) to) ∧
    (∀ to cs, SendMsg to (MsgTalkerStopV1 cs) ∈ evs ↔
       ∃ old oc, old_talker = Some old ∧ heap w !! old = Some oc ∧
         cs = callsign oc ∧ tg = m_tg_for_v1_clients (reflector w) ∧
         receives w v1_client_filter to) ∧
    (∀ to m, SendUdpMsg to m ∈ evs ↔
       ∃ old, old_talker = Some old ∧ m = MsgUdpFlushSamples ∧
         receives w (mkAndFilter (TgFilter tg) (ExceptFilter old)) to) ∧
    (∀ to g cs, SendMsg to (MsgTalkerStart g cs) ∈ evs ↔
       ∃ new nc, new_talker = Some new ∧ heap w !! new = Some nc ∧
         g = tg ∧ cs = callsign nc ∧
         receives w (mkAndFilter v2_client_filter
                       (mkOrFilter (TgFilter tg) (TgMonitorFilter tg))) to) ∧
    (∀ to cs, SendMsg to (MsgTalkerStartV1 cs) ∈ evs ↔
       ∃ new nc, new_talker = Some new ∧ heap w !! new = Some nc ∧
         cs = callsign nc ∧ tg = m_tg_for_v1_clients (reflector w) ∧
         receives w v1_client_filter to) ∧
    (∀ to c g cs, heap w !! to = Some c →
       filter_holds (tg_handler w) v1_client_filter to c = true →
       (SendMsg to (MsgTalkerStop g cs) ∉ evs) ∧
       (SendMsg to (MsgTalkerStart g cs) ∉ evs)).
Proof.
  intros Hlive Hold Hnew.
  destruct (onTalkerUpdated_total w tg _ _ Hlive Hold Hnew) as [evs Hevs].
  exists evs. split; [done|].
  pose proof (λ e, onTalkerUpdated_elem _ _ _ _ _ e Hevs) as I.
  assert (Hstop : ∀ e, e ∈ evs ↔
    (∃ old oc, old_talker = Some old ∧ heap w !! old = Some oc ∧
      (e = Log (LogTalkerStop tg (callsign oc)) ∨
       (∃ to, e = SendMsg to (MsgTalkerStop tg (callsign oc)) ∧
              receives w (talker_filter tg) to) ∨
       (∃ to, e = SendMsg to (MsgTalkerStopV1 (callsign oc)) ∧
              tg = tgForV1Clients w ∧ receives w v1_client_filter to) ∨
       (∃ to, e = SendUdpMsg to MsgUdpFlushSamples ∧
              receives w (mkAndFilter (TgFilter tg) (ExceptFilter old)) to))) ∨
    (∃ new nc, new_talker = Some new ∧ heap w !! new = Some nc ∧
      (e = Log (LogTalkerStart tg (callsign nc)) ∨
       (∃ to, e = SendMsg to (MsgTalkerStart tg (callsign nc)) ∧
              receives w (talker_filter tg) to) ∨
       (∃ to, e = SendMsg to (MsgTalkerStartV1 (callsign nc)) ∧
              tg = tgForV1Clients w ∧ receives w v1_client_filter to)))).
  { intros e. rewrite I. split.
    - intros [(old & stop & -> & Hs & He) | (new & start & -> & Hs & He)].
      + left. apply (talker_stop_elem _ _ _ _ _ Hs) in He as (oc & ? & ?).
        eauto 10.
      + right. apply (talker_start_elem _ _ _ _ _ Hs) in He as (nc & ? & ?).
        eauto 10.
    - intros [(old & oc & -> & Hoc & He) | (new & nc & -> & Hnc & He)].
      + left. destruct (talker_stop_total w tg old Hlive Hold) as [stop Hs].
        exists old, stop. split_and!; [done..|].
        apply (talker_stop_elem _ _ _ _ _ Hs). eauto.
      + right. destruct (talker_start_total w tg new Hlive Hnew) as [start Hs].
        exists new, start. split_and!; [done..|].
        apply (talker_start_elem _ _ _ _ _ Hs). eauto. }
  clear I. unfold talker_filter, tgForV1Clients in Hstop.
  split_and!.
  - intros to g cs. rewrite Hstop. clear. trace_cases.
  - intros to cs. rewrite Hstop. clear. trace_cases.
  - intros to m. rewrite Hstop. split.
    + clear. intros. break_trace_hyps; try done; eauto 15.
    + intros (old & -> & -> & Hr). destruct Hold as [oc Hoc].
      left. exists old, oc. eauto 15.
  - intros to g cs. rewrite Hstop. clear. trace_cases.
  - intros to cs. rewrite Hstop. clear. trace_cases.
  - intros to c g cs Hc Hv1.
    split; intros He; apply Hstop in He; clear Hstop;
      break_trace_hyps; try done;
      match goal with
      | Hr : receives _ _ _ |- _ =>
          apply (receives_talker_filter_v2 w tg) in Hr as (c' & Hc' & Hf)
      end; congruence.
Qed.

(* --------------------------------------------------------------------- *)
(** ** Calls into the talkgroup handler *)

Lemma broadcastMsg_sends w msg filter evs :
  broadcastMsg w msg filter = Some evs →
  ∀ e, e ∈ evs → ∃ to, e = SendMsg to msg.
Proof.
  intros Hrun e He. apply (broadcastMsg_elem _ _ _ _ _ Hrun) in He
    as (to & -> & _). eauto.
Qed.

Lemma broadcastUdpMsg_sends w msg filter evs :
  broadcastUdpMsg w msg filter = Some evs →
  ∀ e, e ∈ evs → ∃ to, e = SendUdpMsg to msg.
Proof.
  intros Hrun e He. apply (broadcastUdpMsg_elem _ _ _ _ _ Hrun) in He
    as (to & -> & _). eauto.
Qed.

Lemma onTalkerUpdated_talker_events w tg old_talker new_talker evs :
  onTalkerUpdated w tg old_talker new_talker = Some evs →
  ∀ e, e ∈ evs → is_talker_event e = true.
Proof.
  intros Hrun e He. apply (onTalkerUpdated_elem _ _ _ _ _ _ Hrun) in He.
  destruct He as [(old & stop & _ & Hs & He) | (new & start & _ & Hs & He)].
  - apply (talker_stop_elem _ _ _ _ _ Hs) in He. break_trace_hyps; done.
  - apply (talker_start_elem _ _ _ _ _ Hs) in He. break_trace_hyps; done.
Qed.

Lemma deliver_signals_talker_events w sigs evs :
  deliver_signals w sigs = Some evs →
  ∀ e, e ∈ evs → is_talker_event e = true.
Proof.
  revert evs. induction sigs as [|[h s] rest IH]; simpl; intros evs Hrun e He.
  - injection Hrun as <-. by apply elem_of_nil in He.
  - destruct (onTalkerUpdated (set_tg_handler h w) (tu_tg s) (tu_old s)
                (tu_new s)) as [e1|] eqn:H1; [|done]. simpl in Hrun.
    destruct (deliver_signals w rest) as [es|] eqn:H2; [|done].
    simpl in Hrun. injection Hrun as <-.
    apply elem_of_app in He as [He | He].
    + by apply (onTalkerUpdated_talker_events _ _ _ _ _ H1).
    + by apply (IH es).
Qed.

Lemma call_setTalkerForTG_inv w tg talker w' evs :
  call_setTalkerForTG w tg talker = Some (w', evs) →
  w' = set_tg_handler (setTalkerForTG (tg_handler w) tg talker).1 w ∧
  ∃ slots, evs = CallSetTalkerForTG tg talker :: slots ∧
           ∀ e, e ∈ slots → is_talker_event e = true.
Proof.
  unfold call_setTalkerForTG.
  destruct (setTalkerForTG (tg_handler w) tg talker) as [h' sigs]. simpl.
  destruct (deliver_signals w sigs) as [slots|] eqn:Hs; [|done].
  simpl. intros [= <- <-]. split; [done|]. exists slots. split; [done|].
  by apply (deliver_signals_talker_events _ _ _ Hs).
Qed.

Lemma call_removeClient_inv w client w' evs :
  call_removeClient w client = Some (w', evs) →
  w' = set_tg_handler (removeClient (tg_handler w) client).1 w ∧
  ∃ slots, evs = CallRemoveClient client :: slots ∧
           ∀ e, e ∈ slots → is_talker_event e = true.
Proof.
  unfold call_removeClient.
  destruct (removeClient (tg_handler w) client) as [h' sigs]. simpl.
  destruct (deliver_signals w sigs) as [slots|] eqn:Hs; [|done].
  simpl. intros [= <- <-]. split; [done|]. exists slots. split; [done|].
  by apply (deliver_signals_talker_events _ _ _ Hs).
Qed.

Lemma talker_event_dispatch e : is_talker_event e = true → is_dispatch_event e = true.
Proof. by destruct e as [? []|? []| | | |[]]. Qed.

Lemma call_setTalkerForTG_events w tg talker w' evs :
  call_setTalkerForTG w tg talker = Some (w', evs) →
  (heap w' = heap w ∧ reflector w' = reflector w ∧ tasks w' = tasks w) ∧
  ∀ e, e ∈ evs → is_dispatch_event e = true.
Proof.
  intros Hrun. apply call_setTalkerForTG_inv in Hrun
    as (-> & slots & -> & Hslots).
  split; [done|]. intros e [-> | He]%elem_of_cons; [done|].
  by apply talker_event_dispatch, Hslots.
Qed.

(* --------------------------------------------------------------------- *)
(** ** The path of a datagram through [udpDatagramReceived] *)

(** A datagram that passes the source checks reaches the sequence number
    check, after the port has been learned if it was not known. *)
Lemma udpDatagramReceived_checked w addr port buf client c header ss :
  source_checked w addr port buf client c header ss →
  udpDatagramReceived w addr port buf =
    if remoteUdpPort c =? 0 then
      '(w2, evs) ← udp_sequenced
                     (store_client client (setRemoteUdpPort port c) w)
                     client header ss;
      Some (w2, SendUdpMsg client MsgUdpHeartbeat :: evs)
    else udp_sequenced w client header ss.
Proof.
  intros (Hhdr & Hid & Hc & -> & Hport). unfold udpDatagramReceived.
  rewrite Hhdr, Hid, Hc. simpl.
  rewrite bool_decide_eq_false_2 by (intros Hne; by apply Hne).
  destruct (Z.eqb_spec (remoteUdpPort c) 0) as [Hz | Hnz]; [done|].
  destruct Hport as [? | ->]; [done|].
  by rewrite bool_decide_eq_false_2 by (intros Hne; by apply Hne).
Qed.

(** A frame whose sequence number is out of sequence is dropped. *)
Lemma udp_sequenced_drop w client c header ss :
  heap w !! client = Some c →
  0x7fff < udp_rx_seq_diff header c →
  udp_sequenced w client header ss =
    Some (w, [Log (LogOutOfSequence (hdr_sequenceNum header)
                                    (nextUdpRxSeq c))]).
Proof.
  intros Hc Hdiff. unfold udp_sequenced. rewrite Hc. simpl.
  unfold udp_rx_seq_diff in Hdiff.
  destruct (Z.ltb_spec 32767
              (wrap16 (hdr_sequenceNum header - nextUdpRxSeq c))); [done|lia].
Qed.

(** Any other frame is handed to the session and dispatched. *)
Lemma udp_sequenced_accept w client c header ss :
  heap w !! client = Some c →
  udp_rx_seq_diff header c ≤ 0x7fff →
  udp_sequenced w client header ss =
    '(w2, evs) ← udp_dispatch
                   (store_client client (udpMsgReceived header c) w)
                   client header ss;
    Some (w2,
          (if 0 <? udp_rx_seq_diff header c
           then [Log (LogFramesLost (nextUdpRxSeq c) (hdr_sequenceNum header))]
           else []) ++ UdpMsgReceived client header :: evs).
Proof.
  intros Hc Hdiff. unfold udp_sequenced. rewrite Hc. simpl.
  unfold udp_rx_seq_diff in *.
  destruct (Z.ltb_spec 32767
              (wrap16 (hdr_sequenceNum header - nextUdpRxSeq c))); [lia|done].
Qed.

Lemma store_client_twice client c1 c2 w :
  store_client client c2 (store_client client c1 w) = store_client client c2 w.
Proof.
  unfold store_client, set_heap. simpl. by rewrite insert_insert_eq.
Qed.

Lemma store_client_lookup client c w :
  heap (store_client client c w) !! client = Some c.
Proof. unfold store_client. simpl. by rewrite lookup_insert_eq. Qed.

(** A validated datagram reaches the [switch] in [accepted_world], with
    [accepted_events] behind it. *)
Lemma udpDatagramReceived_validated w addr port buf client c header ss :
  validated w addr port buf client c header ss →
  udpDatagramReceived w addr port buf =
    '(w2, evs) ← udp_dispatch (accepted_world w client c port header)
                   client header ss;
    Some (w2, accepted_events client c header ++ evs).
Proof.
  intros [Hsrc Hdiff].
  rewrite (udpDatagramReceived_checked _ _ _ _ _ _ _ _ Hsrc).
  destruct Hsrc as (Hhdr & Hid & Hc & Haddr & Hport).
  unfold accepted_world, accepted_client, accepted_events.
  destruct (Z.eqb_spec (remoteUdpPort c) 0) as [Hz | Hnz].
  - rewrite (udp_sequenced_accept _ client (setRemoteUdpPort port c));
      [|apply store_client_lookup|done].
    rewrite store_client_twice.
    destruct (udp_dispatch _ client header ss) as [[w2 evs]|]; [|done].
    simpl. do 2 f_equal. by rewrite <- !app_assoc.
  - rewrite (udp_sequenced_accept _ client c); [|done..].
    destruct (udp_dispatch _ client header ss) as [[w2 evs]|]; [|done].
    simpl. do 2 f_equal. by rewrite <- !app_assoc.
Qed.

(** The [switch] changes nothing but the state of the talkgroup handler
    and produces dispatch events only. *)
Lemma udp_audio_frame w client ss w' evs :
  udp_audio w client ss = Some (w', evs) →
  (heap w' = heap w ∧ reflector w' = reflector w ∧ tasks w' = tasks w) ∧
  ∀ e, e ∈ evs → is_dispatch_event e = true.
Proof.
  unfold udp_audio. intros Hrun.
  destruct (heap w !! client) as [c|]; [|done]. simpl in Hrun.
  destruct (isBlocked c).
  { injection Hrun as <- <-. split; [done|]. by intros e ?%elem_of_nil. }
  destruct (unpack_audio ss) as [audioData|].
  2:{ injection Hrun as <- <-. split; [done|].
      by intros e ->%list_elem_of_singleton. }
  destruct (negb (bool_decide (audioData = [])) &&
            (0 <? TGForClient (tg_handler w) client)).
  2:{ injection Hrun as <- <-. split; [done|]. by intros e ?%elem_of_nil. }
  set (tg := TGForClient (tg_handler w) client) in *.
  destruct (talkerForTG (tg_handler w) tg) as [talker|] eqn:Htalker.
  - simpl in Hrun. case_bool_decide.
    + destruct (call_setTalkerForTG w tg (Some client)) as [[w2 evs2]|] eqn:H2;
        [|done]. simpl in Hrun.
      destruct (broadcastUdpMsg w2 _ _) as [evs3|] eqn:H3; [|done].
      simpl in Hrun. injection Hrun as <- <-.
      apply call_setTalkerForTG_events in H2 as [Hfr Hev2].
      split; [done|]. intros e [He | He]%elem_of_app; [by apply Hev2|].
      by apply (broadcastUdpMsg_sends _ _ _ _ H3) in He as [to ->].
    + injection Hrun as <- <-. split; [done|]. by intros e ?%elem_of_nil.
  - destruct (call_setTalkerForTG w tg (Some client)) as [[w1 evs1]|] eqn:H1;
      [|done]. simpl in Hrun.
    apply call_setTalkerForTG_events in H1 as [(Hh1 & Hr1 & Ht1) Hev1].
    case_bool_decide.
    + destruct (call_setTalkerForTG w1 tg (Some client)) as [[w2 evs2]|] eqn:H2;
        [|done]. simpl in Hrun.
      destruct (broadcastUdpMsg w2 _ _) as [evs3|] eqn:H3; [|done].
      simpl in Hrun. injection Hrun as <- <-.
      apply call_setTalkerForTG_events in H2 as [(Hh2 & Hr2 & Ht2) Hev2].
      split; [split_and!; congruence|].
      intros e [He | [He | He]%elem_of_app]%elem_of_app;
        [by apply Hev1 | by apply Hev2 |].
      by apply (broadcastUdpMsg_sends _ _ _ _ H3) in He as [to ->].
    + injection Hrun as <- <-. split; [done|]. done.
Qed.

Lemma udp_flush_samples_frame w client w' evs :
  udp_flush_samples w client = Some (w', evs) →
  (heap w' = heap w ∧ reflector w' = reflector w ∧ tasks w' = tasks w) ∧
  ∀ e, e ∈ evs → is_dispatch_event e = true.
Proof.
  unfold udp_flush_samples. intros Hrun.
  destruct (_ && _).
  - destruct (call_setTalkerForTG w _ None) as [[w1 evs1]|] eqn:H1; [|done].
    simpl in Hrun. injection Hrun as <- <-.
    apply call_setTalkerForTG_events in H1 as [Hfr Hev1].
    split; [done|].
    intros e [He | ->%list_elem_of_singleton]%elem_of_app; [by apply Hev1|done].
  - simpl in Hrun. injection Hrun as <- <-. split; [done|].
    by intros e ->%list_elem_of_singleton.
Qed.

Lemma udp_dispatch_frame w client header ss w' evs :
  udp_dispatch w client header ss = Some (w', evs) →
  (heap w' = heap w ∧ reflector w' = reflector w ∧ tasks w' = tasks w) ∧
  ∀ e, e ∈ evs → is_dispatch_event e = true.
Proof.
  unfold udp_dispatch. intros Hrun. destruct (hdr_type header).
  - injection Hrun as <- <-. split; [done|]. by intros e ?%elem_of_nil.
  - by apply (udp_audio_frame _ client ss).
  - by apply (udp_flush_samples_frame _ client).
  - injection Hrun as <- <-. split; [done|]. by intros e ?%elem_of_nil.
  - injection Hrun as <- <-. split; [done|]. by intros e ?%elem_of_nil.
Qed.

Lemma source_checks_true w addr port buf :
  source_checks w addr port buf = true ↔
  ∃ client c header ss, source_checked w addr port buf client c header ss.
Proof.
  unfold source_checks, source_checked. split.
  - destruct (unpack_header buf) as [[header ss]|] eqn:Hhdr; [|done].
    destruct (m_client_map (reflector w) !! hdr_clientId header)
      as [client|] eqn:Hid; [|done].
    destruct (heap w !! client) as [c|] eqn:Hc; [|done].
    intros [Haddr%bool_decide_eq_true Hport]%andb_true_iff.
    exists client, c, header, ss.
    split; [done|]. split; [done|]. split; [done|]. split; [done|].
    apply orb_true_iff in Hport as [?%Z.eqb_eq | ?%bool_decide_eq_true]; auto.
  - intros (client & c & header & ss & -> & -> & -> & -> & Hport).
    rewrite bool_decide_eq_true_2 by done. simpl.
    destruct Hport as [-> | ->]; [done|].
    rewrite bool_decide_eq_true_2 by done. apply orb_true_r.
Qed.

(** C2: a datagram reaches the client session only if its header
    decodes, its client id is registered, it comes from the address of
    the client's control connection and, once the client's UDP port is
    known, from that port.  A datagram that fails one of these checks is
    dropped with a warning: nothing is sent, nobody is disconnected, and
    the state of the reflector, of every client and of the talkgroup
    handler is what it was. *)
Theorem unchecked_datagram_dropped w addr port buf :
  clients_live w →
  (source_checks w addr port buf = true ↔
     ∃ client c header ss,
       unpack_header buf = Some (header, ss) ∧
       m_client_map (reflector w) !! hdr_clientId header = Some client ∧
       heap w !! client = Some c ∧
       addr = remoteHost c ∧
       (remoteUdpPort c = 0 ∨ port = remoteUdpPort c)) ∧
  (source_checks w addr port buf = false →
     ∃ l, udpDatagramReceived w addr port buf = Some (w, [Log l]) ∧
          l ∈ [LogUnpackHeaderFailed; LogInvalidClientId;
               LogWrongSourceIp; LogWrongSourcePort]) ∧
  (∀ w' evs client header,
     udpDatagramReceived w addr port buf = Some (w', evs) →
     UdpMsgReceived client header ∈ evs →
     source_checks w addr port buf = true) ∧
  (∀ w' evs,
     udpDatagramReceived w addr port buf = Some (w', evs) →
     w' ≠ w ∨ (∃ e, e ∈ evs ∧ (is_send e || is_handler_call e) = true) →
     source_checks w addr port buf = true).
Proof.
  intros Hlive.
  assert (Hdrop : source_checks w addr port buf = false →
     ∃ l, udpDatagramReceived w addr port buf = Some (w, [Log l]) ∧
          l ∈ [LogUnpackHeaderFailed; LogInvalidClientId;
               LogWrongSourceIp; LogWrongSourcePort]).
  { unfold source_checks, udpDatagramReceived.
    destruct (unpack_header buf) as [[header ss]|].
    2:{ intros _. eexists. split; [done|]. set_solver. }
    destruct (m_client_map (reflector w) !! hdr_clientId header)
      as [client|] eqn:Hid.
    2:{ intros _. eexists. split; [done|]. set_solver. }
    destruct (Hlive _ _ Hid) as [c Hc]. simpl in Hc. rewrite Hc. simpl.
    destruct (decide (addr = remoteHost c)) as [-> | Hne].
    - rewrite (bool_decide_eq_true_2 (remoteHost c = remoteHost c)) by done.
      rewrite (bool_decide_eq_false_2 (remoteHost c ≠ remoteHost c))
        by (intros Hne; by apply Hne).
      simpl. destruct (remoteUdpPort c =? 0); [done|]. simpl.
      intros Hport%bool_decide_eq_false.
      rewrite (bool_decide_eq_true_2 (port ≠ remoteUdpPort c)) by done.
      eexists. split; [done|]. set_solver.
    - intros _. rewrite (bool_decide_eq_true_2 (addr ≠ remoteHost c)) by done.
      eexists. split; [done|]. set_solver. }
  split_and!.
  - apply source_checks_true.
  - done.
  - intros w' evs client header Hrun Hin.
    destruct (source_checks w addr port buf) eqn:Hchk; [done|].
    destruct (Hdrop eq_refl) as (l & Hrun' & _).
    rewrite Hrun in Hrun'. injection Hrun' as -> ->.
    by apply list_elem_of_singleton in Hin.
  - intros w' evs Hrun Hact.
    destruct (source_checks w addr port buf) eqn:Hchk; [done|].
    destruct (Hdrop eq_refl) as (l & Hrun' & _).
    rewrite Hrun in Hrun'. injection Hrun' as -> ->.
    destruct Hact as [? | (e & ->%list_elem_of_singleton & ?)]; done.
Qed.

Lemma accepted_events_elem client c header e :
  e ∈ accepted_events client c header ↔
  (remoteUdpPort c = 0 ∧ e = SendUdpMsg client MsgUdpHeartbeat) ∨
  (0 < udp_rx_seq_diff header c ∧
   e = Log (LogFramesLost (nextUdpRxSeq c) (hdr_sequenceNum header))) ∨
  e = UdpMsgReceived client header.
Proof.
  unfold accepted_events. rewrite !elem_of_app, list_elem_of_singleton.
  destruct (Z.eqb_spec (remoteUdpPort c) 0);
    destruct (Z.ltb_spec 0 (udp_rx_seq_diff header c));
    rewrite ?list_elem_of_singleton, ?elem_of_nil; intuition lia.
Qed.

(** C4: a datagram that passes the source checks and carries sequence
    number [s], when the client expects [e], is dropped as out of
    sequence if and only if [(s - e) mod 2^16 > 0x7FFF]; otherwise it is
    handed to the session, after a lost-frames line in the log exactly
    when the difference is not zero, and the client then expects
    [(s + 1) mod 2^16]. *)
Theorem sequence_number_check w addr port buf client c header ss :
  source_checked w addr port buf client c header ss →
  let s := hdr_sequenceNum header in
  let e := nextUdpRxSeq c in
  let diff := (s - e) mod 2 ^ 16 in
  (0x7fff < diff →
     udpDatagramReceived w addr port buf =
       Some (if remoteUdpPort c =? 0
             then store_client client (setRemoteUdpPort port c) w else w,
             (if remoteUdpPort c =? 0
              then [SendUdpMsg client MsgUdpHeartbeat] else []) ++
             [Log (LogOutOfSequence s e)])) ∧
  (diff ≤ 0x7fff →
     udpDatagramReceived w addr port buf =
       '(w2, evs) ← udp_dispatch (accepted_world w client c port header)
                      client header ss;
       Some (w2, accepted_events client c header ++ evs)) ∧
  (diff ≤ 0x7fff → hdr_type header = TYPE_MsgUdpHeartbeat →
     udpDatagramReceived w addr port buf =
       Some (accepted_world w client c port header,
             accepted_events client c header)) ∧
  (∀ w' evs,
     udpDatagramReceived w addr port buf = Some (w', evs) →
     (Log (LogOutOfSequence s e) ∈ evs ↔ 0x7fff < diff) ∧
     (UdpMsgReceived client header ∈ evs ↔ diff ≤ 0x7fff) ∧
     (Log (LogFramesLost e s) ∈ evs ↔ 0 < diff ≤ 0x7fff) ∧
     (diff ≤ 0x7fff →
        ∃ c', heap w' !! client = Some c' ∧
              nextUdpRxSeq c' = (s + 1) mod 2 ^ 16)) ∧
  (s = e → diff = 0).
Proof.
  intros Hsrc s e diff.
  change (2 ^ 16) with 65536 in *.
  assert (Hdiff : diff = udp_rx_seq_diff header c) by done.
  assert (Hc : heap w !! client = Some c) by apply Hsrc.
  assert (Hdrop : 0x7fff < diff →
     udpDatagramReceived w addr port buf =
       Some (if remoteUdpPort c =? 0
             then store_client client (setRemoteUdpPort port c) w else w,
             (if remoteUdpPort c =? 0
              then [SendUdpMsg client MsgUdpHeartbeat] else []) ++
             [Log (LogOutOfSequence s e)])).
  { intros Hgt. rewrite (udpDatagramReceived_checked _ _ _ _ _ _ _ _ Hsrc).
    destruct (remoteUdpPort c =? 0).
    - by rewrite (udp_sequenced_drop _ client (setRemoteUdpPort port c))
        by (apply store_client_lookup || done).
    - by rewrite (udp_sequenced_drop _ client c). }
  assert (Haccept : diff ≤ 0x7fff →
     udpDatagramReceived w addr port buf =
       '(w2, evs) ← udp_dispatch (accepted_world w client c port header)
                      client header ss;
       Some (w2, accepted_events client c header ++ evs)).
  { intros Hle. by apply udpDatagramReceived_validated. }
  split_and!; [done | done | | | ].
  - intros Hle Hty. rewrite (Haccept Hle). unfold udp_dispatch.
    rewrite Hty. simpl. by rewrite app_nil_r.
  - intros w' evs Hrun.
    destruct (Z.lt_ge_cases 0x7fff diff) as [Hgt | Hle].
    + rewrite (Hdrop Hgt) in Hrun. injection Hrun as <- <-.
      rewrite !elem_of_app, !list_elem_of_singleton.
      destruct (remoteUdpPort c =? 0);
        rewrite ?list_elem_of_singleton, ?elem_of_nil;
        split_and!; try (split; [intros; break_trace_hyps|intros]; try done;
                         try lia; by auto).
      all: lia.
    + rewrite (Haccept Hle) in Hrun.
      destruct (udp_dispatch _ client header ss) as [[w2 evs2]|] eqn:Hd;
        [|done].
      simpl in Hrun. injection Hrun as <- <-.
      apply udp_dispatch_frame in Hd as [(Hheap & _) Hevs2].
      split_and!.
      * rewrite elem_of_app, accepted_events_elem. split; [|lia].
        intros [[(_ & ?) | [(_ & ?) | ?]] | Hin]; try done.
        by apply Hevs2 in Hin.
      * rewrite elem_of_app, accepted_events_elem. split; [done|].
        intros _. left. auto.
      * rewrite elem_of_app, accepted_events_elem. rewrite <- Hdiff. split.
        -- intros [[(_ & ?) | [(? & _) | ?]] | Hin]; try done.
           by apply Hevs2 in Hin.
        -- intros [Hpos _]. left. right. left. split; [lia|done].
      * intros _. rewrite Hheap. unfold accepted_world.
        rewrite store_client_lookup. eexists. split; [done|]. done.
  - intros Heq. subst diff. rewrite Heq, Z.sub_diag. done.
Qed.

(** C9: when a datagram from a registered client comes from the client's
    address and the client's UDP port is still 0, the reflector adopts
    the source port and answers with [MsgUdpHeartbeat] before it looks
    at the sequence number: the heartbeat is the first thing it does, and
    a datagram that is then dropped as out of sequence has still fixed
    the port and drawn the heartbeat. *)
Theorem first_datagram_fixes_port w addr port buf client c header ss :
  source_checked w addr port buf client c header ss →
  remoteUdpPort c = 0 →
  (0x7fff < (hdr_sequenceNum header - nextUdpRxSeq c) mod 2 ^ 16 →
     udpDatagramReceived w addr port buf =
       Some (store_client client (setRemoteUdpPort port c) w,
             [SendUdpMsg client MsgUdpHeartbeat;
              Log (LogOutOfSequence (hdr_sequenceNum header)
                                    (nextUdpRxSeq c))])) ∧
  (∀ w' evs,
     udpDatagramReceived w addr port buf = Some (w', evs) →
     (∃ rest, evs = SendUdpMsg client MsgUdpHeartbeat :: rest) ∧
     (∃ c', heap w' !! client = Some c' ∧ remoteUdpPort c' = port)).
Proof.
  intros Hsrc Hport. change (2 ^ 16) with 65536.
  pose proof (udpDatagramReceived_checked _ _ _ _ _ _ _ _ Hsrc) as Hrun.
  rewrite Hport in Hrun. simpl in Hrun.
  set (w1 := store_client client (setRemoteUdpPort port c) w) in *.
  assert (Hc1 : heap w1 !! client = Some (setRemoteUdpPort port c))
    by apply store_client_lookup.
  split.
  - intros Hgt. rewrite Hrun.
    by rewrite (udp_sequenced_drop _ client (setRemoteUdpPort port c)).
  - intros w' evs Hres. rewrite Hrun in Hres.
    destruct (udp_sequenced w1 client header ss) as [[w2 evs2]|] eqn:Hseq;
      [|done].
    simpl in Hres. injection Hres as <- <-. split; [by eexists|].
    destruct (Z.lt_ge_cases 0x7fff
                (udp_rx_seq_diff header (setRemoteUdpPort port c)))
      as [Hgt | Hle].
    + rewrite (udp_sequenced_drop _ client _ _ _ Hc1 Hgt) in Hseq.
      injection Hseq as <- <-. by eexists.
    + rewrite (udp_sequenced_accept _ client _ _ _ Hc1 Hle) in Hseq.
      destruct (udp_dispatch _ client header ss) as [[w3 evs3]|] eqn:Hd;
        [|done].
      simpl in Hseq. injection Hseq as <- <-.
      apply udp_dispatch_frame in Hd as [(Hheap & _) _].
      rewrite Hheap, store_client_lookup. by eexists.
Qed.

(* --------------------------------------------------------------------- *)
(** ** The flush and audio datagrams *)

Lemma accepted_world_facts w client c port header :
  let w1 := accepted_world w client c port header in
  tg_handler w1 = tg_handler w ∧ reflector w1 = reflector w ∧
  heap w1 !! client = Some (accepted_client c port header) ∧
  isBlocked (accepted_client c port header) = isBlocked c.
Proof.
  simpl. split_and!; [done | done | apply store_client_lookup |].
  unfold accepted_client. by destruct (remoteUdpPort c =? 0).
Qed.

Lemma clients_live_frame w w' :
  clients_live w →
  m_client_map (reflector w') = m_client_map (reflector w) →
  (∀ p, is_Some (heap w !! p) → is_Some (heap w' !! p)) →
  clients_live w'.
Proof.
  unfold clients_live. intros Hlive -> Hheap id p Hid.
  apply Hheap. by apply (Hlive id p).
Qed.

Lemma clients_live_accepted w client c port header :
  clients_live w → clients_live (accepted_world w client c port header).
Proof.
  intros Hlive. apply (clients_live_frame w); [done | done |].
  intros p Hp. unfold accepted_world, store_client. simpl.
  destruct (decide (client = p)) as [-> | Hne].
  - rewrite lookup_insert_eq. by eexists.
  - by rewrite lookup_insert_ne.
Qed.

(** C7: for a validated [MsgUdpFlushSamples] datagram from client [c]
    with [tg = TGForClient(c)], the reflector calls
    [setTalkerForTG(tg, 0)] if and only if [tg > 0] and [c] is the
    talker of [tg], it calls the handler for nothing else, and in both
    cases the last thing it does is to send [MsgUdpAllSamplesFlushed]
    back to [c]. *)
Theorem flush_samples_clears_talker w addr port buf client c header ss :
  validated w addr port buf client c header ss →
  hdr_type header = TYPE_MsgUdpFlushSamples →
  let w1 := accepted_world w client c port header in
  let pre := accepted_events client c header in
  let h := tg_handler w in
  let tg := TGForClient h client in
  let is_talker := 0 < tg ∧ talkerForTG h tg = Some client in
  (¬ is_talker →
     udpDatagramReceived w addr port buf =
       Some (w1, pre ++ [SendUdpMsg client MsgUdpAllSamplesFlushed])) ∧
  (is_talker → ∀ w2 evs2,
     call_setTalkerForTG w1 tg None = Some (w2, evs2) →
     udpDatagramReceived w addr port buf =
       Some (w2, pre ++ evs2 ++ [SendUdpMsg client MsgUdpAllSamplesFlushed])) ∧
  (∀ w' evs,
     udpDatagramReceived w addr port buf = Some (w', evs) →
     (∀ g t, CallSetTalkerForTG g t ∈ evs ↔ g = tg ∧ t = None ∧ is_talker) ∧
     (is_talker → tg_handler w' = (setTalkerForTG h tg None).1) ∧
     (¬ is_talker → tg_handler w' = h) ∧
     last evs = Some (SendUdpMsg client MsgUdpAllSamplesFlushed)).
Proof.
  intros Hval Hty w1 pre h tg is_talker.
  pose proof (udpDatagramReceived_validated _ _ _ _ _ _ _ _ Hval) as Hrun.
  subst pre. fold w1 in Hrun. unfold udp_dispatch in Hrun.
  rewrite Hty in Hrun. unfold udp_flush_samples in Hrun.
  change (tg_handler w1) with h in Hrun. fold tg in Hrun.
  assert (Hcond : ((0 <? tg) && bool_decide (Some client = talkerForTG h tg))
                  = true ↔ is_talker).
  { unfold is_talker. rewrite andb_true_iff, Z.ltb_lt, bool_decide_eq_true.
    split; intros [? ?]; done. }
  destruct ((0 <? tg) && bool_decide (Some client = talkerForTG h tg)) eqn:Hb.
  - assert (Hyes : is_talker) by by apply Hcond.
    split_and!.
    + intros Hno. by destruct Hno.
    + intros _ w2 evs2 Hcall. by rewrite Hrun, Hcall.
    + intros w' evs Hres. rewrite Hrun in Hres.
      destruct (call_setTalkerForTG w1 tg None) as [[w2 evs2]|] eqn:Hcall;
        [|done].
      simpl in Hres. injection Hres as <- <-.
      apply call_setTalkerForTG_inv in Hcall as (-> & slots & -> & Hslots).
      split_and!.
      * intros g t. rewrite !elem_of_app, accepted_events_elem,
          elem_of_cons, list_elem_of_singleton. split.
        -- intros [[(_ & ?) | [(_ & ?) | ?]] | [[[= -> ->] | Hin] | ?]];
             try done.
           by apply Hslots in Hin.
        -- intros (-> & -> & _). right. left. by left.
      * done.
      * intros Hno. by destruct Hno.
      * by rewrite !app_assoc, last_snoc.
  - assert (Hno : ¬ is_talker).
    { intros Hyes. apply Hcond in Hyes. done. }
    simpl in Hrun. split_and!.
    + done.
    + intros Hyes. by destruct Hno.
    + intros w' evs Hres. rewrite Hrun in Hres. injection Hres as <- <-.
      split_and!.
      * intros g t. rewrite elem_of_app, accepted_events_elem,
          list_elem_of_singleton. split.
        -- intros [[(_ & ?) | [(_ & ?) | ?]] | ?]; done.
        -- intros (_ & _ & Hyes). by destruct Hno.
      * intros Hyes. by destruct Hno.
      * done.
      * by rewrite last_snoc.
Qed.

(** The audio case when the datagram is not dropped at once: the sender
    is not blocked, the payload decodes to non-empty audio, and the
    sender has a talkgroup. *)
Lemma udp_audio_relay w client c ss audioData :
  heap w !! client = Some c →
  isBlocked c = false →
  unpack_audio ss = Some audioData →
  audioData ≠ [] →
  TGForClient (tg_handler w) client ≠ 0 →
  udp_audio w client ss =
    let tg := TGForClient (tg_handler w) client in
    match talkerForTG (tg_handler w) tg with
    | Some talker =>
        if bool_decide (talker = client) then
          '(w2, evs2) ← call_setTalkerForTG w tg (Some client);
          evs3 ← broadcastUdpMsg w2 (MsgUdpAudio audioData)
                   (mkAndFilter (ExceptFilter client) (TgFilter tg));
          Some (w2, evs2 ++ evs3)
        else Some (w, [])
    | None =>
        '(w1, evs1) ← call_setTalkerForTG w tg (Some client);
        if bool_decide (talkerForTG (tg_handler w1) tg = Some client) then
          '(w2, evs2) ← call_setTalkerForTG w1 tg (Some client);
          evs3 ← broadcastUdpMsg w2 (MsgUdpAudio audioData)
                   (mkAndFilter (ExceptFilter client) (TgFilter tg));
          Some (w2, evs1 ++ evs2 ++ evs3)
        else Some (w1, evs1)
    end.
Proof.
  intros Hc Hblk Haudio Hdata Htg. unfold udp_audio.
  rewrite Hc. simpl. rewrite Hblk, Haudio.
  rewrite (bool_decide_eq_false_2 (audioData = [])) by done.
  pose proof (TGForClient_unsigned (tg_handler w) client) as Hpos.
  destruct (Z.ltb_spec 0 (TGForClient (tg_handler w) client)); [|lia].
  simpl.
  destruct (talkerForTG (tg_handler w) (TGForClient (tg_handler w) client))
    as [talker|]; [|done].
  simpl. destruct (decide (talker = client)) as [-> | Hne].
  - by rewrite !bool_decide_eq_true_2 by done.
  - rewrite !bool_decide_eq_false_2; [done | done | congruence].
Qed.

Lemma udp_audio_blocked w client c ss :
  heap w !! client = Some c → isBlocked c = true →
  udp_audio w client ss = Some (w, []).
Proof. intros Hc Hblk. unfold udp_audio. rewrite Hc. simpl. by rewrite Hblk. Qed.

Lemma udp_audio_undecodable w client c ss :
  heap w !! client = Some c → isBlocked c = false →
  unpack_audio ss = None →
  udp_audio w client ss = Some (w, [Log LogUnpackAudioFailed]).
Proof.
  intros Hc Hblk Haudio. unfold udp_audio. rewrite Hc. simpl.
  by rewrite Hblk, Haudio.
Qed.

Lemma udp_audio_nothing w client c ss audioData :
  heap w !! client = Some c → isBlocked c = false →
  unpack_audio ss = Some audioData →
  audioData = [] ∨ TGForClient (tg_handler w) client = 0 →
  udp_audio w client ss = Some (w, []).
Proof.
  intros Hc Hblk Haudio Hdrop. unfold udp_audio. rewrite Hc. simpl.
  rewrite Hblk, Haudio.
  destruct Hdrop as [-> | ->]; [done|]. by rewrite andb_false_r.
Qed.

Lemma receives_and_comm w a b to :
  receives w (mkAndFilter a b) to ↔ receives w (mkAndFilter b a) to.
Proof.
  unfold receives. cbn [filter_holds].
  split; intros (id & c & ? & ? & Hf & ?); exists id, c;
    rewrite andb_comm; done.
Qed.

(** C1 (as the code has it): for a validated [MsgUdpAudio] datagram from
    client [c] with [tg = TGForClient(c)]: when [c] is blocked, the
    payload does not decode, the audio is empty or [tg] is 0, the
    datagram is dropped, and so it is, without any call into the
    handler, when another client is the talker of [tg].  Otherwise
    (no talker, or [c] the talker) [setTalkerForTG(tg, c)] is called,
    and the audio goes to exactly the connected clients accepted by
    and(ExceptFilter(c), TgFilter(tg)), the same clients as for
    and(TgFilter(tg), ExceptFilter(c)), if [c] is the talker of [tg]
    once the talker has been installed, and to nobody if not. *)
Theorem audio_datagram_relay w addr port buf client c header ss :
  validated w addr port buf client c header ss →
  hdr_type header = TYPE_MsgUdpAudio →
  let w1 := accepted_world w client c port header in
  let pre := accepted_events client c header in
  let h := tg_handler w in
  let tg := TGForClient h client in
  (isBlocked c = true →
     udpDatagramReceived w addr port buf = Some (w1, pre)) ∧
  (isBlocked c = false → unpack_audio ss = None →
     udpDatagramReceived w addr port buf =
       Some (w1, pre ++ [Log LogUnpackAudioFailed])) ∧
  (∀ audioData,
     isBlocked c = false → unpack_audio ss = Some audioData →
     (audioData = [] ∨ tg = 0 →
        udpDatagramReceived w addr port buf = Some (w1, pre)) ∧
     (∀ other, audioData ≠ [] → tg ≠ 0 →
        talkerForTG h tg = Some other → other ≠ client →
        udpDatagramReceived w addr port buf = Some (w1, pre)) ∧
     (audioData ≠ [] → tg ≠ 0 →
      talkerForTG h tg = None ∨ talkerForTG h tg = Some client →
      let h1 := match talkerForTG h tg with
                | None => (setTalkerForTG h tg (Some client)).1
                | Some _ => h
                end in
      (clients_live w →
       is_Some (call_setTalkerForTG w1 tg (Some client)) →
       is_Some (call_setTalkerForTG (set_tg_handler h1 w1) tg (Some client)) →
       is_Some (udpDatagramReceived w addr port buf)) ∧
      (∀ w' evs,
         udpDatagramReceived w addr port buf = Some (w', evs) →
         CallSetTalkerForTG tg (Some client) ∈ evs ∧
         (∀ to d, SendUdpMsg to (MsgUdpAudio d) ∈ evs ↔
            talkerForTG h1 tg = Some client ∧ d = audioData ∧
            receives w' (mkAndFilter (ExceptFilter client) (TgFilter tg)) to) ∧
         (∀ to,
            receives w' (mkAndFilter (ExceptFilter client) (TgFilter tg)) to ↔
            receives w' (mkAndFilter (TgFilter tg) (ExceptFilter client)) to)))).
Proof.
  intros Hval Hty w1 pre h tg.
  pose proof (udpDatagramReceived_validated _ _ _ _ _ _ _ _ Hval) as Hrun.
  subst pre. fold w1 in Hrun. unfold udp_dispatch in Hrun.
  rewrite Hty in Hrun.
  destruct (accepted_world_facts w client c port header)
    as (Hh1 & Hr1 & Hc1 & Hblk1).
  fold w1 in Hh1, Hr1, Hc1.
  split_and!.
  - intros Hblk. rewrite Hrun.
    rewrite (udp_audio_blocked w1 client _ ss Hc1) by congruence.
    simpl. by rewrite app_nil_r.
  - intros Hblk Haudio. rewrite Hrun.
    by rewrite (udp_audio_undecodable w1 client _ ss Hc1) by congruence.
  - intros audioData Hblk Haudio. split_and!.
    + intros Hdrop. rewrite Hrun.
      rewrite (udp_audio_nothing w1 client _ ss audioData Hc1);
        [|congruence | done | exact Hdrop].
      simpl. by rewrite app_nil_r.
    + intros other Hdata Htg Htalker Hother. rewrite Hrun.
      rewrite (udp_audio_relay w1 client _ ss audioData Hc1);
        [|congruence | done | done | exact Htg].
      rewrite Hh1. fold h tg. cbv zeta. rewrite Htalker.
      rewrite bool_decide_eq_false_2 by done. simpl. by rewrite app_nil_r.
    + intros Hdata Htg Htalker h1.
      rewrite (udp_audio_relay w1 client _ ss audioData Hc1) in Hrun;
        [|congruence | done | done | exact Htg].
      rewrite Hh1 in Hrun. fold h tg in Hrun. cbv zeta in Hrun.
      assert (Hshape : ∀ w' evs,
        udpDatagramReceived w addr port buf = Some (w', evs) →
        ∃ slots1 rest,
          evs = accepted_events client c header ++
                CallSetTalkerForTG tg (Some client) :: slots1 ++ rest ∧
          (∀ e, e ∈ slots1 → is_talker_event e = true) ∧
          ((talkerForTG h1 tg ≠ Some client ∧ rest = []) ∨
           (talkerForTG h1 tg = Some client ∧
            ∃ pre2 evs3,
              rest = pre2 ++ evs3 ∧
              (∀ e, e ∈ pre2 → is_talker_event e = true ∨
                               e = CallSetTalkerForTG tg (Some client)) ∧
              broadcastUdpMsg w' (MsgUdpAudio audioData)
                (mkAndFilter (ExceptFilter client) (TgFilter tg))
              = Some evs3))).
      { intros w' evs Hres. rewrite Hrun in Hres. subst h1.
        destruct Htalker as [Hnone | Hself].
        - rewrite Hnone in Hres |- *.
          destruct (call_setTalkerForTG w1 tg (Some client))
            as [[w1' evs1]|] eqn:Hcall1; [|done].
          simpl in Hres.
          apply call_setTalkerForTG_inv in Hcall1
            as (Hw1' & slots1 & -> & Hslots1).
          assert (Hh1' : tg_handler w1'
                         = (setTalkerForTG h tg (Some client)).1)
            by (by rewrite Hw1').
          rewrite Hh1' in Hres.
          case_bool_decide as Hnow.
          + destruct (call_setTalkerForTG w1' tg (Some client))
              as [[w2 evs2]|] eqn:Hcall2; [|done].
            simpl in Hres.
            destruct (broadcastUdpMsg w2 _ _) as [evs3|] eqn:Hb; [|done].
            simpl in Hres. injection Hres as <- <-.
            apply call_setTalkerForTG_inv in Hcall2
              as (_ & slots2 & -> & Hslots2).
            exists slots1, ((CallSetTalkerForTG tg (Some client) :: slots2)
                            ++ evs3).
            split; [simpl; by rewrite <- ?app_assoc|]. split; [done|].
            right. split; [done|]. eexists _, evs3.
            split; [done|]. split; [|done].
            intros e [-> | He]%elem_of_cons; [by right|]. left. auto.
          + injection Hres as <- <-. exists slots1, [].
            split; [by rewrite app_nil_r|]. split; [done|]. by left.
        - rewrite Hself in Hres |- *.
          rewrite bool_decide_eq_true_2 in Hres by done.
          destruct (call_setTalkerForTG w1 tg (Some client))
            as [[w2 evs2]|] eqn:Hcall2; [|done].
          simpl in Hres.
          destruct (broadcastUdpMsg w2 _ _) as [evs3|] eqn:Hb; [|done].
          simpl in Hres. injection Hres as <- <-.
          apply call_setTalkerForTG_inv in Hcall2
            as (_ & slots2 & -> & Hslots2).
          exists slots2, evs3. split; [done|]. split; [done|].
          right. split; [done|]. exists [], evs3.
          split; [done|]. split; [|done]. by intros e ?%elem_of_nil. }
      split.
      * intros Hlive [[w1' evs1] Hcall1] [[w2 evs2] Hcall2].
        rewrite Hrun. subst h1.
        assert (Hbc : ∀ w2', reflector w2' = reflector w1 →
                  heap w2' = heap w1 →
                  is_Some (broadcastUdpMsg w2' (MsgUdpAudio audioData)
                     (mkAndFilter (ExceptFilter client) (TgFilter tg)))).
        { intros w2' Hr Hhp. apply broadcastUdpMsg_total.
          apply (clients_live_frame w1);
            [by apply clients_live_accepted | by rewrite Hr | by rewrite Hhp]. }
        destruct Htalker as [Hnone | Hself].
        -- rewrite Hnone in Hcall2 |- *. rewrite Hcall1. simpl.
           pose proof Hcall1 as Hinv.
           apply call_setTalkerForTG_inv in Hinv as (Hw1' & _).
           rewrite Hh1 in Hw1'. fold h in Hw1'. rewrite <- Hw1' in Hcall2.
           case_bool_decide; [|by eexists].
           rewrite Hcall2. simpl.
           apply call_setTalkerForTG_events in Hcall1 as [(? & ? & _) _].
           apply call_setTalkerForTG_events in Hcall2 as [(? & ? & _) _].
           destruct (Hbc w2) as [evs3 ->]; [congruence | congruence |].
           simpl. by eexists.
        -- rewrite Hself. rewrite bool_decide_eq_true_2 by done.
           rewrite Hcall1. simpl.
           apply call_setTalkerForTG_events in Hcall1 as [(? & ? & _) _].
           destruct (Hbc w1') as [evs3 ->]; [done | done |].
           simpl. by eexists.
      * intros w' evs Hres.
        destruct (Hshape w' evs Hres) as (slots1 & rest & -> & Hslots1 & Hrest).
        split_and!.
        -- rewrite elem_of_app, elem_of_cons. right. by left.
        -- intros to d.
           rewrite elem_of_app, accepted_events_elem, elem_of_cons,
             elem_of_app.
           destruct Hrest as [[Hnot ->] | (Hnow & pre2 & evs3 & -> & Hpre2 & Hb)].
           ++ split.
              ** intros [[(_ & ?) | [(_ & ?) | ?]] | [? | [Hin | Hin]]];
                   try done.
                 --- by apply Hslots1 in Hin.
                 --- by apply elem_of_nil in Hin.
              ** by intros [? _].
           ++ rewrite elem_of_app.
              rewrite (broadcastUdpMsg_elem _ _ _ _ _ Hb). split.
              ** intros [[(_ & ?) | [(_ & ?) | ?]]
                        | [? | [Hin | [Hin | (to' & [= <- <-] & Hr)]]]];
                   try done.
                 --- by apply Hslots1 in Hin.
                 --- by apply Hpre2 in Hin as [? | ?].
              ** intros (_ & -> & Hr). right. right. right. right. eauto.
        -- intros to. apply receives_and_comm.
Qed.

(* --------------------------------------------------------------------- *)
(** ** Disconnection *)

Lemma run_tasks_heap_None (ts : list Task) (w0 : World T) p :
  heap w0 !! p = None →
  heap (fold_left (λ w' t, run_task t w') ts w0) !! p = None.
Proof.
  revert w0. induction ts as [|[q] ts IH]; intros w0 Hp; simpl; [done|].
  apply IH. simpl. destruct (decide (q = p)) as [-> | Hne].
  - apply lookup_delete_eq.
  - by rewrite lookup_delete_ne.
Qed.

Lemma run_tasks_deleted (ts : list Task) (w0 : World T) p :
  delete_client p ∈ ts →
  heap (fold_left (λ w' t, run_task t w') ts w0) !! p = None.
Proof.
  revert w0. induction ts as [|[q] ts IH]; intros w0 Hin; simpl.
  - by apply elem_of_nil in Hin.
  - apply elem_of_cons in Hin as [[= <-] | Hin].
    + apply run_tasks_heap_None. simpl. apply lookup_delete_eq.
    + by apply IH.
Qed.

(** C8: when the control connection [con] of client [c] disconnects, the
    handler calls [TGHandler::removeClient(c)] first, erases [c] from
    the client id map and from the connection map (and nothing else from
    them), sends [MsgNodeLeft(callsign)] exactly when the callsign is
    not empty, and then to exactly the connected clients that are still
    registered, the departing client not among them.  The client object
    is not freed by the handler: the heap is what it was, and a
    [delete_client] task for it is queued behind the tasks already
    pending; the object is gone after the next idle iteration of the
    event loop. *)
Theorem client_disconnect_cleanup w con client c :
  m_client_con_map (reflector w) !! con = Some client →
  heap w !! client = Some c →
  clients_live w →
  is_Some (call_removeClient w client) →
  ∃ w' evs,
    clientDisconnected w con = Some (w', evs) ∧
    (∃ rest, evs = CallRemoveClient client :: rest) ∧
    tg_handler w' = (removeClient (tg_handler w) client).1 ∧
    m_client_map (reflector w') = delete (clientId c) (m_client_map (reflector w)) ∧
    m_client_con_map (reflector w') = delete con (m_client_con_map (reflector w)) ∧
    m_client_map (reflector w') !! clientId c = None ∧
    m_client_con_map (reflector w') !! con = None ∧
    (∀ to cs, SendMsg to (MsgNodeLeft cs) ∈ evs ↔
       callsign c ≠ "" ∧ cs = callsign c ∧
       receives w' (ExceptFilter client) to) ∧
    (∀ to cs, SendMsg to (MsgNodeLeft cs) ∈ evs → to ≠ client) ∧
    heap w' = heap w ∧
    tasks w' = tasks w ++ [delete_client client] ∧
    heap (run_pending_tasks w') !! client = None.
Proof.
  intros Hcon Hc Hlive [[w1 evs1] Hcall].
  unfold clientDisconnected. rewrite Hcon. simpl. rewrite Hcall. simpl.
  pose proof Hcall as Hinv.
  apply call_removeClient_inv in Hinv as (Hw1 & slots & -> & Hslots).
  assert (Hheap1 : heap w1 = heap w) by by rewrite Hw1.
  assert (Hrefl1 : reflector w1 = reflector w) by by rewrite Hw1.
  assert (Htasks1 : tasks w1 = tasks w) by by rewrite Hw1.
  rewrite Hheap1, Hc. simpl. rewrite Hrefl1.
  set (w2 := set_reflector
               (set_client_maps (delete (clientId c) (m_client_map (reflector w)))
                  (delete con (m_client_con_map (reflector w))) (reflector w))
               w1).
  assert (Hlive2 : clients_live w2).
  { intros id p Hid. simpl in Hid.
    change (is_Some (heap w1 !! p)). rewrite Hheap1.
    apply lookup_delete_Some in Hid as [_ Hid]. by apply (Hlive id p). }
  assert (Hbc : ∃ evs2,
    (if bool_decide (callsign c ≠ "")
     then broadcastMsg w2 (MsgNodeLeft (callsign c)) (ExceptFilter client)
     else Some []) = Some evs2 ∧
    ∀ e, e ∈ evs2 ↔
      callsign c ≠ "" ∧
      ∃ to, e = SendMsg to (MsgNodeLeft (callsign c)) ∧
            receives w2 (ExceptFilter client) to).
  { case_bool_decide as Hcs.
    - destruct (broadcastMsg_total w2 (MsgNodeLeft (callsign c))
                  (ExceptFilter client) Hlive2) as [evs2 Hevs2].
      exists evs2. split; [done|]. intros e.
      rewrite (broadcastMsg_elem _ _ _ _ _ Hevs2). naive_solver.
    - exists []. split; [done|]. intros e. rewrite elem_of_nil. naive_solver. }
  destruct Hbc as (evs2 & -> & Hevs2). simpl.
  eexists _, _. split; [done|].
  assert (Hleft : ∀ to cs,
    SendMsg to (MsgNodeLeft cs)
      ∈ (CallRemoveClient client :: slots) ++
        Log (LogDisconnected (callsign c)) :: evs2 ↔
    callsign c ≠ "" ∧ cs = callsign c ∧
    receives (runTask (delete_client client) w2) (ExceptFilter client) to).
  { intros to cs.
    rewrite elem_of_app, !elem_of_cons, Hevs2.
    assert (receives (runTask (delete_client client) w2) (ExceptFilter client) to
            ↔ receives w2 (ExceptFilter client) to) as -> by done.
    split.
    - intros [[? | Hin] | [? | (Hcs & to' & [= -> ->] & Hr)]]; try done.
      by apply Hslots in Hin.
    - intros (Hcs & -> & Hr). right. right. eauto. }
  split_and!.
  - by eexists.
  - change (tg_handler w1 = (removeClient (tg_handler w) client).1).
    by rewrite Hw1.
  - done.
  - done.
  - simpl. apply lookup_delete_eq.
  - simpl. apply lookup_delete_eq.
  - done.
  - intros to cs Hin. apply Hleft in Hin as (_ & _ & id & c' & _ & _ & Hf & _).
    cbn [filter_holds] in Hf. by apply bool_decide_eq_true in Hf.
  - done.
  - simpl. by rewrite Htasks1.
  - unfold run_pending_tasks. apply run_tasks_deleted. simpl.
    rewrite elem_of_app, list_elem_of_singleton. by right.
Qed.

(* --------------------------------------------------------------------- *)
(** ** The random QSY allocator *)

Lemma random_qsy_next_range lo hi cursor :
  lo ≤ cursor ≤ hi → hi < 2 ^ 32 → 0 ≤ lo →
  random_qsy_next lo hi cursor = (if cursor <? hi then cursor + 1 else lo) ∧
  lo ≤ random_qsy_next lo hi cursor ≤ hi.
Proof.
  intros Hc Hhi Hlo. unfold random_qsy_next, wrap32.
  change (2 ^ 32) with 4294967296 in Hhi.
  destruct (Z.ltb_spec cursor hi).
  - rewrite Z.mod_small by lia. lia.
  - lia.
Qed.

(** The rotation in closed form: [k] steps from [cursor] lead to the
    talkgroup [k] places further in the range, counted cyclically. *)
Lemma random_qsy_rotate_closed lo hi cursor k :
  lo ≤ cursor ≤ hi → hi < 2 ^ 32 → 0 ≤ lo →
  random_qsy_rotate lo hi k cursor
  = lo + (cursor - lo + Z.of_nat k) mod (hi - lo + 1).
Proof.
  intros Hc Hhi Hlo. unfold random_qsy_rotate.
  induction k as [|k IH].
  - simpl. rewrite Z.add_0_r, Z.mod_small by lia. lia.
  - rewrite Nat.iter_succ, IH.
    remember (hi - lo + 1) as size eqn:Hsize.
    remember (cursor - lo + Z.of_nat k) as m eqn:Hmdef.
    assert (Hm : 0 ≤ m mod size < size) by (apply Z.mod_pos_bound; lia).
    destruct (random_qsy_next_range lo hi (lo + m mod size)) as [-> _];
      [lia | done | done |].
    replace (cursor - lo + Z.of_nat (S k)) with (m + 1) by lia.
    rewrite <- (Z.add_mod_idemp_l m 1 size) by lia.
    destruct (Z.ltb_spec (lo + m mod size) hi).
    + rewrite (Z.mod_small (m mod size + 1)) by lia. lia.
    + assert (m mod size = size - 1) as -> by lia.
      replace (size - 1 + 1) with size by lia.
      rewrite Z.mod_same by lia. lia.
Qed.

Lemma random_qsy_rotate_range lo hi cursor k :
  lo ≤ cursor ≤ hi → hi < 2 ^ 32 → 0 ≤ lo →
  lo ≤ random_qsy_rotate lo hi k cursor ≤ hi.
Proof.
  intros Hc Hhi Hlo. rewrite random_qsy_rotate_closed by done.
  assert (0 ≤ (cursor - lo + Z.of_nat k) mod (hi - lo + 1) < hi - lo + 1)
    by (apply Z.mod_pos_bound; lia).
  lia.
Qed.

(** Every talkgroup of the range is met within one full rotation. *)
Lemma random_qsy_rotate_covers lo hi cursor t :
  lo ≤ cursor ≤ hi → hi < 2 ^ 32 → 0 ≤ lo → lo ≤ t ≤ hi →
  ∃ k, (k < Z.to_nat (hi - lo + 1))%nat ∧
       random_qsy_rotate lo hi (S k) cursor = t.
Proof.
  intros Hc Hhi Hlo Ht.
  remember (hi - lo + 1) as size eqn:Hsize.
  remember ((t - cursor - 1) mod size) as d eqn:Hddef.
  assert (Hd : 0 ≤ d < size) by (subst d; apply Z.mod_pos_bound; lia).
  exists (Z.to_nat d). split; [lia|].
  rewrite random_qsy_rotate_closed by done. rewrite <- Hsize.
  replace (Z.of_nat (S (Z.to_nat d))) with (d + 1) by lia.
  replace (cursor - lo + (d + 1)) with ((cursor - lo + 1) + d) by lia.
  subst d. rewrite Z.add_mod_idemp_r by lia.
  replace (cursor - lo + 1 + (t - cursor - 1)) with (t - lo) by lia.
  rewrite Z.mod_small by lia. lia.
Qed.

(** What the loop returns: the first empty talkgroup met, or nothing
    after [n] occupied ones. *)
Lemma random_qsy_scan_spec (h : T) lo hi n cursor :
  match random_qsy_scan h lo hi n cursor with
  | (cursor', Some t) =>
      cursor' = t ∧ clientsForTG h t = ∅ ∧
      ∃ k, (k < n)%nat ∧ t = random_qsy_rotate lo hi (S k) cursor ∧
           ∀ j, (j < k)%nat →
                clientsForTG h (random_qsy_rotate lo hi (S j) cursor) ≠ ∅
  | (cursor', None) =>
      cursor' = random_qsy_rotate lo hi n cursor ∧
      ∀ j, (j < n)%nat →
           clientsForTG h (random_qsy_rotate lo hi (S j) cursor) ≠ ∅
  end.
Proof.
  revert cursor. induction n as [|n IH]; intros cursor; simpl.
  - split; [done|]. lia.
  - case_bool_decide as Hempty.
    + split; [done|]. split; [done|]. exists 0%nat.
      split; [lia|]. split; [done|]. lia.
    + specialize (IH (random_qsy_next lo hi cursor)).
      assert (Hshift : ∀ j, random_qsy_rotate lo hi j (random_qsy_next lo hi cursor)
                            = random_qsy_rotate lo hi (S j) cursor).
      { intros j. unfold random_qsy_rotate. by rewrite Nat.iter_succ_r. }
      destruct (random_qsy_scan h lo hi n (random_qsy_next lo hi cursor))
        as [cursor' [t|]].
      * destruct IH as (-> & Ht & k & Hk & Hrot & Hbefore).
        split; [done|]. split; [done|]. exists (S k).
        split; [lia|]. split; [by rewrite <- Hshift|].
        intros [|j] Hj; [done|]. rewrite <- Hshift. apply Hbefore. lia.
      * destruct IH as (-> & Hall). split; [by rewrite Hshift|].
        intros [|j] Hj; [done|]. rewrite <- Hshift. apply Hall. lia.
Qed.

Lemma random_qsy_full_rotation lo hi cursor :
  lo ≤ cursor ≤ hi → hi < 2 ^ 32 → 0 ≤ lo →
  random_qsy_rotate lo hi (Z.to_nat (hi - lo + 1)) cursor = cursor.
Proof.
  intros Hc Hhi Hlo. rewrite random_qsy_rotate_closed by done.
  rewrite Z2Nat.id by lia.
  rewrite <- (Z.add_mod_idemp_r (cursor - lo)) by lia.
  rewrite Z.mod_same, Z.add_0_r, Z.mod_small by lia. lia.
Qed.

Lemma qsy_announce_spec w client tg :
  clients_live w → is_Some (heap w !! client) →
  ∃ evs, qsy_announce w client tg = Some (w, evs) ∧
    Log (LogRequestingQsy (TGForClient (tg_handler w) client) tg) ∈ evs ∧
    ∀ to m, SendMsg to m ∈ evs ↔
      m = MsgRequestQsy tg ∧
      receives w (mkAndFilter v2_client_filter
                    (TgFilter (TGForClient (tg_handler w) client))) to.
Proof.
  intros Hlive [c Hc]. unfold qsy_announce. rewrite Hc. simpl.
  destruct (broadcastMsg_total w (MsgRequestQsy tg)
              (mkAndFilter v2_client_filter
                 (TgFilter (TGForClient (tg_handler w) client))) Hlive)
    as [bc Hbc].
  rewrite Hbc. simpl. eexists. split; [done|]. split.
  - apply elem_of_cons. by left.
  - intros to m. rewrite elem_of_cons, (broadcastMsg_elem _ _ _ _ _ Hbc).
    split.
    + intros [? | (to' & [= -> ->] & Hr)]; done.
    + intros (-> & Hr). right. eauto.
Qed.

(** C5: the random QSY allocator.  A range that is not configured, or
    that is illegal ([lo < 1] or [hi < lo]), leaves the cursor at 0, and
    with the cursor at 0 every request for a random talkgroup fails and
    changes nothing, so that it fails for good.  With a legal range the
    cursor starts at [hi]; a request steps the cursor by one through the
    range, from [hi] back to [lo], and takes the first talkgroup without
    members that it meets within one full rotation, which it announces
    with [MsgRequestQsy]; when every talkgroup of the range has members
    the request fails and nothing is sent.  No talkgroup with members is
    ever announced. *)
Theorem random_qsy_allocation :
  (∀ r first second,
     0 ≤ first < 2 ^ 32 → 0 ≤ second < 2 ^ 32 →
     let r' := initialize_random_qsy (Some (first, second)) r in
     let hi := (first + second - 1) mod 2 ^ 32 in
     (first < 1 ∨ hi < first → m_random_qsy_tg r' = 0) ∧
     (1 ≤ first ≤ hi →
        m_random_qsy_lo r' = first ∧ m_random_qsy_hi r' = hi ∧
        m_random_qsy_tg r' = hi ∧ random_qsy_ready r')) ∧
  m_random_qsy_tg (initialize_random_qsy None Reflector_new) = 0 ∧
  (∀ w client,
     m_random_qsy_tg (reflector w) = 0 → is_Some (heap w !! client) →
     requestQsy w client 0 = Some (w, [Log LogRandomQsyRangeEmpty])) ∧
  (∀ w client,
     random_qsy_ready (reflector w) → clients_live w →
     is_Some (heap w !! client) →
     let lo := m_random_qsy_lo (reflector w) in
     let hi := m_random_qsy_hi (reflector w) in
     let cursor := m_random_qsy_tg (reflector w) in
     let h := tg_handler w in
     random_qsy_rotate lo hi 1 cursor = (if cursor <? hi then cursor + 1 else lo) ∧
     ∃ w' evs,
       requestQsy w client 0 = Some (w', evs) ∧
       tg_handler w' = h ∧ heap w' = heap w ∧
       m_random_qsy_lo (reflector w') = lo ∧
       m_random_qsy_hi (reflector w') = hi ∧
       random_qsy_ready (reflector w') ∧
       ((∀ t, lo ≤ t ≤ hi → clientsForTG h t ≠ ∅) →
          evs = [Log LogNoRandomTG] ∧ m_random_qsy_tg (reflector w') = cursor) ∧
       ((∃ t, lo ≤ t ≤ hi ∧ clientsForTG h t = ∅) →
          ∃ k t',
            (k < Z.to_nat (hi - lo + 1))%nat ∧
            t' = random_qsy_rotate lo hi (S k) cursor ∧
            lo ≤ t' ≤ hi ∧ clientsForTG h t' = ∅ ∧
            (∀ j, (j < k)%nat →
               clientsForTG h (random_qsy_rotate lo hi (S j) cursor) ≠ ∅) ∧
            m_random_qsy_tg (reflector w') = t' ∧
            Log (LogRequestingQsy (TGForClient h client) t') ∈ evs ∧
            (∀ to m, SendMsg to m ∈ evs ↔
               m = MsgRequestQsy t' ∧
               receives w' (mkAndFilter v2_client_filter
                              (TgFilter (TGForClient h client))) to)) ∧
       (∀ to t', SendMsg to (MsgRequestQsy t') ∈ evs →
          lo ≤ t' ≤ hi ∧ clientsForTG h t' = ∅)).
Proof.
  split_and!.
  - intros r first second Hfirst Hsecond r' hi. subst r'.
    unfold initialize_random_qsy, wrap32.
    change (2 ^ 32) with 4294967296 in *. fold hi.
    assert (Hhi : 0 ≤ hi < 4294967296) by (apply Z.mod_pos_bound; lia).
    split.
    + intros Hbad.
      destruct (Z.ltb_spec first 1); simpl; [done|].
      destruct (Z.ltb_spec hi first); simpl; [done|lia].
    + intros Hok.
      destruct (Z.ltb_spec first 1); simpl; [lia|].
      destruct (Z.ltb_spec hi first); simpl; [lia|].
      unfold random_qsy_ready. simpl.
      change (2 ^ 32) with 4294967296. lia.
  - done.
  - intros w client Hzero [c Hc]. unfold requestQsy. simpl.
    rewrite Hzero. simpl. by rewrite Hc.
  - intros w client (Hlo & Hlc & Hch & Hhi) Hlive Hclient lo hi cursor h.
    fold lo hi cursor in Hlo, Hlc, Hch, Hhi.
    split.
    { unfold random_qsy_rotate. simpl.
      by destruct (random_qsy_next_range lo hi cursor) as [-> _]; [lia..|]. }
    unfold requestQsy. simpl. fold lo hi cursor h.
    destruct (Z.eqb_spec cursor 0) as [|_]; [lia|].
    assert (Hsize : wrap32 (hi - lo + 1) = hi - lo + 1).
    { unfold wrap32. change (2 ^ 32) with 4294967296 in Hhi.
      apply Z.mod_small. lia. }
    rewrite Hsize.
    pose proof (random_qsy_scan_spec h lo hi (Z.to_nat (hi - lo + 1)) cursor)
      as Hscan.
    destruct (random_qsy_scan h lo hi (Z.to_nat (hi - lo + 1)) cursor)
      as [cursor' [t|]].
    + destruct Hscan as (-> & Hempty & k & Hk & Hrot & Hbefore).
      assert (Hrange : lo ≤ t ≤ hi).
      { rewrite Hrot. apply random_qsy_rotate_range; lia. }
      set (w' := set_reflector (set_random_qsy_tg t (reflector w)) w).
      destruct (qsy_announce_spec w' client t) as (evs & Hrun & Hlog & Hsend).
      { by apply (clients_live_frame w). }
      { done. }
      exists w', evs. split; [done|].
      split; [done|]. split; [done|]. split; [done|]. split; [done|].
      split; [unfold random_qsy_ready; simpl; fold lo hi; lia|].
      split_and!.
      * intros Hall. by destruct (Hall t Hrange).
      * intros _. exists k, t. split_and!; try done; lia.
      * intros to t' Hin. apply Hsend in Hin as ([= ->] & _). done.
    + destruct Hscan as (-> & Hall).
      rewrite random_qsy_full_rotation by lia.
      eexists _, _. split; [done|].
      split; [done|]. split; [done|]. split; [done|]. split; [done|].
      split; [unfold random_qsy_ready; simpl; fold lo hi cursor; lia|].
      split_and!.
      * done.
      * intros (t & Ht & Hempty).
        destruct (random_qsy_rotate_covers lo hi cursor t)
          as (k & Hk & Hrot); [lia..|].
        destruct (Hall k Hk). by rewrite Hrot.
      * intros to t' Hin. by apply list_elem_of_singleton in Hin.
Qed.

End ReflectorProperties.

(* ===================================================================== *)
(** ** The signal level squelch *)

Section SquelchProperties.
Context {Squelch SigLev Sample : Type}.
Variable Squelch_reset : Squelch → Squelch.
Variable setOpen : bool → Squelch → Squelch.
Variable siglev_ge : SigLev → Z → bool.
Variable siglev_lt : SigLev → Z → bool.

(** C10: [processSamples] returns its [count] argument whatever the
    samples and the signal level are.  A closed squelch opens if and
    only if the last signal level is at least [open_thresh], an open
    squelch closes if and only if the last signal level is below
    [close_thresh]; [setOpen] is called with the new state exactly on
    these two transitions, and the thresholds stay as they are.
    [reset] leaves the squelch closed. *)
Theorem squelch_hysteresis (sq : SquelchSigLev.t Squelch)
    (lastSiglev : SigLev) (samples : list Sample) (count : Z) :
  let res := SquelchSigLev.processSamples setOpen siglev_ge siglev_lt
               sq lastSiglev samples count in
  let sq' := res.1 in
  res.2 = count ∧
  (SquelchSigLev.is_open sq = false →
     (SquelchSigLev.is_open sq' = true ↔
      siglev_ge lastSiglev (SquelchSigLev.open_thresh sq) = true)) ∧
  (SquelchSigLev.is_open sq = true →
     (SquelchSigLev.is_open sq' = false ↔
      siglev_lt lastSiglev (SquelchSigLev.close_thresh sq) = true)) ∧
  SquelchSigLev.base sq' =
    (if bool_decide (SquelchSigLev.is_open sq' = SquelchSigLev.is_open sq)
     then SquelchSigLev.base sq
     else setOpen (SquelchSigLev.is_open sq') (SquelchSigLev.base sq)) ∧
  SquelchSigLev.open_thresh sq' = SquelchSigLev.open_thresh sq ∧
  SquelchSigLev.close_thresh sq' = SquelchSigLev.close_thresh sq ∧
  SquelchSigLev.is_open (SquelchSigLev.reset Squelch_reset sq) = false ∧
  SquelchSigLev.is_open (SquelchSigLev.reset Squelch_reset sq') = false.
Proof.
  unfold SquelchSigLev.processSamples.
  destruct sq as [b ot ct [|]]; simpl.
  - destruct (siglev_lt lastSiglev ct); simpl; split_and!; done.
  - destruct (siglev_ge lastSiglev ot); simpl; split_and!; done.
Qed.

End SquelchProperties.

(* ===================================================================== *)
(** ** The datagram handler always returns

    A handler returns [None] only when it reads through a pointer that
    is not allocated.  [udpDatagramReceived] reads the registered
    clients and the talkers named by the signals of the talkgroup
    handler; it returns for every datagram when the registered clients
    are allocated and the handler's calls return, which they do when the
    signals of [setTalkerForTG(tg, c)] name only [c] and the talker of
    [tg]. *)

Section DatagramHandlerReturns.
Context {T : Type} `{!TGHandler T} `{!UdpCodec}.
Implicit Types (w : World T) (client : ClientPtr).

(** The signals of [setTalkerForTG(tg, c)] name no client but [c] and
    the talker of [tg]. *)
Hypothesis setTalkerForTG_signals :
  ∀ (h h' : T) tg c sigs,
    setTalkerForTG h tg c = (h', sigs) →
    Forall (λ hs : T * TalkerUpdated,
              (tu_old hs.2 = None ∨ tu_old hs.2 = talkerForTG h tg) ∧
              (tu_new hs.2 = None ∨ tu_new hs.2 = c)) sigs.

Lemma call_setTalkerForTG_returns w tg c :
  clients_live w → talker_live w c →
  talker_live w (talkerForTG (tg_handler w) tg) →
  is_Some (call_setTalkerForTG w tg c).
Proof.
  intros Hlive Hc Htalker. unfold call_setTalkerForTG.
  destruct (setTalkerForTG (tg_handler w) tg c) as [h' sigs] eqn:Hset.
  apply setTalkerForTG_signals in Hset.
  assert (Hslots : is_Some (deliver_signals w sigs)).
  { induction Hset as [|[hs s] rest [Hold Hnew] _ IH]; simpl; [by eexists|].
    simpl in Hold, Hnew.
    destruct (onTalkerUpdated_total (set_tg_handler hs w) (tu_tg s)
                (tu_old s) (tu_new s)) as [e ->].
    - by apply (clients_live_frame w).
    - destruct Hold as [-> | ->]; done.
    - destruct Hnew as [-> | ->]; done.
    - destruct IH as [es ->]. simpl. by eexists. }
  destruct Hslots as [evs ->]. simpl. by eexists.
Qed.

Lemma udp_dispatch_returns w client header ss :
  clients_live w → is_Some (heap w !! client) →
  is_Some (udp_dispatch w client header ss).
Proof.
  intros Hlive [c Hc]. unfold udp_dispatch.
  destruct (hdr_type header); try by eexists.
  - unfold udp_audio. rewrite Hc. simpl.
    destruct (isBlocked c); [by eexists|].
    destruct (unpack_audio ss) as [audioData|]; [|by eexists].
    destruct (_ && _); [|by eexists].
    set (tg := TGForClient (tg_handler w) client).
    assert (Hbc : ∀ w2, m_client_map (reflector w2) = m_client_map (reflector w) →
              heap w2 = heap w →
              is_Some (broadcastUdpMsg w2 (MsgUdpAudio audioData)
                         (mkAndFilter (ExceptFilter client) (TgFilter tg)))).
    { intros w2 Hr Hhp. apply broadcastUdpMsg_total.
      apply (clients_live_frame w); [done | done | by rewrite Hhp]. }
    destruct (talkerForTG (tg_handler w) tg) as [talker|] eqn:Htalker.
    + simpl. case_bool_decide as Hself; [|by eexists].
      destruct (call_setTalkerForTG_returns w tg (Some client))
        as [[w2 evs2] Hcall]; [done | by eexists | |].
      { rewrite Htalker. injection Hself as ->. by eexists. }
      rewrite Hcall. simpl.
      apply call_setTalkerForTG_events in Hcall as [(Hhp & Hr & _) _].
      destruct (Hbc w2) as [evs3 ->]; [by rewrite Hr | done |].
      simpl. by eexists.
    + destruct (call_setTalkerForTG_returns w tg (Some client))
        as [[w1 evs1] Hcall1]; [done | by eexists | by rewrite Htalker |].
      rewrite Hcall1. simpl.
      apply call_setTalkerForTG_events in Hcall1 as [(Hhp1 & Hr1 & _) _].
      case_bool_decide as Hnow; [|by eexists].
      destruct (call_setTalkerForTG_returns w1 tg (Some client))
        as [[w2 evs2] Hcall2].
      { apply (clients_live_frame w); [done | by rewrite Hr1 | by rewrite Hhp1]. }
      { simpl. rewrite Hhp1. by eexists. }
      { rewrite Hnow. simpl. rewrite Hhp1. by eexists. }
      rewrite Hcall2. simpl.
      apply call_setTalkerForTG_events in Hcall2 as [(Hhp2 & Hr2 & _) _].
      destruct (Hbc w2) as [evs3 ->]; [congruence | congruence |].
      simpl. by eexists.
  - unfold udp_flush_samples.
    destruct (0 <? TGForClient (tg_handler w) client); simpl; [|by eexists].
    case_bool_decide as Hself; [|by eexists].
    destruct (call_setTalkerForTG_returns w
                (TGForClient (tg_handler w) client) None)
      as [[w1 evs1] ->]; [done | done | |].
    { rewrite <- Hself. by eexists. }
    simpl. by eexists.
Qed.

Lemma udp_sequenced_returns w client header ss :
  clients_live w → is_Some (heap w !! client) →
  is_Some (udp_sequenced w client header ss).
Proof.
  intros Hlive [c Hc]. unfold udp_sequenced. rewrite Hc. simpl.
  destruct (_ <? _); [by eexists|].
  destruct (udp_dispatch_returns
              (store_client client (udpMsgReceived header c) w)
              client header ss) as [[w2 evs] ->].
  - apply (clients_live_frame w); [done | done |].
    intros p Hp. unfold store_client. simpl.
    destruct (decide (client = p)) as [-> | Hne].
    + rewrite lookup_insert_eq. by eexists.
    + by rewrite lookup_insert_ne.
  - rewrite store_client_lookup. by eexists.
  - simpl. by eexists.
Qed.

(** With the registered clients allocated, [udpDatagramReceived] returns
    for every datagram. *)
Lemma udpDatagramReceived_returns w addr port buf :
  clients_live w → is_Some (udpDatagramReceived w addr port buf).
Proof.
  intros Hlive. unfold udpDatagramReceived.
  destruct (unpack_header buf) as [[header ss]|]; [|by eexists].
  destruct (m_client_map (reflector w) !! hdr_clientId header)
    as [client|] eqn:Hid; [|by eexists].
  destruct (Hlive _ _ Hid) as [c Hc]. simpl in Hc. rewrite Hc. simpl.
  case_bool_decide; [by eexists|].
  destruct (remoteUdpPort c =? 0).
  - destruct (udp_sequenced_returns
                (store_client client (setRemoteUdpPort port c) w)
                client header ss) as [[w2 evs] ->].
    + apply (clients_live_frame w); [done | done |].
      intros p Hp. unfold store_client. simpl.
      destruct (decide (client = p)) as [-> | Hne].
      * rewrite lookup_insert_eq. by eexists.
      * by rewrite lookup_insert_ne.
    + rewrite store_client_lookup. by eexists.
    + simpl. by eexists.
  - case_bool_decide; [by eexists|].
    apply udp_sequenced_returns; [done | by eexists].
Qed.

(** The signals of [removeClient(c)] name no client but [c]. *)
Hypothesis removeClient_signals :
  ∀ (h h' : T) c sigs,
    removeClient h c = (h', sigs) →
    Forall (λ hs : T * TalkerUpdated,
              (tu_old hs.2 = None ∨ tu_old hs.2 = Some c) ∧
              tu_new hs.2 = None) sigs.

Lemma call_removeClient_returns w client :
  clients_live w → is_Some (heap w !! client) →
  is_Some (call_removeClient w client).
Proof.
  intros Hlive Hc. unfold call_removeClient.
  destruct (removeClient (tg_handler w) client) as [h' sigs] eqn:Hrm.
  apply removeClient_signals in Hrm.
  assert (Hslots : is_Some (deliver_signals w sigs)).
  { induction Hrm as [|[hs s] rest [Hold Hnew] _ IH]; simpl; [by eexists|].
    simpl in Hold, Hnew.
    destruct (onTalkerUpdated_total (set_tg_handler hs w) (tu_tg s)
                (tu_old s) (tu_new s)) as [e ->].
    - by apply (clients_live_frame w).
    - destruct Hold as [-> | ->]; done.
    - by rewrite Hnew.
    - destruct IH as [es ->]. simpl. by eexists. }
  destruct Hslots as [evs ->]. simpl. by eexists.
Qed.

End DatagramHandlerReturns.

(* ===================================================================== *)
(** ** The registry of clients *)

Section RegistryProperties.
Context {T : Type} `{!TGHandler T} `{!UdpCodec}.
Implicit Types (w : World T) (client : ClientPtr) (c : ReflectorClient).

Lemma wf_registered w id p :
  registry_wf w → m_client_map (reflector w) !! id = Some p →
  ∃ c, heap w !! p = Some c ∧ clientId c = id.
Proof.
  intros (Hid & _) Hp. specialize (Hid id p Hp). simpl in Hid.
  destruct (heap w !! p) as [c|]; [|done].
  injection Hid as <-. by exists c.
Qed.

Lemma wf_connection w con p :
  registry_wf w → m_client_con_map (reflector w) !! con = Some p →
  ∃ c, heap w !! p = Some c ∧
       m_client_map (reflector w) !! clientId c = Some p.
Proof.
  intros (_ & Hcon & _) Hp. specialize (Hcon con p Hp). simpl in Hcon.
  destruct (heap w !! p) as [c|]; [|done]. by exists c.
Qed.

Lemma NoDup_snd_map_inj {K V : Type} `{Countable K} (m : gmap K V) k1 k2 v :
  NoDup (map_to_list m).*2 →
  m !! k1 = Some v → m !! k2 = Some v → k1 = k2.
Proof.
  intros Hnd H1 H2.
  apply elem_of_map_to_list in H1, H2.
  apply list_elem_of_lookup in H1 as [i1 Hi1].
  apply list_elem_of_lookup in H2 as [i2 Hi2].
  assert (i1 = i2).
  { apply (NoDup_lookup _ i1 i2 v Hnd); rewrite list_lookup_fmap.
    - by rewrite Hi1.
    - by rewrite Hi2. }
  subst i2. congruence.
Qed.

Lemma wf_connection_inj w con con' p :
  registry_wf w →
  m_client_con_map (reflector w) !! con = Some p →
  m_client_con_map (reflector w) !! con' = Some p → con = con'.
Proof. intros (_ & _ & Hnd & _). by apply NoDup_snd_map_inj. Qed.

Lemma wf_clients_live w : registry_wf w → clients_live w.
Proof.
  intros Hwf id p Hp. destruct (wf_registered w id p Hwf Hp) as (c & -> & _).
  by eexists.
Qed.

Lemma wf_task w p :
  registry_wf w → delete_client p ∈ tasks w →
  is_Some (heap w !! p) ∧
  (∀ id, m_client_map (reflector w) !! id ≠ Some p) ∧
  (∀ con, m_client_con_map (reflector w) !! con ≠ Some p).
Proof.
  intros (_ & _ & _ & Htasks & _) Hin.
  rewrite Forall_forall in Htasks. destruct (Htasks _ Hin) as (Hp & Hid & Hcon).
  split; [done|]. split.
  - intros id Hl. by apply (Hid id p Hl).
  - intros con Hl. by apply (Hcon con p Hl).
Qed.

(** The invariant from its parts. *)
Lemma registry_wf_intro w :
  (∀ id p, m_client_map (reflector w) !! id = Some p →
     ∃ c, heap w !! p = Some c ∧ clientId c = id) →
  (∀ con p, m_client_con_map (reflector w) !! con = Some p →
     ∃ c, heap w !! p = Some c ∧
          m_client_map (reflector w) !! clientId c = Some p) →
  NoDup (map_to_list (m_client_con_map (reflector w))).*2 →
  (∀ p, delete_client p ∈ tasks w →
     is_Some (heap w !! p) ∧
     (∀ id, m_client_map (reflector w) !! id ≠ Some p) ∧
     (∀ con, m_client_con_map (reflector w) !! con ≠ Some p)) →
  NoDup (tasks w) →
  registry_wf w.
Proof.
  intros Hid Hcon Hnd Htasks Hndt. split_and!; [| | done | | done].
  - intros id p Hp. simpl. by destruct (Hid id p Hp) as (c & -> & <-).
  - intros con p Hp. simpl. destruct (Hcon con p Hp) as (c & -> & Hc). exact Hc.
  - apply Forall_forall. intros [p] Hin.
    destruct (Htasks p Hin) as (Hp & Hnid & Hncon). split; [done|]. split.
    + intros id q Hq ->. by apply (Hnid id).
    + intros con q Hq ->. by apply (Hncon con).
Qed.

Lemma NoDup_snd_map_insert {K V : Type} `{Countable K} (m : gmap K V) k v :
  m !! k = None → (∀ k', m !! k' ≠ Some v) →
  NoDup (map_to_list m).*2 → NoDup (map_to_list (<[k := v]> m)).*2.
Proof.
  intros Hk Hv Hnd. rewrite map_to_list_insert by done. simpl.
  apply NoDup_cons. split; [|done].
  intros Hin. apply list_elem_of_fmap in Hin as ([k' v'] & -> & Hin).
  apply elem_of_map_to_list in Hin. by apply (Hv k').
Qed.

Lemma NoDup_snd_map_delete {K V : Type} `{Countable K} (m : gmap K V) k :
  NoDup (map_to_list m).*2 → NoDup (map_to_list (delete k m)).*2.
Proof.
  intros Hnd. destruct (m !! k) as [v|] eqn:Hk.
  - rewrite <- (insert_delete_id m k v Hk) in Hnd.
    rewrite map_to_list_insert in Hnd by apply lookup_delete_eq.
    simpl in Hnd. by apply NoDup_cons in Hnd as [_ Hnd].
  - by rewrite delete_id.
Qed.

Lemma clientConnected_wf w con rc_ptr rc :
  registry_wf w →
  heap w !! rc_ptr = None →
  m_client_map (reflector w) !! clientId rc = None →
  m_client_con_map (reflector w) !! con = None →
  registry_wf (clientConnected w con rc_ptr rc).1.
Proof.
  intros Hwf Hfresh Hid Hcon. unfold clientConnected. simpl.
  apply registry_wf_intro; simpl.
  - intros id p Hp. apply lookup_insert_Some in Hp as [[<- <-] | [Hne Hp]].
    + exists rc. by rewrite lookup_insert_eq.
    + destruct (wf_registered w id p Hwf Hp) as (c & Hc & Hcid).
      exists c. split; [|done]. rewrite lookup_insert_ne; [done|].
      intros <-. congruence.
  - intros con' p Hp. apply lookup_insert_Some in Hp as [[<- <-] | [Hne Hp]].
    + exists rc. by rewrite !lookup_insert_eq.
    + destruct (wf_connection w con' p Hwf Hp) as (c & Hc & Hcid).
      exists c. assert (p ≠ rc_ptr) by (intros ->; congruence).
      rewrite lookup_insert_ne by done. split; [done|].
      rewrite lookup_insert_ne; [done|]. intros Heq.
      rewrite <- Heq in Hcid. congruence.
  - apply NoDup_snd_map_insert; [done | | apply Hwf].
    intros con' Hl.
    destruct (wf_connection w con' rc_ptr Hwf Hl) as (c & Hc & _). congruence.
  - intros p Hin. destruct (wf_task w p Hwf Hin) as ([c Hc] & Hnid & Hncon).
    assert (p ≠ rc_ptr) by (intros ->; congruence).
    split; [rewrite lookup_insert_ne by done; by eexists|]. split.
    + intros id Hl. apply lookup_insert_Some in Hl as [[_ ?] | [_ Hl]];
        [done | by apply (Hnid id)].
    + intros con' Hl. apply lookup_insert_Some in Hl as [[_ ?] | [_ Hl]];
        [done | by apply (Hncon con')].
  - apply Hwf.
Qed.

(** X1: a new connection.  When the address of the new object, its
    client id and the connection are not in use, [clientConnected]
    registers the object under both keys, leaves every other entry,
    every other object, the queued tasks and the talkgroup handler as
    they are, and keeps the registry invariant. *)
Theorem clientConnected_registers w con rc_ptr rc :
  registry_wf w →
  heap w !! rc_ptr = None →
  m_client_map (reflector w) !! clientId rc = None →
  m_client_con_map (reflector w) !! con = None →
  let w' := (clientConnected w con rc_ptr rc).1 in
  registry_wf w' ∧
  m_client_map (reflector w') !! clientId rc = Some rc_ptr ∧
  m_client_con_map (reflector w') !! con = Some rc_ptr ∧
  heap w' !! rc_ptr = Some rc ∧
  (∀ id, id ≠ clientId rc →
     m_client_map (reflector w') !! id = m_client_map (reflector w) !! id) ∧
  (∀ con', con' ≠ con →
     m_client_con_map (reflector w') !! con'
     = m_client_con_map (reflector w) !! con') ∧
  (∀ p, p ≠ rc_ptr → heap w' !! p = heap w !! p) ∧
  tasks w' = tasks w ∧ tg_handler w' = tg_handler w.
Proof.
  intros Hwf Hfresh Hid Hcon w'. subst w'.
  split; [by apply clientConnected_wf|].
  unfold clientConnected. simpl. split_and!.
  - apply lookup_insert_eq.
  - apply lookup_insert_eq.
  - apply lookup_insert_eq.
  - intros id Hne. by rewrite lookup_insert_ne.
  - intros con' Hne. by rewrite lookup_insert_ne.
  - intros p Hne. by rewrite lookup_insert_ne.
  - done.
  - done.
Qed.

(* --------------------------------------------------------------------- *)
(** *** What a datagram can change *)


Lemma udp_sequenced_frame w client header ss w' evs :
  udp_sequenced w client header ss = Some (w', evs) →
  reflector w' = reflector w ∧ tasks w' = tasks w ∧
  ∃ c, heap w !! client = Some c ∧
       (heap w' = heap w ∨
        heap w' = <[client := udpMsgReceived header c]> (heap w)).
Proof.
  unfold udp_sequenced. intros Hrun.
  destruct (heap w !! client) as [c|] eqn:Hc; [|done]. simpl in Hrun.
  destruct (_ <? _).
  { injection Hrun as <- <-. split_and!; [done..|]. exists c. auto. }
  destruct (udp_dispatch _ client header ss) as [[w2 evs2]|] eqn:Hd; [|done].
  simpl in Hrun. injection Hrun as <- <-.
  apply udp_dispatch_frame in Hd as [(Hhp & Hr & Ht) _].
  split_and!; [done..|]. exists c. split; [done|]. right. by rewrite Hhp.
Qed.

(** The heap after a datagram: unchanged, or with a new object for the
    client the datagram names. *)
Lemma udpDatagramReceived_heap w addr port buf w' evs :
  udpDatagramReceived w addr port buf = Some (w', evs) →
  reflector w' = reflector w ∧ tasks w' = tasks w ∧
  (heap w' = heap w ∨
   ∃ header ss client c c',
     unpack_header buf = Some (header, ss) ∧
     m_client_map (reflector w) !! hdr_clientId header = Some client ∧
     heap w !! client = Some c ∧ session_kept c c' ∧
     heap w' = <[client := c']> (heap w)).
Proof.
  intros Hrun. unfold udpDatagramReceived in Hrun.
  destruct (unpack_header buf) as [[header ss]|] eqn:Hhdr.
  2:{ injection Hrun as <- <-. auto. }
  destruct (m_client_map (reflector w) !! hdr_clientId header)
    as [client|] eqn:Hid.
  2:{ injection Hrun as <- <-. auto. }
  destruct (heap w !! client) as [c|] eqn:Hc; [|done]. simpl in Hrun.
  case_bool_decide.
  { injection Hrun as <- <-. auto. }
  destruct (Z.eqb_spec (remoteUdpPort c) 0) as [Hz | Hnz].
  - destruct (udp_sequenced _ client header ss) as [[w2 evs2]|] eqn:Hs; [|done].
    simpl in Hrun. injection Hrun as <- <-.
    apply udp_sequenced_frame in Hs as (Hr & Ht & c1 & Hc1 & Hheap).
    rewrite store_client_lookup in Hc1. injection Hc1 as <-.
    simpl in Hr, Ht. split_and!; [done..|]. right.
    destruct Hheap as [Hheap | Hheap].
    + exists header, ss, client, c, (setRemoteUdpPort port c).
      split_and!; [done | done | done | | done].
      unfold session_kept. simpl. split_and!; done.
    + exists header, ss, client, c,
        (udpMsgReceived header (setRemoteUdpPort port c)).
      split_and!; [done | done | done | |].
      * unfold session_kept. simpl. split_and!; done.
      * rewrite Hheap. simpl. apply insert_insert_eq.
  - case_bool_decide.
    { injection Hrun as <- <-. auto. }
    apply udp_sequenced_frame in Hrun as (Hr & Ht & c1 & Hc1 & Hheap).
    assert (c1 = c) as -> by congruence.
    split_and!; [done..|]. destruct Hheap as [Hheap | Hheap]; [by left|].
    right. exists header, ss, client, c, (udpMsgReceived header c).
    split_and!; [done | done | done | | done].
    unfold session_kept. simpl. split_and!; done.
Qed.


(** The registry invariant looks at the heap only through the ids of the
    objects. *)
Lemma registry_wf_frame w w' :
  registry_wf w →
  m_client_map (reflector w') = m_client_map (reflector w) →
  m_client_con_map (reflector w') = m_client_con_map (reflector w) →
  tasks w' = tasks w →
  (∀ p c, heap w !! p = Some c →
     ∃ c', heap w' !! p = Some c' ∧ clientId c' = clientId c) →
  registry_wf w'.
Proof.
  intros Hwf Hm Hcm Ht Hheap. apply registry_wf_intro.
  - rewrite Hm. intros id p Hp.
    destruct (wf_registered w id p Hwf Hp) as (c & Hc & Hcid).
    destruct (Hheap p c Hc) as (c' & Hc' & Hid'). exists c'. split; congruence.
  - rewrite Hm, Hcm. intros con p Hp.
    destruct (wf_connection w con p Hwf Hp) as (c & Hc & Hcid).
    destruct (Hheap p c Hc) as (c' & Hc' & Hid'). exists c'.
    split; [done|]. by rewrite Hid'.
  - rewrite Hcm. apply Hwf.
  - rewrite Hm, Hcm, Ht. intros p Hin.
    destruct (wf_task w p Hwf Hin) as ([c Hc] & Hnid & Hncon).
    destruct (Hheap p c Hc) as (c' & Hc' & _). split; [by eexists|]. done.
  - rewrite Ht. apply Hwf.
Qed.

Lemma udpDatagramReceived_wf w addr port buf w' evs :
  registry_wf w →
  udpDatagramReceived w addr port buf = Some (w', evs) →
  registry_wf w'.
Proof.
  intros Hwf Hrun.
  apply udpDatagramReceived_heap in Hrun as (Hr & Ht & Hheap).
  apply (registry_wf_frame w); [done | by rewrite Hr | by rewrite Hr | done |].
  intros p c0 Hp.
  destruct Hheap as [-> | (header & ss & client & c & c' & _ & _ & Hc
                          & (Hid & _) & ->)]; [eauto|].
  destruct (decide (client = p)) as [<- | Hne].
  - exists c'. rewrite lookup_insert_eq. split; [done|]. congruence.
  - exists c0. by rewrite lookup_insert_ne.
Qed.

(* --------------------------------------------------------------------- *)
(** *** What a disconnect changes *)

Lemma clientDisconnected_inv w con w' evs :
  clientDisconnected w con = Some (w', evs) →
  ∃ client c,
    m_client_con_map (reflector w) !! con = Some client ∧
    heap w !! client = Some c ∧
    reflector w' =
      set_client_maps (delete (clientId c) (m_client_map (reflector w)))
                      (delete con (m_client_con_map (reflector w)))
                      (reflector w) ∧
    heap w' = heap w ∧
    tasks w' = tasks w ++ [delete_client client] ∧
    tg_handler w' = (removeClient (tg_handler w) client).1.
Proof.
  unfold clientDisconnected. intros Hrun.
  destruct (m_client_con_map (reflector w) !! con) as [client|] eqn:Hcon;
    [|done]. simpl in Hrun.
  destruct (call_removeClient w client) as [[w1 evs1]|] eqn:Hrm; [|done].
  simpl in Hrun. apply call_removeClient_inv in Hrm as (-> & _).
  simpl in Hrun.
  destruct (heap w !! client) as [c|] eqn:Hc; [|done]. simpl in Hrun.
  destruct (if bool_decide (callsign c ≠ "") then _ else _) as [evs2|];
    [|done].
  simpl in Hrun. injection Hrun as <- <-. exists client, c. done.
Qed.

Lemma clients_live_delete w id con h :
  clients_live w →
  clients_live
    (set_reflector
       (set_client_maps (delete id (m_client_map (reflector w)))
                        (delete con (m_client_con_map (reflector w)))
                        (reflector w))
       (set_tg_handler h w)).
Proof.
  intros Hlive id' p Hl. simpl in Hl.
  apply lookup_delete_Some in Hl as [_ Hl]. by apply (Hlive id' p).
Qed.

Lemma clientDisconnected_returns w con :
  (∀ (h h' : T) (p : ClientPtr) sigs,
     removeClient h p = (h', sigs) →
     Forall (λ hs : T * TalkerUpdated,
               (tu_old hs.2 = None ∨ tu_old hs.2 = Some p) ∧
               tu_new hs.2 = None) sigs) →
  registry_wf w → is_Some (m_client_con_map (reflector w) !! con) →
  is_Some (clientDisconnected w con).
Proof.
  intros Hsig Hwf [client Hcon]. unfold clientDisconnected.
  rewrite Hcon. simpl.
  destruct (wf_connection w con client Hwf Hcon) as (c & Hc & _).
  destruct (call_removeClient_returns Hsig w client) as [[w1 evs1] Hrm];
    [by apply wf_clients_live | by eexists |].
  rewrite Hrm. simpl. apply call_removeClient_inv in Hrm as (-> & _).
  simpl. rewrite Hc. simpl.
  case_bool_decide; [|by eexists].
  destruct (broadcastMsg_total
              (set_reflector
                 (set_client_maps
                    (delete (clientId c) (m_client_map (reflector w)))
                    (delete con (m_client_con_map (reflector w)))
                    (reflector w))
                 (set_tg_handler (removeClient (tg_handler w) client).1 w))
              (MsgNodeLeft (callsign c)) (ExceptFilter client)) as [evs2 Hbc].
  { apply clients_live_delete. by apply wf_clients_live. }
  unfold set_reflector, set_client_maps, set_tg_handler in *. simpl in *.
  rewrite Hbc. simpl. by eexists.
Qed.

Lemma clientDisconnected_wf w con w' evs :
  registry_wf w →
  clientDisconnected w con = Some (w', evs) →
  registry_wf w'.
Proof.
  intros Hwf Hrun.
  apply clientDisconnected_inv in Hrun
    as (client & c & Hcon & Hc & Hr & Hheap & Ht & _).
  destruct (wf_connection w con client Hwf Hcon) as (c0 & Hc0 & Hreg).
  assert (c0 = c) as -> by congruence.
  assert (Hid_client : ∀ id, m_client_map (reflector w) !! id = Some client →
                             id = clientId c).
  { intros id Hl. destruct (wf_registered w id client Hwf Hl) as (c1 & ? & ?).
    congruence. }
  apply registry_wf_intro; rewrite ?Hr, ?Hheap, ?Ht; simpl.
  - intros id p [_ Hl]%lookup_delete_Some. by apply (wf_registered w).
  - intros con' p [Hne Hl]%lookup_delete_Some.
    destruct (wf_connection w con' p Hwf Hl) as (c1 & Hc1 & Hreg1).
    exists c1. split; [done|]. rewrite lookup_delete_ne; [done|].
    intros Heq. rewrite <- Heq in Hreg1.
    assert (p = client) as -> by congruence.
    by apply Hne, (wf_connection_inj w con con' client).
  - apply NoDup_snd_map_delete, Hwf.
  - intros p [Hin | [= ->]%list_elem_of_singleton]%elem_of_app.
    + destruct (wf_task w p Hwf Hin) as (Hp & Hnid & Hncon).
      split; [done|]. split.
      * intros id [_ Hl]%lookup_delete_Some. by apply (Hnid id).
      * intros con' [_ Hl]%lookup_delete_Some. by apply (Hncon con').
    + split; [by eexists|]. split.
      * intros id [Hne Hl]%lookup_delete_Some.
        apply Hne. symmetry. by apply Hid_client.
      * intros con' [Hne Hl]%lookup_delete_Some.
        by apply Hne, (wf_connection_inj w con con' client).
  - apply NoDup_app. split; [apply Hwf|]. split; [|apply NoDup_singleton].
    intros t Hin ->%list_elem_of_singleton.
    destruct (wf_task w client Hwf Hin) as (_ & _ & Hncon).
    by apply (Hncon con).
Qed.

(* --------------------------------------------------------------------- *)
(** *** What a QSY request changes *)

Lemma requestQsy_returns w client tg :
  clients_live w → is_Some (heap w !! client) →
  ∃ w' evs, requestQsy w client tg = Some (w', evs) ∧
    heap w' = heap w ∧ tasks w' = tasks w ∧ tg_handler w' = tg_handler w ∧
    set_random_qsy_tg (m_random_qsy_tg (reflector w)) (reflector w')
    = reflector w.
Proof.
  intros Hlive Hc. unfold requestQsy.
  assert (Hr : set_random_qsy_tg (m_random_qsy_tg (reflector w)) (reflector w)
               = reflector w) by (by destruct (reflector w)).
  destruct (tg =? 0).
  - destruct (m_random_qsy_tg (reflector w) =? 0).
    { destruct Hc as [c ->]. simpl. by eexists _, _. }
    destruct (random_qsy_scan _ _ _ _ _) as [cursor [tg'|]].
    + destruct (qsy_announce_spec
                  (set_reflector (set_random_qsy_tg cursor (reflector w)) w)
                  client tg') as (evs & -> & _); [done | done |].
      eexists _, _. split; [done|]. split_and!; [done..|].
      simpl. by destruct (reflector w).
    + eexists _, _. split; [done|]. split_and!; [done..|].
      simpl. by destruct (reflector w).
  - destruct (qsy_announce_spec w client tg) as (evs & -> & _); [done..|].
    by eexists _, _.
Qed.

(* --------------------------------------------------------------------- *)
(** *** The queued deletions *)

Lemma run_tasks_frame (ts : list Task) (w0 : World T) :
  let w' := fold_left (λ w' t, run_task t w') ts w0 in
  reflector w' = reflector w0 ∧ tg_handler w' = tg_handler w0 ∧
  tasks w' = tasks w0.
Proof.
  revert w0. induction ts as [|[q] ts IH]; intros w0; simpl; [done|].
  destruct (IH (set_heap (delete q (heap w0)) w0)) as (-> & -> & ->). done.
Qed.

Lemma run_tasks_heap_other (ts : list Task) (w0 : World T) p :
  delete_client p ∉ ts →
  heap (fold_left (λ w' t, run_task t w') ts w0) !! p = heap w0 !! p.
Proof.
  revert w0. induction ts as [|[q] ts IH]; intros w0 Hnin; simpl; [done|].
  apply not_elem_of_cons in Hnin as [Hne Hnin].
  rewrite IH by done. simpl. apply lookup_delete_ne. congruence.
Qed.

Lemma run_tasks_checked_ok (ts : list Task) (w0 : World T) :
  NoDup ts →
  (∀ p, delete_client p ∈ ts → is_Some (heap w0 !! p)) →
  run_tasks_checked ts w0 = Some (fold_left (λ w' t, run_task t w') ts w0).
Proof.
  revert w0. induction ts as [|[q] ts IH]; intros w0 Hnd Hlive; simpl;
    [done|].
  apply NoDup_cons in Hnd as [Hq Hnd].
  destruct (Hlive q) as [c ->]; [apply elem_of_cons; by left|]. simpl.
  apply IH; [done|]. intros p Hin. simpl.
  rewrite lookup_delete_ne by (intros ->; done).
  apply Hlive, elem_of_cons. by right.
Qed.

Lemma run_pending_tasks_wf w :
  registry_wf w →
  run_pending_tasks_checked w = Some (run_pending_tasks w) ∧
  registry_wf (run_pending_tasks w).
Proof.
  intros Hwf. unfold run_pending_tasks_checked, run_pending_tasks.
  destruct (run_tasks_frame (tasks w) (set_tasks [] w)) as (Hr & Hh & Ht).
  simpl in Hr, Hh, Ht.
  assert (Hreg : ∀ id p, m_client_map (reflector w) !! id = Some p →
            heap (fold_left (λ w' t, run_task t w') (tasks w) (set_tasks [] w))
              !! p = heap w !! p).
  { intros id p Hl. rewrite run_tasks_heap_other; [done|]. intros Hin.
    destruct (wf_task w p Hwf Hin) as (_ & Hnid & _). by apply (Hnid id). }
  split.
  - apply run_tasks_checked_ok; [apply Hwf|].
    intros p Hin. by destruct (wf_task w p Hwf Hin) as (Hp & _).
  - apply registry_wf_intro; rewrite ?Hr, ?Ht.
    + intros id p Hl. rewrite (Hreg id) by done. by apply wf_registered.
    + intros con p Hl.
      destruct (wf_connection w con p Hwf Hl) as (c & Hc & Hreg').
      rewrite (Hreg (clientId c)) by done. eauto.
    + apply Hwf.
    + by intros p ?%elem_of_nil.
    + apply NoDup_nil_2.
Qed.

(** X3: the queued deletions.  In a state that satisfies the registry
    invariant an idle iteration of the event loop frees every queued
    client object exactly once: no [delete] meets an address that is not
    allocated.  It empties the queue, frees nothing else, in particular
    no registered client, changes neither the maps nor the talkgroup
    handler, and keeps the invariant. *)
Theorem pending_deletes_run_once w :
  registry_wf w →
  run_pending_tasks_checked w = Some (run_pending_tasks w) ∧
  registry_wf (run_pending_tasks w) ∧
  tasks (run_pending_tasks w) = [] ∧
  reflector (run_pending_tasks w) = reflector w ∧
  tg_handler (run_pending_tasks w) = tg_handler w ∧
  (∀ p, delete_client p ∈ tasks w → heap (run_pending_tasks w) !! p = None) ∧
  (∀ p, delete_client p ∉ tasks w →
        heap (run_pending_tasks w) !! p = heap w !! p) ∧
  (∀ id p, m_client_map (reflector w) !! id = Some p →
           heap (run_pending_tasks w) !! p = heap w !! p).
Proof.
  intros Hwf. destruct (run_pending_tasks_wf w Hwf) as [Hrun Hwf'].
  split; [done|]. split; [done|]. unfold run_pending_tasks.
  destruct (run_tasks_frame (tasks w) (set_tasks [] w)) as (Hr & Hh & Ht).
  simpl in Hr, Hh, Ht.
  split_and!; [done | done | done | | |].
  - intros p Hin. by apply run_tasks_deleted.
  - intros p Hp. by rewrite run_tasks_heap_other.
  - intros id p Hl. rewrite run_tasks_heap_other; [done|]. intros Hin.
    destruct (wf_task w p Hwf Hin) as (_ & Hnid & _). by apply (Hnid id).
Qed.

(* --------------------------------------------------------------------- *)
(** *** The invariant along the event loop *)

Lemma loop_step_wf w ev :
  handler_signals_ok → registry_wf w → loop_event_ok w ev →
  ∃ w', loop_step w ev = Some w' ∧ registry_wf w'.
Proof.
  intros [Hset Hrm] Hwf Hok.
  destruct ev as [con rc_ptr rc | con | addr port buf | client tg |]; simpl.
  - destruct Hok as (Hfresh & Hid & Hcon). eexists. split; [done|].
    by apply clientConnected_wf.
  - destruct (clientDisconnected_returns w con Hrm Hwf Hok) as [[w' evs] Hrun].
    rewrite Hrun. simpl. exists w'. split; [done|].
    by apply (clientDisconnected_wf w con w' evs).
  - destruct (udpDatagramReceived_returns Hset w addr port buf)
      as [[w' evs] Hrun]; [by apply wf_clients_live|].
    rewrite Hrun. simpl. exists w'. split; [done|].
    by apply (udpDatagramReceived_wf w addr port buf w' evs).
  - destruct Hok as [id Hid].
    destruct (wf_registered w id client Hwf Hid) as (c & Hc & _).
    destruct (requestQsy_returns w client tg)
      as (w' & evs & Hrun & Hheap & Ht & _ & Hr);
      [by apply wf_clients_live | by eexists |].
    rewrite Hrun. simpl. exists w'. split; [done|].
    apply (registry_wf_frame w); [done | by rewrite <- Hr | by rewrite <- Hr
                                  | done |].
    rewrite Hheap. eauto.
  - destruct (run_pending_tasks_wf w Hwf) as [-> Hwf'].
    by eexists.
Qed.


(** X4: the registry invariant along the event loop.  When the talkgroup
    handler keeps its contract for the signals it emits, and the
    environment hands the reflector new connections at unused
    addresses, ids and connections, disconnects of registered
    connections, QSY requests of registered clients, and any datagrams
    at all, then every handler returns (no handler reads through a
    pointer that is not allocated, no assertion fails, nothing is freed
    twice) and the state after any number of events satisfies the
    registry invariant again. *)
Theorem registry_invariant w evs :
  handler_signals_ok → registry_wf w → loop_events_ok w evs →
  ∃ w', loop_run w evs = Some w' ∧ registry_wf w'.
Proof.
  intros Hsig. revert w. induction evs as [|ev evs IH]; intros w Hwf Hok.
  - by exists w.
  - destruct Hok as [Hev Hrest].
    destruct (loop_step_wf w ev Hsig Hwf Hev) as (w1 & Hstep & Hwf1).
    simpl. rewrite Hstep in Hrest |- *. simpl. by apply IH.
Qed.

(** X5: a connection that comes and goes.  A client that connects and
    disconnects again leaves the two maps, the QSY cursor and the range
    exactly as they were; the talkgroup handler has been told to remove
    it; its object is queued for deletion behind the tasks already
    pending and is gone after the next idle iteration, which frees no
    object that was not queued. *)
Theorem connect_disconnect_round_trip w con rc_ptr rc :
  handler_signals_ok → registry_wf w →
  heap w !! rc_ptr = None →
  m_client_map (reflector w) !! clientId rc = None →
  m_client_con_map (reflector w) !! con = None →
  ∃ w' evs,
    clientDisconnected (clientConnected w con rc_ptr rc).1 con
    = Some (w', evs) ∧
    reflector w' = reflector w ∧
    tg_handler w' = (removeClient (tg_handler w) rc_ptr).1 ∧
    tasks w' = tasks w ++ [delete_client rc_ptr] ∧
    heap w' = <[rc_ptr := rc]> (heap w) ∧
    registry_wf w' ∧
    heap (run_pending_tasks w') !! rc_ptr = None ∧
    (∀ p, delete_client p ∉ tasks w → p ≠ rc_ptr →
          heap (run_pending_tasks w') !! p = heap w !! p).
Proof.
  intros [_ Hrm] Hwf Hfresh Hid Hcon.
  pose proof (clientConnected_wf w con rc_ptr rc Hwf Hfresh Hid Hcon) as Hwf1.
  destruct (clientDisconnected_returns (clientConnected w con rc_ptr rc).1
              con Hrm Hwf1) as [[w' evs] Hrun].
  { unfold clientConnected. simpl. rewrite lookup_insert_eq. by eexists. }
  exists w', evs. split; [done|].
  pose proof (clientDisconnected_wf _ _ _ _ Hwf1 Hrun) as Hwf'.
  apply clientDisconnected_inv in Hrun
    as (client & c & Hl & Hc & Hr & Hheap & Ht & Hh).
  unfold clientConnected in Hl, Hc, Hr, Hheap, Ht, Hh. simpl in *.
  rewrite lookup_insert_eq in Hl. injection Hl as <-.
  rewrite lookup_insert_eq in Hc. injection Hc as <-.
  split_and!; [| done | done | done | done | |].
  - rewrite Hr. unfold set_client_maps. simpl.
    rewrite !delete_insert_id by done. by destruct (reflector w).
  - unfold run_pending_tasks. apply run_tasks_deleted. rewrite Ht.
    apply elem_of_app. right. by apply list_elem_of_singleton.
  - intros p Hp Hne. unfold run_pending_tasks.
    rewrite run_tasks_heap_other.
    + simpl. rewrite Hheap. by apply lookup_insert_ne.
    + rewrite Ht. intros [Hin | [= ->]%list_elem_of_singleton]%elem_of_app;
        done.
Qed.

(* --------------------------------------------------------------------- *)
(** *** Datagrams in sequence *)

(** X6: the return address.  After a datagram that passes the source
    checks, whether it is then accepted or dropped as out of sequence,
    [sendUdpDatagram] sends to its client at the address and the port
    the datagram came from. *)
Theorem reply_goes_to_datagram_source
    w addr port buf client c header ss w' evs reply :
  source_checked w addr port buf client c header ss →
  udpDatagramReceived w addr port buf = Some (w', evs) →
  sendUdpDatagram w' client reply = Some (addr, port, reply).
Proof.
  intros Hsrc Hrun.
  rewrite (udpDatagramReceived_checked _ _ _ _ _ _ _ _ Hsrc) in Hrun.
  destruct Hsrc as (Hhdr & Hid & Hc & -> & Hport).
  unfold sendUdpDatagram.
  destruct (Z.eqb_spec (remoteUdpPort c) 0) as [Hz | Hnz].
  - destruct (udp_sequenced _ client header ss) as [[w2 evs2]|] eqn:Hs; [|done].
    simpl in Hrun. injection Hrun as <- <-.
    apply udp_sequenced_frame in Hs as (_ & _ & c1 & Hc1 & Hheap).
    rewrite store_client_lookup in Hc1. injection Hc1 as <-.
    destruct Hheap as [-> | ->].
    + by rewrite store_client_lookup.
    + by rewrite lookup_insert_eq.
  - destruct Hport as [? | ->]; [done|].
    apply udp_sequenced_frame in Hrun as (_ & _ & c1 & Hc1 & Hheap).
    assert (c1 = c) as -> by congruence.
    destruct Hheap as [-> | ->].
    + by rewrite Hc.
    + by rewrite lookup_insert_eq.
Qed.



(* --------------------------------------------------------------------- *)
(** *** Who reaches the talkgroup handler *)





(* --------------------------------------------------------------------- *)
(** *** The order of a broadcast *)

Lemma client_map_entries_sorted (m : gmap Z ClientPtr) :
  StronglySorted (λ a b : Z * ClientPtr, a.1 < b.1) (client_map_entries m).
Proof.
  unfold client_map_entries.
  assert (Htrans : Transitive entry_le)
    by (intros a b d; unfold entry_le; lia).
  assert (Htotal : Total entry_le)
    by (intros a b; unfold entry_le; lia).
  pose proof (@StronglySorted_merge_sort _ entry_le _ Htrans Htotal
                (map_to_list m)) as Hsorted.
  assert (Hnd : NoDup (merge_sort entry_le (map_to_list m)).*1).
  { rewrite merge_sort_Permutation. apply NoDup_fst_map_to_list. }
  induction Hsorted as [|a l Hl IH Ha]; [constructor|].
  simpl in Hnd. apply NoDup_cons in Hnd as [Hnin Hnd].
  constructor; [by apply IH|].
  apply Forall_forall. intros b Hb.
  rewrite Forall_forall in Ha. specialize (Ha b Hb). unfold entry_le in Ha.
  assert (a.1 ≠ b.1).
  { intros Heq. apply Hnin. rewrite Heq. apply list_elem_of_fmap. eauto. }
  lia.
Qed.

Lemma StronglySorted_filter {A} (R : relation A) (f : A → bool) l :
  StronglySorted R l → StronglySorted R (List.filter f l).
Proof.
  induction 1 as [|a l Hl IH Ha]; simpl; [constructor|].
  destruct (f a); [|done]. constructor; [done|].
  apply Forall_forall. intros b Hb%list_elem_of_In%filter_In.
  destruct Hb as [Hb%list_elem_of_In _].
  rewrite Forall_forall in Ha. by apply Ha.
Qed.

Lemma NoDup_list_filter {A} (f : A → bool) l :
  NoDup l → NoDup (List.filter f l).
Proof.
  induction 1 as [|a l Hnin Hl IH]; simpl; [constructor|].
  destruct (f a); [|done]. constructor; [|done].
  intros Hin%list_elem_of_In%filter_In.
  destruct Hin as [Hin%list_elem_of_In _]. done.
Qed.

Lemma broadcast_loop_filter w filter send entries :
  Forall (λ e : Z * ClientPtr, is_Some (heap w !! e.2)) entries →
  broadcast_loop w filter send entries =
    Some ((λ e : Z * ClientPtr, send e.2) <$>
          List.filter
            (λ e : Z * ClientPtr,
               match heap w !! e.2 with
               | Some c => filter_holds (tg_handler w) filter e.2 c &&
                           bool_decide (conState c = STATE_CONNECTED)
               | None => false
               end) entries).
Proof.
  induction 1 as [|[id p] rest [c Hp] _ IH]; simpl; [done|].
  simpl in Hp. rewrite Hp, IH. simpl.
  by destruct (filter_holds (tg_handler w) filter p c &&
               bool_decide (conState c = STATE_CONNECTED)).
Qed.

Lemma elem_of_broadcast_recipients w filter id to :
  (id, to) ∈ broadcast_recipients w filter ↔
  m_client_map (reflector w) !! id = Some to ∧
  ∃ c, heap w !! to = Some c ∧
       filter_holds (tg_handler w) filter to c = true ∧
       conState c = STATE_CONNECTED.
Proof.
  unfold broadcast_recipients.
  rewrite list_elem_of_In, filter_In, <- list_elem_of_In,
    elem_of_client_map_entries. simpl.
  split.
  - intros [Hid Hf]. split; [done|].
    destruct (heap w !! to) as [c|]; [|done].
    apply andb_true_iff in Hf as [Hf Hst%bool_decide_eq_true]. eauto.
  - intros [Hid (c & -> & Hf & Hst)]. split; [done|].
    rewrite Hf. by apply bool_decide_eq_true_2.
Qed.

(** X9: the order of a broadcast.  In a state that satisfies the
    registry invariant, [broadcastMsg] and [broadcastUdpMsg] send to the
    registered and connected clients that the filter accepts, in
    ascending order of their client ids, and to each of them exactly
    once: the trace is the list of recipients, which is strictly sorted
    by id and names no client twice. *)
Theorem broadcast_once_in_id_order w filter msg umsg :
  registry_wf w →
  broadcastMsg w msg filter =
    Some ((λ e : Z * ClientPtr, SendMsg e.2 msg) <$>
          broadcast_recipients w filter) ∧
  broadcastUdpMsg w umsg filter =
    Some ((λ e : Z * ClientPtr, SendUdpMsg e.2 umsg) <$>
          broadcast_recipients w filter) ∧
  StronglySorted (λ a b : Z * ClientPtr, a.1 < b.1)
    (broadcast_recipients w filter) ∧
  NoDup (broadcast_recipients w filter).*2 ∧
  ∀ id to, (id, to) ∈ broadcast_recipients w filter ↔
    m_client_map (reflector w) !! id = Some to ∧
    ∃ c, heap w !! to = Some c ∧
         filter_holds (tg_handler w) filter to c = true ∧
         conState c = STATE_CONNECTED.
Proof.
  intros Hwf.
  pose proof (clients_live_entries w (wf_clients_live w Hwf)) as Hlive.
  split_and!.
  - unfold broadcastMsg. by rewrite broadcast_loop_filter.
  - unfold broadcastUdpMsg. by rewrite broadcast_loop_filter.
  - apply StronglySorted_filter, client_map_entries_sorted.
  - apply NoDup_fmap_2_strong.
    + intros [id1 p1] [id2 p2]
        [Hin1 _]%elem_of_broadcast_recipients
        [Hin2 _]%elem_of_broadcast_recipients Heq.
      simpl in Heq. subst p2.
      destruct (wf_registered w id1 p1 Hwf Hin1) as (c1 & Hc1 & <-).
      destruct (wf_registered w id2 p1 Hwf Hin2) as (c2 & Hc2 & <-).
      congruence.
    + unfold broadcast_recipients. apply NoDup_list_filter.
      unfold client_map_entries. rewrite merge_sort_Permutation.
      apply NoDup_map_to_list.
  - apply elem_of_broadcast_recipients.
Qed.

(* --------------------------------------------------------------------- *)
(** *** The list of nodes *)

Lemma nodeList_loop_spec w entries :
  Forall (λ e : Z * ClientPtr, is_Some (heap w !! e.2)) entries →
  ∃ nodes, nodeList_loop w entries = Some nodes ∧
    (length nodes ≤ length entries)%nat ∧
    ∀ cs, cs ∈ nodes ↔
      cs ≠ "" ∧ ∃ id p c, (id, p) ∈ entries ∧ heap w !! p = Some c ∧
                          callsign c = cs.
Proof.
  induction 1 as [|[id p] rest [c Hp] _ (nodes & IH & Hlen & Hin)]; simpl.
  - exists []. split; [done|]. split; [done|]. intros cs. split.
    + by intros ?%elem_of_nil.
    + by intros (_ & ? & ? & ? & ?%elem_of_nil & _).
  - simpl in Hp. rewrite Hp, IH. simpl. eexists. split; [done|].
    case_bool_decide as Hcs.
    + split; [simpl; lia|]. intros cs. rewrite elem_of_cons, Hin. split.
      * intros [-> | (Hne & id' & p' & c' & Hin' & Hc' & Heq)].
        -- split; [done|]. exists id, p, c. split; [by left|]. done.
        -- split; [done|]. exists id', p', c'. split; [by right|]. done.
      * intros (Hne & id' & p' & c' & Hin' & Hc' & Heq).
        apply elem_of_cons in Hin' as [[= -> ->] | Hin'].
        -- left. congruence.
        -- right. eauto 10.
    + split; [lia|]. intros cs. rewrite Hin. split.
      * intros (Hne & id' & p' & c' & Hin' & Hc' & Heq).
        split; [done|]. exists id', p', c'. split; [by right|]. done.
      * intros (Hne & id' & p' & c' & Hin' & Hc' & Heq).
        apply elem_of_cons in Hin' as [[= -> ->] | Hin'].
        -- destruct Hcs. congruence.
        -- eauto 10.
Qed.

(** X10: the list of nodes.  With the registered clients allocated,
    [nodeList] returns exactly the callsigns of the registered clients
    that are not empty, whatever the connection state of the client,
    and never more names than there are registered clients. *)
Theorem nodeList_callsigns w :
  clients_live w →
  ∃ nodes, nodeList w = Some nodes ∧
    (length nodes ≤ size (m_client_map (reflector w)))%nat ∧
    ∀ cs, cs ∈ nodes ↔
      cs ≠ "" ∧ ∃ id p c, m_client_map (reflector w) !! id = Some p ∧
                          heap w !! p = Some c ∧ callsign c = cs.
Proof.
  intros Hlive. unfold nodeList.
  destruct (nodeList_loop_spec w _ (clients_live_entries w Hlive))
    as (nodes & -> & Hlen & Hin).
  exists nodes. split; [done|]. split.
  - unfold client_map_entries in Hlen.
    by rewrite merge_sort_Permutation, length_map_to_list in Hlen.
  - intros cs. rewrite Hin. split.
    + intros (Hne & id & p & c & Hin'%elem_of_client_map_entries & Hrest).
      eauto 10.
    + intros (Hne & id & p & c & Hin'%elem_of_client_map_entries & Hrest).
      eauto 10.
Qed.

(* --------------------------------------------------------------------- *)
(** *** QSY requests *)

Lemma qsy_announce_events w client tg w' evs :
  qsy_announce w client tg = Some (w', evs) →
  w' = w ∧
  ∀ e, e ∈ evs →
    e = Log (LogRequestingQsy (TGForClient (tg_handler w) client) tg) ∨
    ∃ to, e = SendMsg to (MsgRequestQsy tg) ∧
          receives w (mkAndFilter v2_client_filter
                        (TgFilter (TGForClient (tg_handler w) client))) to.
Proof.
  unfold qsy_announce. intros Hrun.
  destruct (heap w !! client) as [c|]; [|done]. simpl in Hrun.
  destruct (broadcastMsg w _ _) as [bc|] eqn:Hbc; [|done].
  simpl in Hrun. injection Hrun as <- <-. split; [done|].
  intros e [-> | He]%elem_of_cons; [by left|]. right.
  by apply (broadcastMsg_elem _ _ _ _ _ Hbc).
Qed.


Lemma random_qsy_rotate_back lo hi cursor k :
  lo ≤ cursor ≤ hi → hi < 2 ^ 32 → 0 ≤ lo →
  (k < Z.to_nat (hi - lo + 1))%nat →
  random_qsy_rotate lo hi (S k) cursor = cursor →
  Z.of_nat k = hi - lo.
Proof.
  intros Hc Hhi Hlo Hk Hback.
  rewrite random_qsy_rotate_closed in Hback by done.
  remember (hi - lo + 1) as size eqn:Hsize.
  remember (cursor - lo) as a eqn:Ha.
  assert (Hmod : (a + Z.of_nat (S k)) mod size = a) by lia.
  destruct (Z.lt_ge_cases (a + Z.of_nat (S k)) size) as [Hlt | Hge].
  - rewrite Z.mod_small in Hmod by lia. lia.
  - replace (a + Z.of_nat (S k))
      with ((a + Z.of_nat (S k) - size) + 1 * size) in Hmod by lia.
    rewrite Z_mod_plus_full, Z.mod_small in Hmod by lia. lia.
Qed.

(** X12: no talkgroup twice in a row.  With a legal range, the cursor
    of the random QSY allocator is after a request where it was before
    the request only when every other talkgroup of the range has
    members: the talkgroup allocated last is the last one to be
    allocated again. *)
Theorem random_qsy_no_immediate_reuse w client w' evs :
  random_qsy_ready (reflector w) →
  requestQsy w client 0 = Some (w', evs) →
  m_random_qsy_tg (reflector w') = m_random_qsy_tg (reflector w) →
  ∀ t, m_random_qsy_lo (reflector w) ≤ t ≤ m_random_qsy_hi (reflector w) →
       t ≠ m_random_qsy_tg (reflector w) →
       clientsForTG (tg_handler w) t ≠ ∅.
Proof.
  intros (Hlo & Hcl & Hch & Hhi) Hrun Hsame t Ht Hne.
  unfold requestQsy in Hrun. simpl in Hrun.
  destruct (Z.eqb_spec (m_random_qsy_tg (reflector w)) 0) as [Hz | _];
    [lia|].
  remember (m_random_qsy_lo (reflector w)) as lo eqn:Hlo_eq.
  remember (m_random_qsy_hi (reflector w)) as hi eqn:Hhi_eq.
  remember (m_random_qsy_tg (reflector w)) as cursor eqn:Hcur_eq.
  assert (Hsize : wrap32 (hi - lo + 1) = hi - lo + 1).
  { unfold wrap32. change (2 ^ 32) with 4294967296 in Hhi.
    apply Z.mod_small. lia. }
  rewrite Hsize in Hrun.
  pose proof (random_qsy_scan_spec (tg_handler w) lo hi
                (Z.to_nat (hi - lo + 1)) cursor) as Hscan.
  destruct (random_qsy_rotate_covers lo hi cursor t) as (k' & Hk' & Hrot');
    [lia | done | lia | done |].
  destruct (random_qsy_scan (tg_handler w) lo hi (Z.to_nat (hi - lo + 1))
              cursor) as [cursor' [tg'|]].
  - destruct Hscan as (-> & Hempty & k & Hk & Hrot & Hbefore).
    apply qsy_announce_events in Hrun as [-> _]. simpl in Hsame.
    rewrite <- Hrot'. apply Hbefore.
    assert (Z.of_nat k = hi - lo).
    { apply (random_qsy_rotate_back lo hi cursor); [lia | done | lia | done |].
      congruence. }
    assert (k' ≠ k) by (intros ->; congruence). lia.
  - destruct Hscan as (_ & Hall). rewrite <- Hrot'. by apply Hall.
Qed.

End RegistryProperties.

(* ===================================================================== *)
(** ** More on the signal level squelch *)

Section MoreSquelchProperties.
Context {Squelch SigLev Config Sample : Type}.
Variable Squelch_initialize : Squelch → Config → string → Squelch * bool.
Variable getValue : Config → string → string → option string.
Variable atoi : string → Z.
Variable Squelch_reset : Squelch → Squelch.
Variable setOpen : bool → Squelch → Squelch.
Variable siglev_ge : SigLev → Z → bool.
Variable siglev_lt : SigLev → Z → bool.

(** X13: a steady level.  When the two comparisons are those of an
    ordered signal level ([>=] is the negation of [<], and [<] is
    monotone in the threshold) and the closing threshold is not above
    the opening threshold, the squelch settles in one call: a second
    call with the same signal level changes nothing and does not call
    [setOpen]. *)
Theorem squelch_settles (sq : SquelchSigLev.t Squelch) (lastSiglev : SigLev)
    (samples samples' : list Sample) (count count' : Z) :
  (∀ l t, siglev_ge l t = negb (siglev_lt l t)) →
  (∀ l t t', t ≤ t' → siglev_lt l t = true → siglev_lt l t' = true) →
  SquelchSigLev.close_thresh sq ≤ SquelchSigLev.open_thresh sq →
  let sq' := (SquelchSigLev.processSamples setOpen siglev_ge siglev_lt
                sq lastSiglev samples count).1 in
  SquelchSigLev.processSamples setOpen siglev_ge siglev_lt
    sq' lastSiglev samples' count' = (sq', count').
Proof.
  intros Hge Hmono Hthresh. unfold SquelchSigLev.processSamples.
  destruct sq as [b ot ct [|]]; simpl in *.
  - destruct (siglev_lt lastSiglev ct) eqn:Hlt; simpl.
    + rewrite Hge, (Hmono lastSiglev ct ot Hthresh Hlt). done.
    + by rewrite Hlt.
  - destruct (siglev_ge lastSiglev ot) eqn:Hopen; simpl.
    + destruct (siglev_lt lastSiglev ct) eqn:Hlt; [|done].
      rewrite Hge, (Hmono lastSiglev ct ot Hthresh Hlt) in Hopen. done.
    + by rewrite Hopen.
Qed.

(** X14: inverted thresholds.  When the signal level is at least the
    opening threshold and below the closing threshold, which takes a
    closing threshold above the opening one, every call toggles the
    squelch and tells the base class so. *)
Theorem squelch_chatters (sq : SquelchSigLev.t Squelch) (lastSiglev : SigLev)
    (samples : list Sample) (count : Z) :
  siglev_ge lastSiglev (SquelchSigLev.open_thresh sq) = true →
  siglev_lt lastSiglev (SquelchSigLev.close_thresh sq) = true →
  let sq' := (SquelchSigLev.processSamples setOpen siglev_ge siglev_lt
                sq lastSiglev samples count).1 in
  SquelchSigLev.is_open sq' = negb (SquelchSigLev.is_open sq) ∧
  SquelchSigLev.base sq' =
    setOpen (negb (SquelchSigLev.is_open sq)) (SquelchSigLev.base sq) ∧
  siglev_ge lastSiglev (SquelchSigLev.open_thresh sq') = true ∧
  siglev_lt lastSiglev (SquelchSigLev.close_thresh sq') = true.
Proof.
  intros Hopen Hclose. unfold SquelchSigLev.processSamples.
  destruct sq as [b ot ct [|]]; simpl in *.
  - rewrite Hclose. done.
  - rewrite Hopen. done.
Qed.

(** X15: what [initialize] leaves behind.  [initialize] succeeds exactly
    when the base class initialises and both thresholds are set in the
    configuration, and then the thresholds are the numbers [atoi] reads
    from the two values.  It never changes [is_open], and the closing
    threshold changes only on success; but when only the closing
    threshold is missing, the call fails with the opening threshold
    already replaced. *)
Theorem initialize_outcome (sq : SquelchSigLev.t Squelch) (cfg : Config)
    (rx_name : string) :
  let res := SquelchSigLevMore.initialize Squelch_initialize getValue atoi
               sq cfg rx_name in
  let sq' := res.1.1 in
  let ok := res.1.2 in
  let base_init := Squelch_initialize (SquelchSigLev.base sq) cfg rx_name in
  let open_value := getValue cfg rx_name "SIGLEV_OPEN_THRESH" in
  let close_value := getValue cfg rx_name "SIGLEV_CLOSE_THRESH" in
  (ok = true ↔
     base_init.2 = true ∧ is_Some open_value ∧ is_Some close_value) ∧
  SquelchSigLev.is_open sq' = SquelchSigLev.is_open sq ∧
  SquelchSigLev.base sq' = base_init.1 ∧
  (ok = true →
     Some (SquelchSigLev.open_thresh sq') = atoi <$> open_value ∧
     Some (SquelchSigLev.close_thresh sq') = atoi <$> close_value ∧
     res.2 = []) ∧
  (ok = false →
     SquelchSigLev.close_thresh sq' = SquelchSigLev.close_thresh sq ∧
     res.2 =
       if negb base_init.2 then []
       else if open_value is None then [SquelchSigLevMore.LogOpenThreshNotSet]
       else [SquelchSigLevMore.LogCloseThreshNotSet]) ∧
  (base_init.2 = true → close_value = None →
     ∀ v, open_value = Some v →
          ok = false ∧ SquelchSigLev.open_thresh sq' = atoi v) ∧
  (base_init.2 = false ∨ open_value = None →
     SquelchSigLev.open_thresh sq' = SquelchSigLev.open_thresh sq).
Proof.
  unfold SquelchSigLevMore.initialize. simpl.
  destruct (Squelch_initialize (SquelchSigLev.base sq) cfg rx_name)
    as [b [|]]; simpl.
  - destruct (getValue cfg rx_name "SIGLEV_OPEN_THRESH") as [vo|]; simpl.
    + destruct (getValue cfg rx_name "SIGLEV_CLOSE_THRESH") as [vc|]; simpl.
      * split_and!; [| done | done | done | done | done |].
        -- split; [intros _|done]. split_and!; [done | by eexists..].
        -- intros [? | ?]; done.
      * split_and!; [| done | done | done | done | |].
        -- split; [done|]. by intros (_ & _ & [? ?]).
        -- intros _ _ v [= <-]. done.
        -- intros [? | ?]; done.
    + split_and!; [| done | done | done | done | done | done].
      split; [done|]. by intros (_ & [? ?] & _).
  - split_and!; [| done | done | done | done | done | done].
    split; [done|]. by intros (? & _).
Qed.

End MoreSquelchProperties.

(** The squelch over a base class that records its calls. *)
Section SquelchLogProperties.
Context {SigLev : Type}.
Variable siglev_ge : SigLev → Z → bool.
Variable siglev_lt : SigLev → Z → bool.
Implicit Types (sq : SquelchSigLev.t SquelchSigLevMore.BaseLog).

Lemma call_alternating sq (c : SquelchSigLevMore.Call SigLev) :
  let sq' := MoreExamples.logged_call siglev_ge siglev_lt sq c in
  SquelchSigLevMore.alternating (SquelchSigLev.base sq)
    (SquelchSigLev.is_open sq) →
  SquelchSigLevMore.alternating (SquelchSigLev.base sq')
    (SquelchSigLev.is_open sq') ∧
  SquelchSigLev.open_thresh sq' = SquelchSigLev.open_thresh sq ∧
  SquelchSigLev.close_thresh sq' = SquelchSigLev.close_thresh sq.
Proof.
  intros sq' Halt. subst sq'.
  unfold MoreExamples.logged_call. destruct c as [l count|]; simpl.
  - unfold SquelchSigLev.processSamples.
    destruct sq as [b ot ct [|]]; simpl in *.
    + destruct (siglev_lt l ct); simpl; [|done].
      split; [|done]. by apply SquelchSigLevMore.alternating_close.
    + destruct (siglev_ge l ot); simpl; [|done].
      split; [|done]. by apply SquelchSigLevMore.alternating_open.
  - split; [|done]. by eapply SquelchSigLevMore.alternating_reset.
Qed.

Lemma calls_alternating (cs : list (SquelchSigLevMore.Call SigLev)) sq :
  let sq' := MoreExamples.logged_calls siglev_ge siglev_lt sq cs in
  SquelchSigLevMore.alternating (SquelchSigLev.base sq)
    (SquelchSigLev.is_open sq) →
  SquelchSigLevMore.alternating (SquelchSigLev.base sq')
    (SquelchSigLev.is_open sq') ∧
  SquelchSigLev.open_thresh sq' = SquelchSigLev.open_thresh sq ∧
  SquelchSigLev.close_thresh sq' = SquelchSigLev.close_thresh sq.
Proof.
  revert sq. induction cs as [|c cs IH]; intros sq sq' Halt; [done|].
  destruct (call_alternating sq c Halt) as (Halt1 & Hot & Hct).
  destruct (IH (MoreExamples.logged_call siglev_ge siglev_lt sq c) Halt1)
    as (Halt2 & Hot2 & Hct2).
  subst sq'.
  change (MoreExamples.logged_calls siglev_ge siglev_lt sq (c :: cs))
    with (MoreExamples.logged_calls siglev_ge siglev_lt
            (MoreExamples.logged_call siglev_ge siglev_lt sq c) cs).
  split; [done|]. split; congruence.
Qed.

(** X16: the calls that reach the base class.  Whatever sequence of
    [processSamples] and [reset] calls a squelch receives after its
    construction, and whatever the signal levels and the thresholds
    are, the base class is told [setOpen(true)] and [setOpen(false)] in
    strict alternation, beginning with [setOpen(true)] after the
    construction and after every reset; [is_open] is what the base
    class was told last; and the thresholds stay what they were. *)
Theorem setOpen_calls_alternate (b_open b_close : Z)
    (cs : list (SquelchSigLevMore.Call SigLev)) :
  let sq := MoreExamples.logged_calls siglev_ge siglev_lt
              (SquelchSigLev.create [] b_open b_close) cs in
  SquelchSigLevMore.alternating (SquelchSigLev.base sq)
    (SquelchSigLev.is_open sq) ∧
  SquelchSigLev.open_thresh sq = b_open ∧
  SquelchSigLev.close_thresh sq = b_close.
Proof.
  apply (calls_alternating cs (SquelchSigLev.create [] b_open b_close)).
  apply SquelchSigLevMore.alternating_nil.
Qed.

End SquelchLogProperties.


(* ===================================================================== *)
(** ** The handler of the design document *)

(** Under the arbitration rules of the design document a request to
    talk on a talkgroup that another client holds changes nothing and
    emits nothing, so the call that the reflector leaves out in that
    case would have had no effect. *)
Lemma spec_setTalkerForTG_signals (h h' : SpecModel.TG) tg c sigs :
  SpecModel.setTalkerForTG h tg c = (h', sigs) →
  Forall (λ hs : SpecModel.TG * TalkerUpdated,
            (tu_old hs.2 = None ∨ tu_old hs.2 = SpecModel.talkerForTG h tg) ∧
            (tu_new hs.2 = None ∨ tu_new hs.2 = c)) sigs.
Proof.
  unfold SpecModel.setTalkerForTG.
  destruct c as [c|], (SpecModel.talkerForTG h tg) as [cur|];
    try case_bool_decide; cbv zeta; intros [= <- <-];
    repeat first [apply Forall_nil_2 | apply Forall_cons_2; [split|]];
    simpl; auto.
Qed.

(** With the handler of the design document the datagram handler
    returns for every datagram, in every state whose registered clients
    are allocated. *)
Lemma spec_udpDatagramReceived_returns `{!UdpCodec}
    (w : World SpecModel.TG) addr port buf :
  clients_live w → is_Some (udpDatagramReceived w addr port buf).
Proof.
  apply udpDatagramReceived_returns. apply spec_setTalkerForTG_signals.
Qed.

Lemma spec_removeClient_signals (h h' : SpecModel.TG) c sigs :
  SpecModel.removeClient h c = (h', sigs) →
  Forall (λ hs : SpecModel.TG * TalkerUpdated,
            (tu_old hs.2 = None ∨ tu_old hs.2 = Some c) ∧
            tu_new hs.2 = None) sigs.
Proof.
  unfold SpecModel.removeClient, SpecModel.leave.
  case_bool_decide as Htalker.
  - unfold SpecModel.setTalkerForTG. rewrite Htalker. cbv zeta.
    intros [= <- <-]. apply Forall_cons_2; [|apply Forall_nil_2].
    simpl. auto.
  - intros [= <- <-]. apply Forall_nil_2.
Qed.

(** With the handler of the design document the call of
    [removeClient] in [clientDisconnected] returns. *)
Lemma spec_call_removeClient_returns (w : World SpecModel.TG) client :
  clients_live w → is_Some (heap w !! client) →
  is_Some (call_removeClient w client).
Proof.
  apply call_removeClient_returns, spec_removeClient_signals.
Qed.

Lemma spec_preemption_refused (h : SpecModel.TG) tg c other :
  SpecModel.talkerForTG h tg = Some other → other ≠ c →
  SpecModel.setTalkerForTG h tg (Some c) = (h, []).
Proof.
  intros Htalker Hne. unfold SpecModel.setTalkerForTG. rewrite Htalker.
  rewrite bool_decide_eq_false_2; [done | congruence].
Qed.

(* ===================================================================== *)
(** ** The properties on the example states *)

Import Examples.

Ltac by_computation := apply (bool_decide_unpack _); vm_compute; exact I.

Ltac neq_by_computation :=
  let H := fresh in intros H; vm_compute in H; discriminate H.

Ltac source_checked_by_computation :=
  repeat split; first [reflexivity | by right | by left].

(** Bob sends audio while Alice is the talker of talkgroup 42: the
    datagram is forwarded to his session and dropped, and the talkgroup
    handler is not called. *)
Lemma audio_rule_as_stated_fails : ¬ audio_rule_as_stated.
Proof.
  intros Hrule.
  destruct (Hrule w_alice_talks
              (accepted_world w_alice_talks p_bob bob 5302
                 (mkUdpHeader TYPE_MsgUdpAudio 11 0))
              1002 5302 (audio_datagram 0 11) p_bob bob
              (mkUdpHeader TYPE_MsgUdpAudio 11 0) [3; 0; 7; 8; 9]
              [UdpMsgReceived p_bob (mkUdpHeader TYPE_MsgUdpAudio 11 0)]
              [7; 8; 9]) as [_ Hcall].
  - split; [source_checked_by_computation | by vm_compute].
  - reflexivity.
  - vm_compute. reflexivity.
  - reflexivity.
  - destruct Hcall as [Hin _]; [done | neq_by_computation | done |].
    apply list_elem_of_singleton in Hin. discriminate Hin.
Qed.

Lemma audio_datagram_relay_witness :
  validated w_idle 1001 5301 (audio_datagram 0 10) p_alice alice
    (mkUdpHeader TYPE_MsgUdpAudio 10 0) [3; 0; 7; 8; 9] ∧
  ∃ w' evs,
    udpDatagramReceived w_idle 1001 5301 (audio_datagram 0 10)
    = Some (w', evs) ∧
    CallSetTalkerForTG 42 (Some p_alice) ∈ evs ∧
    (∀ to d, SendUdpMsg to (MsgUdpAudio d) ∈ evs ↔
       SpecModel.talkerForTG
         (SpecModel.setTalkerForTG tg_idle 42 (Some p_alice)).1 42
       = Some p_alice ∧
       d = [7; 8; 9] ∧
       receives w' (mkAndFilter (ExceptFilter p_alice) (TgFilter 42)) to).
Proof.
  assert (Hval : validated w_idle 1001 5301 (audio_datagram 0 10) p_alice
                   alice (mkUdpHeader TYPE_MsgUdpAudio 10 0) [3; 0; 7; 8; 9]).
  { split; [source_checked_by_computation | by vm_compute]. }
  split; [exact Hval|].
  destruct (audio_datagram_relay w_idle 1001 5301 (audio_datagram 0 10)
              p_alice alice (mkUdpHeader TYPE_MsgUdpAudio 10 0)
              [3; 0; 7; 8; 9] Hval eq_refl) as (_ & _ & Hrelay).
  destruct (Hrelay [7; 8; 9] eq_refl eq_refl) as (_ & _ & Hgo).
  destruct Hgo as [Htotal Hprop]; [done | neq_by_computation | by left |].
  destruct Htotal as [[w' evs] Hrun];
    [by_computation | vm_compute; by eexists | vm_compute; by eexists |].
  exists w', evs. split; [done|].
  destruct (Hprop w' evs Hrun) as (Hcall & Haudio & _). by split.
Defined.

Lemma broadcast_reaches_only_connected_witness :
  clients_live w_idle ∧
  ∃ evs uevs,
    broadcastMsg w_idle (MsgNodeLeft "V") (ExceptFilter p_vera) = Some evs ∧
    broadcastUdpMsg w_idle MsgUdpFlushSamples (ExceptFilter p_vera)
    = Some uevs ∧
    (SendMsg p_hank (MsgNodeLeft "V") ∉ evs) ∧
    (SendUdpMsg p_hank MsgUdpFlushSamples ∉ uevs).
Proof.
  split; [by_computation|].
  destruct (broadcast_reaches_only_connected w_idle (ExceptFilter p_vera)
              (MsgNodeLeft "V") MsgUdpFlushSamples)
    as (evs & uevs & H1 & H2 & _ & _ & Hearlier); [by_computation|].
  exists evs, uevs. split; [done|]. split; [done|].
  apply (Hearlier p_hank hank); [reflexivity | discriminate].
Defined.

Lemma talker_update_broadcasts_witness :
  clients_live w_idle ∧
  talker_live w_idle (Some p_alice) ∧ talker_live w_idle (Some p_vera) ∧
  ∃ evs,
    onTalkerUpdated w_idle 1 (Some p_alice) (Some p_vera) = Some evs ∧
    (SendMsg p_vera (MsgTalkerStop 1 "A") ∉ evs) ∧
    (SendMsg p_vera (MsgTalkerStart 1 "V") ∉ evs).
Proof.
  split; [by_computation|].
  split; [by eexists|]. split; [by eexists|].
  destruct (talker_update_broadcasts w_idle 1 (Some p_alice) (Some p_vera))
    as (evs & Hrun & _ & _ & _ & _ & _ & Hv1);
    [by_computation | by eexists | by eexists |].
  exists evs. split; [done|].
  destruct (Hv1 p_vera vera 1 "A" eq_refl eq_refl) as [Hstop _].
  destruct (Hv1 p_vera vera 1 "V" eq_refl eq_refl) as [_ Hstart].
  by split.
Defined.

Lemma unchecked_datagram_dropped_witness :
  clients_live w_idle ∧
  source_checks w_idle 6666 5301 (audio_datagram 0 10) = false ∧
  ∃ l, udpDatagramReceived w_idle 6666 5301 (audio_datagram 0 10)
       = Some (w_idle, [Log l]) ∧
       l ∈ [LogUnpackHeaderFailed; LogInvalidClientId;
            LogWrongSourceIp; LogWrongSourcePort].
Proof.
  split; [by_computation|]. split; [reflexivity|].
  destruct (unchecked_datagram_dropped w_idle 6666 5301 (audio_datagram 0 10))
    as (_ & Hdrop & _); [by_computation|].
  by apply Hdrop.
Defined.

Lemma sequence_number_check_witness :
  source_checked w_idle 1001 5301 (heartbeat_datagram 3 10) p_alice alice
    (mkUdpHeader TYPE_MsgUdpHeartbeat 10 3) [] ∧
  udpDatagramReceived w_idle 1001 5301 (heartbeat_datagram 3 10)
  = Some (accepted_world w_idle p_alice alice 5301
            (mkUdpHeader TYPE_MsgUdpHeartbeat 10 3),
          [Log (LogFramesLost 0 3);
           UdpMsgReceived p_alice (mkUdpHeader TYPE_MsgUdpHeartbeat 10 3)]).
Proof.
  assert (Hsrc : source_checked w_idle 1001 5301 (heartbeat_datagram 3 10)
                   p_alice alice (mkUdpHeader TYPE_MsgUdpHeartbeat 10 3) []).
  { source_checked_by_computation. }
  split; [exact Hsrc|].
  destruct (sequence_number_check w_idle 1001 5301 (heartbeat_datagram 3 10)
              p_alice alice (mkUdpHeader TYPE_MsgUdpHeartbeat 10 3) [] Hsrc)
    as (_ & _ & Haccept & _).
  apply Haccept; [by vm_compute | reflexivity].
Defined.

Lemma first_datagram_fixes_port_witness :
  source_checked w_idle 1004 7777 (heartbeat_datagram 40000 13) p_hank hank
    (mkUdpHeader TYPE_MsgUdpHeartbeat 13 40000) [] ∧
  remoteUdpPort hank = 0 ∧
  udpDatagramReceived w_idle 1004 7777 (heartbeat_datagram 40000 13)
  = Some (store_client p_hank (setRemoteUdpPort 7777 hank) w_idle,
          [SendUdpMsg p_hank MsgUdpHeartbeat;
           Log (LogOutOfSequence 40000 0)]).
Proof.
  assert (Hsrc : source_checked w_idle 1004 7777
                   (heartbeat_datagram 40000 13) p_hank hank
                   (mkUdpHeader TYPE_MsgUdpHeartbeat 13 40000) []).
  { source_checked_by_computation. }
  split; [exact Hsrc|]. split; [reflexivity|].
  destruct (first_datagram_fixes_port w_idle 1004 7777
              (heartbeat_datagram 40000 13) p_hank hank
              (mkUdpHeader TYPE_MsgUdpHeartbeat 13 40000) [] Hsrc eq_refl)
    as [Hdrop _].
  apply Hdrop. by vm_compute.
Defined.

Lemma flush_samples_clears_talker_witness :
  validated w_alice_talks 1001 5301 (flush_datagram 0 10) p_alice alice
    (mkUdpHeader TYPE_MsgUdpFlushSamples 10 0) [] ∧
  ∃ w' evs,
    udpDatagramReceived w_alice_talks 1001 5301 (flush_datagram 0 10)
    = Some (w', evs) ∧
    CallSetTalkerForTG 42 None ∈ evs ∧
    SpecModel.talkerForTG (tg_handler w') 42 = None ∧
    last evs = Some (SendUdpMsg p_alice MsgUdpAllSamplesFlushed).
Proof.
  assert (Hval : validated w_alice_talks 1001 5301 (flush_datagram 0 10)
                   p_alice alice
                   (mkUdpHeader TYPE_MsgUdpFlushSamples 10 0) []).
  { split; [source_checked_by_computation | by vm_compute]. }
  split; [exact Hval|].
  destruct (flush_samples_clears_talker w_alice_talks 1001 5301
              (flush_datagram 0 10) p_alice alice
              (mkUdpHeader TYPE_MsgUdpFlushSamples 10 0) [] Hval eq_refl)
    as (_ & Hclear & Hprop).
  assert (Htalker : 0 < SpecModel.TGForClient tg_alice_talks p_alice ∧
                    SpecModel.talkerForTG tg_alice_talks
                      (SpecModel.TGForClient tg_alice_talks p_alice)
                    = Some p_alice).
  { split; [by vm_compute | reflexivity]. }
  destruct (call_setTalkerForTG
              (accepted_world w_alice_talks p_alice alice 5301
                 (mkUdpHeader TYPE_MsgUdpFlushSamples 10 0))
              (SpecModel.TGForClient tg_alice_talks p_alice) None)
    as [[w2 evs2]|] eqn:Hcall; [|vm_compute in Hcall; discriminate Hcall].
  pose proof (Hclear Htalker w2 evs2 Hcall) as Hrun.
  eexists _, _. split; [exact Hrun|].
  destruct (Hprop _ _ Hrun) as (Hcalls & Hcleared & _ & Hlast).
  split; [by apply Hcalls|]. split; [|exact Hlast].
  rewrite (Hcleared Htalker). reflexivity.
Defined.

Lemma client_disconnect_cleanup_witness :
  m_client_con_map (reflector w_alice_talks) !! 101%nat = Some p_alice ∧
  heap w_alice_talks !! p_alice = Some alice ∧
  clients_live w_alice_talks ∧
  is_Some (call_removeClient w_alice_talks p_alice) ∧
  ∃ w' evs,
    clientDisconnected w_alice_talks 101%nat = Some (w', evs) ∧
    m_client_map (reflector w') !! 10 = None ∧
    (∀ to, SendMsg to (MsgNodeLeft "A") ∈ evs ↔
       receives w' (ExceptFilter p_alice) to) ∧
    heap w' !! p_alice = Some alice ∧
    tasks w' = [delete_client p_alice] ∧
    heap (run_pending_tasks w') !! p_alice = None.
Proof.
  split; [reflexivity|]. split; [reflexivity|]. split; [by_computation|].
  assert (Hcall : is_Some (call_removeClient w_alice_talks p_alice))
    by (vm_compute; by eexists).
  split; [exact Hcall|].
  destruct (client_disconnect_cleanup w_alice_talks 101%nat p_alice alice)
    as (w' & evs & Hrun & _ & _ & _ & _ & Hid & _ & Hleft & _ & Hheap
        & Htasks & Hgone);
    [reflexivity | reflexivity | by_computation | exact Hcall |].
  exists w', evs. split; [done|]. split; [exact Hid|].
  split; [|split; [by rewrite Hheap | by split]].
  intros to. rewrite Hleft. split; [by intros (_ & _ & ?)|].
  intros Hr. split; [discriminate|]. by split.
Defined.

Lemma random_qsy_allocation_witness :
  random_qsy_ready (reflector w_qsy) ∧ clients_live w_qsy ∧
  is_Some (heap w_qsy !! p_alice) ∧
  ∃ w' evs,
    requestQsy w_qsy p_alice 0 = Some (w', evs) ∧
    ∀ to t', SendMsg to (MsgRequestQsy t') ∈ evs →
      100 ≤ t' ≤ 102 ∧ SpecModel.clientsForTG tg_qsy t' = ∅.
Proof.
  assert (Hready : random_qsy_ready (reflector w_qsy))
    by (repeat split; by vm_compute).
  split; [exact Hready|]. split; [by_computation|]. split; [by eexists|].
  destruct random_qsy_allocation as (_ & _ & _ & Hrequest).
  destruct (Hrequest w_qsy p_alice Hready) as (_ & w' & evs & Hrun & Hrest);
    [by_computation | by eexists |].
  exists w', evs. split; [exact Hrun|].
  by destruct Hrest as (_ & _ & _ & _ & _ & _ & _ & Hempty).
Defined.

(* --------------------------------------------------------------------- *)
(** ** Runs of the handlers *)

(** Alice starts to talk on talkgroup 42: the talker is installed and
    announced, and Bob gets the audio. *)
Example run_first_audio :
  snd <$> udpDatagramReceived w_idle 1001 5301 (audio_datagram 0 10)
  = Some [UdpMsgReceived p_alice (mkUdpHeader TYPE_MsgUdpAudio 10 0);
          CallSetTalkerForTG 42 (Some p_alice);
          Log (LogTalkerStart 42 "A");
          SendMsg p_alice (MsgTalkerStart 42 "A");
          SendMsg p_bob (MsgTalkerStart 42 "A");
          CallSetTalkerForTG 42 (Some p_alice);
          SendUdpMsg p_bob (MsgUdpAudio [7; 8; 9])].
Proof. vm_compute. reflexivity. Qed.

(** Bob's audio while Alice talks is dropped without a call into the
    handler. *)
Example run_preemption_refused :
  snd <$> udpDatagramReceived w_alice_talks 1002 5302 (audio_datagram 0 11)
  = Some [UdpMsgReceived p_bob (mkUdpHeader TYPE_MsgUdpAudio 11 0)].
Proof. vm_compute. reflexivity. Qed.

(** Alice ends her transmission. *)
Example run_flush :
  snd <$> udpDatagramReceived w_alice_talks 1001 5301 (flush_datagram 0 10)
  = Some [UdpMsgReceived p_alice (mkUdpHeader TYPE_MsgUdpFlushSamples 10 0);
          CallSetTalkerForTG 42 None;
          Log (LogTalkerStop 42 "A");
          SendMsg p_alice (MsgTalkerStop 42 "A");
          SendMsg p_bob (MsgTalkerStop 42 "A");
          SendUdpMsg p_bob MsgUdpFlushSamples;
          SendUdpMsg p_alice MsgUdpAllSamplesFlushed].
Proof. vm_compute. reflexivity. Qed.

(** A datagram with Alice's client id from another address. *)
Example run_source_spoof :
  udpDatagramReceived w_idle 6666 5301 (audio_datagram 0 10)
  = Some (w_idle, [Log LogWrongSourceIp]).
Proof. vm_compute. reflexivity. Qed.

(** A frame from the past: sequence number 65535 when 0 is expected. *)
Example run_stale_frame :
  snd <$> udpDatagramReceived w_idle 1001 5301 (heartbeat_datagram 65535 10)
  = Some [Log (LogOutOfSequence 65535 0)].
Proof. vm_compute. reflexivity. Qed.

(** Talkgroups 100 and 102 are occupied: the request announces 101, and
    the cursor stays there. *)
Example run_random_qsy :
  (λ r : World SpecModel.TG * list Event,
     (m_random_qsy_tg (reflector r.1), r.2)) <$> requestQsy w_qsy p_alice 0
  = Some (101, [Log (LogRequestingQsy 100 101);
                SendMsg p_alice (MsgRequestQsy 101)]).
Proof. vm_compute. reflexivity. Qed.

(** Alice, the talker, disconnects. *)
Example run_disconnect :
  (λ r : World SpecModel.TG * list Event, (tasks r.1, r.2))
    <$> clientDisconnected w_alice_talks 101%nat
  = Some ([delete_client p_alice],
          [CallRemoveClient p_alice;
           Log (LogTalkerStop 42 "A");
           SendMsg p_alice (MsgTalkerStop 42 "A");
           SendMsg p_bob (MsgTalkerStop 42 "A");
           SendUdpMsg p_bob MsgUdpFlushSamples;
           Log (LogDisconnected "A");
           SendMsg p_bob (MsgNodeLeft "A");
           SendMsg p_vera (MsgNodeLeft "A")]).
Proof. vm_compute. reflexivity. Qed.

(** The squelch opens at level 12, stays open at level 7, closes at
    level 4 and stays closed at level 7; a reset of the open squelch
    closes it. *)
Example run_squelch :
  let s1 := (squelch_step squelch_closed 12).1 in
  let s2 := (squelch_step s1 7).1 in
  let s3 := (squelch_step s2 4).1 in
  let s4 := (squelch_step s3 7).1 in
  let s5 := SquelchSigLev.reset squelch_reset_log s1 in
  (SquelchSigLev.is_open s1, SquelchSigLev.is_open s2,
   SquelchSigLev.is_open s3, SquelchSigLev.is_open s4,
   SquelchSigLev.base s4, (squelch_step s3 7).2,
   SquelchSigLev.is_open s5, SquelchSigLev.base s5)
  = (true, true, false, false, [Some false; Some true], 160,
     false, [None; Some true]).
Proof. vm_compute. reflexivity. Qed.

(* ===================================================================== *)
(** ** The further properties on the example states *)

Import MoreExamples.

(** The handler of the design document keeps the contract for its
    signals. *)
Lemma spec_handler_signals_ok : handler_signals_ok (T := SpecModel.TG).
Proof.
  split.
  - apply spec_setTalkerForTG_signals.
  - apply spec_removeClient_signals.
Qed.

Lemma clientConnected_registers_witness :
  registry_wf w_idle ∧
  heap w_idle !! p_carol = None ∧
  m_client_map (reflector w_idle) !! clientId carol = None ∧
  m_client_con_map (reflector w_idle) !! 105%nat = None ∧
  registry_wf (clientConnected w_idle 105%nat p_carol carol).1 ∧
  heap (clientConnected w_idle 105%nat p_carol carol).1 !! p_alice
  = Some alice.
Proof.
  split; [by_computation|]. split; [reflexivity|]. split; [reflexivity|].
  split; [reflexivity|].
  destruct (clientConnected_registers w_idle 105%nat p_carol carol)
    as (Hwf & _ & _ & _ & _ & _ & Hheap & _);
    [by_computation | reflexivity | reflexivity | reflexivity |].
  split; [exact Hwf|]. by rewrite Hheap.
Defined.


Lemma pending_deletes_run_once_witness :
  registry_wf w_alice_left ∧
  run_pending_tasks_checked w_alice_left
  = Some (run_pending_tasks w_alice_left) ∧
  heap (run_pending_tasks w_alice_left) !! p_alice = None ∧
  heap (run_pending_tasks w_alice_left) !! p_bob = Some bob.
Proof.
  split; [by_computation|].
  destruct (pending_deletes_run_once w_alice_left)
    as (Hrun & _ & _ & _ & _ & Hgone & _ & Hkept); [by_computation|].
  split; [exact Hrun|]. split.
  - apply Hgone. apply list_elem_of_singleton. reflexivity.
  - rewrite (Hkept 11 p_bob); reflexivity.
Defined.

Lemma registry_invariant_witness :
  registry_wf w_idle ∧ loop_events_ok w_idle morning ∧
  ∃ w', loop_run w_idle morning = Some w' ∧ registry_wf w'.
Proof.
  split; [by_computation|]. split; [by_computation|].
  apply registry_invariant;
    [exact spec_handler_signals_ok | by_computation | by_computation].
Defined.

Lemma connect_disconnect_round_trip_witness :
  registry_wf w_idle ∧
  heap w_idle !! p_carol = None ∧
  m_client_map (reflector w_idle) !! clientId carol = None ∧
  m_client_con_map (reflector w_idle) !! 105%nat = None ∧
  ∃ w' evs,
    clientDisconnected (clientConnected w_idle 105%nat p_carol carol).1
      105%nat = Some (w', evs) ∧
    reflector w' = reflector w_idle ∧
    heap (run_pending_tasks w') !! p_carol = None.
Proof.
  split; [by_computation|]. split; [reflexivity|]. split; [reflexivity|].
  split; [reflexivity|].
  destruct (connect_disconnect_round_trip w_idle 105%nat p_carol carol)
    as (w' & evs & Hrun & Hr & _ & _ & _ & _ & Hgone & _);
    [exact spec_handler_signals_ok | by_computation | reflexivity
     | reflexivity | reflexivity |].
  exists w', evs. by split.
Defined.

Lemma reply_goes_to_datagram_source_witness :
  source_checked w_idle 1004 7777 (heartbeat_datagram 40000 13) p_hank hank
    (mkUdpHeader TYPE_MsgUdpHeartbeat 13 40000) [] ∧
  udpDatagramReceived w_idle 1004 7777 (heartbeat_datagram 40000 13)
  = Some (store_client p_hank (setRemoteUdpPort 7777 hank) w_idle,
          [SendUdpMsg p_hank MsgUdpHeartbeat;
           Log (LogOutOfSequence 40000 0)]) ∧
  sendUdpDatagram (store_client p_hank (setRemoteUdpPort 7777 hank) w_idle)
    p_hank [1; 2; 3] = Some (1004, 7777, [1; 2; 3]).
Proof.
  assert (Hsrc : source_checked w_idle 1004 7777
                   (heartbeat_datagram 40000 13) p_hank hank
                   (mkUdpHeader TYPE_MsgUdpHeartbeat 13 40000) [])
    by source_checked_by_computation.
  assert (Hrun : udpDatagramReceived w_idle 1004 7777
                   (heartbeat_datagram 40000 13)
    = Some (store_client p_hank (setRemoteUdpPort 7777 hank) w_idle,
            [SendUdpMsg p_hank MsgUdpHeartbeat;
             Log (LogOutOfSequence 40000 0)]))
    by (vm_compute; reflexivity).
  split; [exact Hsrc|]. split; [exact Hrun|].
  exact (reply_goes_to_datagram_source _ _ _ _ _ _ _ _ _ _ [1; 2; 3]
           Hsrc Hrun).
Defined.



Lemma broadcast_once_in_id_order_witness :
  registry_wf w_idle ∧
  broadcastMsg w_idle (MsgNodeLeft "V") (ExceptFilter p_vera)
  = Some [SendMsg p_alice (MsgNodeLeft "V"); SendMsg p_bob (MsgNodeLeft "V")].
Proof.
  split; [by_computation|].
  destruct (broadcast_once_in_id_order w_idle (ExceptFilter p_vera)
              (MsgNodeLeft "V") MsgUdpFlushSamples) as (Hrun & _);
    [by_computation|].
  rewrite Hrun. reflexivity.
Defined.

Lemma nodeList_callsigns_witness :
  clients_live w_idle ∧
  ∃ nodes, nodeList w_idle = Some nodes ∧ (length nodes ≤ 4)%nat ∧
           "V" ∈ nodes.
Proof.
  split; [by_computation|].
  destruct (nodeList_callsigns w_idle) as (nodes & Hrun & Hlen & Hin);
    [by_computation|].
  exists nodes. split; [exact Hrun|]. split; [exact Hlen|].
  apply Hin. split; [discriminate|]. by exists 12, p_vera, vera.
Defined.


Lemma random_qsy_no_immediate_reuse_witness :
  random_qsy_ready (reflector w_qsy_next) ∧
  requestQsy w_qsy_next p_alice 0
  = Some (w_qsy_next,
          [Log (LogRequestingQsy 100 101);
           SendMsg p_alice (MsgRequestQsy 101)]) ∧
  clientsForTG (tg_handler w_qsy_next) 100 ≠ ∅ ∧
  clientsForTG (tg_handler w_qsy_next) 102 ≠ ∅.
Proof.
  assert (Hready : random_qsy_ready (reflector w_qsy_next))
    by (vm_compute; repeat split; discriminate).
  assert (Hrun : requestQsy w_qsy_next p_alice 0
    = Some (w_qsy_next,
            [Log (LogRequestingQsy 100 101);
             SendMsg p_alice (MsgRequestQsy 101)]))
    by (vm_compute; reflexivity).
  split; [exact Hready|]. split; [exact Hrun|].
  pose proof (random_qsy_no_immediate_reuse w_qsy_next p_alice _ _
                Hready Hrun eq_refl) as Hothers.
  split; apply Hothers; vm_compute; (split + idtac); discriminate.
Defined.

Lemma squelch_settles_witness :
  (∀ l t, Z.geb l t = negb (Z.ltb l t)) ∧
  (∀ l t t', t ≤ t' → Z.ltb l t = true → Z.ltb l t' = true) ∧
  SquelchSigLev.close_thresh squelch_closed
  ≤ SquelchSigLev.open_thresh squelch_closed ∧
  squelch_step (squelch_step squelch_closed 12).1 12
  = ((squelch_step squelch_closed 12).1, 160).
Proof.
  assert (Hge : ∀ l t, Z.geb l t = negb (Z.ltb l t)).
  { intros l t. rewrite Z.geb_leb, Z.ltb_antisym. by rewrite negb_involutive. }
  assert (Hmono : ∀ l t t', t ≤ t' → Z.ltb l t = true → Z.ltb l t' = true).
  { intros l t t' Hle Hlt%Z.ltb_lt. apply Z.ltb_lt. lia. }
  split; [exact Hge|]. split; [exact Hmono|]. split; [by vm_compute|].
  apply (squelch_settles squelch_setOpen_log Z.geb Z.ltb squelch_closed 12
           ([] : list Z) ([] : list Z) 160 160 Hge Hmono).
  by vm_compute.
Defined.

Lemma squelch_chatters_witness :
  Z.geb 7 (SquelchSigLev.open_thresh squelch_inverted) = true ∧
  Z.ltb 7 (SquelchSigLev.close_thresh squelch_inverted) = true ∧
  SquelchSigLev.is_open
    (SquelchSigLev.processSamples squelch_setOpen_log Z.geb Z.ltb
       squelch_inverted 7 ([] : list Z) 160).1 = true.
Proof.
  split; [reflexivity|]. split; [reflexivity|].
  destruct (squelch_chatters squelch_setOpen_log Z.geb Z.ltb
              squelch_inverted 7 ([] : list Z) 160 eq_refl eq_refl)
    as (Hopen & _).
  exact Hopen.
Defined.

(** The morning at the reflector: at its end nothing is queued, Alice
    and Carol are gone from the list of nodes and from the heap, and Bob
    is where he was. *)
Example run_morning :
  (w' ← loop_run w_idle morning;
   nodes ← nodeList w';
   Some (tasks w', nodes, heap w' !! p_alice, heap w' !! p_carol,
         heap w' !! p_bob))
  = Some ([], ["B"; "V"], None, None, Some bob).
Proof. vm_compute. reflexivity. Qed.

(** Zoe speaks protocol version 3 on talkgroup 42: Alice's audio reaches
    her, the talker messages do not. *)
Example run_version_gate :
  snd <$> udpDatagramReceived w_zoe 1001 5301 (audio_datagram 0 10)
  = Some [UdpMsgReceived p_alice (mkUdpHeader TYPE_MsgUdpAudio 10 0);
          CallSetTalkerForTG 42 (Some p_alice);
          Log (LogTalkerStart 42 "A");
          SendMsg p_alice (MsgTalkerStart 42 "A");
          SendMsg p_bob (MsgTalkerStart 42 "A");
          CallSetTalkerForTG 42 (Some p_alice);
          SendUdpMsg p_bob (MsgUdpAudio [7; 8; 9]);
          SendUdpMsg p_zoe (MsgUdpAudio [7; 8; 9])].
Proof. vm_compute. reflexivity. Qed.

(** [initialize] on three receivers: both thresholds set, only the
    opening threshold set, nothing set. *)
Example run_initialize :
  let init := SquelchSigLevMore.initialize base_initialize_ok cfg_getValue
                digits_value squelch_new cfg_rx in
  init "Rx1" = (SquelchSigLev.mk [] 10 5 false, true, []) ∧
  init "Rx2" = (SquelchSigLev.mk [] 20 0 false, false,
                [SquelchSigLevMore.LogCloseThreshNotSet]) ∧
  init "Rx3" = (SquelchSigLev.mk [] 0 0 false, false,
                [SquelchSigLevMore.LogOpenThreshNotSet]).
Proof. vm_compute. done. Qed.

(** A strong signal twice, a weak one, a reset and a strong signal
    again: what the base class is told, newest first. *)
Example run_squelch_calls :
  SquelchSigLev.base
    (logged_calls Z.geb Z.ltb squelch_closed
       [SquelchSigLevMore.CallProcessSamples 12 160;
        SquelchSigLevMore.CallProcessSamples 12 160;
        SquelchSigLevMore.CallProcessSamples 3 160;
        SquelchSigLevMore.CallReset;
        SquelchSigLevMore.CallProcessSamples 11 160])
  = [Some true; None; Some false; Some true].
Proof. vm_compute. reflexivity. Qed.
